(** * XTF-8 codec: the UTF-8 scanner, the transcoder and the JSON helpers

    A shallow embedding of [utf8.h], [xtf8.c] and the JSON escaping
    routines of the command-line tool, with the properties of the codec
    stated and proved over it.  The command-line tool itself and the
    two Lua bindings follow the codec.

    Conventions of the embedding.
    - A buffer is a [list byte]; the C parameter [len] is its length.
    - [uint32_t] and [uint8_t] values are integers of [Z]; the places
      where C arithmetic truncates are written out ([u32], [u8]).
    - A pointer into the source buffer ([s], [pos]) is kept as its offset
      from [src]; [end] is the offset [len].
    - The destination pointer is [None] for [NULL] and [Some a] for the
      address [a]; a store [*d++ = v] appends [v] to the list of bytes
      written so far and moves the address by one.
    - [size_t sz] is a plain integer: it is bounded by three times [len]
      (theorems [encode_size_bound] and [decode_size_bound]), so it does
      not wrap for a buffer that fits the address space with its output.
    - [assert] is modelled as in a build without [NDEBUG]: a failing
      assertion ends the call with [Assert_failed].  No assertion fails
      (theorems [xtf8_encode_stream] and [xtf8_decode_stream]), so a
      build with [NDEBUG] returns the same values. *)

From Stdlib Require Import ZArith List Lia Bool.
From Stdlib Require Import Strings.Byte.
From Stdlib Require Strings.String.
Import ListNotations.
Import String.StringSyntax.
Delimit Scope string_scope with string.
Local Open Scope Z_scope.

(** ** Bytes *)

(** The value of a byte, as C reads [uint8_t] into a wider integer. *)
Definition byte_val (b : byte) : Z := Z.of_N (Byte.to_N b).

(** Storing an integer into a [uint8_t]: the low eight bits are kept. *)
Definition u8 (z : Z) : byte :=
  match Byte.of_N (Z.to_N (z mod 256)) with
  | Some b => b
  | None => x00
  end.

(** Truncation to [uint32_t]. *)
Definition u32 (z : Z) : Z := z mod 2 ^ 32.

(** [*p] for [p = src + i]. *)
Definition deref (src : list byte) (i : Z) : Z :=
  byte_val (nth (Z.to_nat i) src x00).

(** ** utf8.h: the scanner *)

Definition UTF8_ACCEPT : Z := 0.
Definition UTF8_REJECT : Z := 12.

Definition utf8d : list Z :=
  [ 0;0;0;0;0;0;0;0;0;0;0;0;0;0;0;0;  0;0;0;0;0;0;0;0;0;0;0;0;0;0;0;0;
    0;0;0;0;0;0;0;0;0;0;0;0;0;0;0;0;  0;0;0;0;0;0;0;0;0;0;0;0;0;0;0;0;
    0;0;0;0;0;0;0;0;0;0;0;0;0;0;0;0;  0;0;0;0;0;0;0;0;0;0;0;0;0;0;0;0;
    0;0;0;0;0;0;0;0;0;0;0;0;0;0;0;0;  0;0;0;0;0;0;0;0;0;0;0;0;0;0;0;0;
    1;1;1;1;1;1;1;1;1;1;1;1;1;1;1;1;  9;9;9;9;9;9;9;9;9;9;9;9;9;9;9;9;
    7;7;7;7;7;7;7;7;7;7;7;7;7;7;7;7;  7;7;7;7;7;7;7;7;7;7;7;7;7;7;7;7;
    8;8;2;2;2;2;2;2;2;2;2;2;2;2;2;2;  2;2;2;2;2;2;2;2;2;2;2;2;2;2;2;2;
   10;3;3;3;3;3;3;3;3;3;3;3;3;4;3;3; 11;6;6;6;5;8;8;8;8;8;8;8;8;8;8;8;

    0;12;24;36;60;96;84;12;12;12;48;72; 12;12;12;12;12;12;12;12;12;12;12;12;
   12; 0;12;12;12;12;12; 0;12; 0;12;12; 12;24;12;12;12;12;12;24;12;24;12;12;
   12;12;12;12;12;12;12;24;12;12;12;12; 12;24;12;12;12;12;12;12;12;24;12;12;
   12;12;12;12;12;12;12;36;12;36;12;12; 12;36;12;12;12;12;12;36;12;36;12;12;
   12;36;12;12;12;12;12;12;12;12;12;12 ].

(** [utf8d[i]]. *)
Definition utf8d_at (i : Z) : Z := nth (Z.to_nat i) utf8d 0.

(** One step of the scanner.  The C function updates [*state] and
    [*codep] in place; here the pair of new values is returned. *)
Definition utf8_decode (state codep byte : Z) : Z * Z :=
  let type := utf8d_at byte in
  let codep' :=
    if negb (state =? UTF8_ACCEPT)
    then Z.lor (Z.land byte 0x3f) (u32 (Z.shiftl codep 6))
    else Z.land (Z.shiftr 0xff type) byte in
  let state' := utf8d_at (256 + state + type) in
  (state', codep').

(** The scanner state after a whole buffer, started in [st]. *)
Fixpoint utf8_scan (st cp : Z) (l : list byte) : Z * Z :=
  match l with
  | [] => (st, cp)
  | b :: l' =>
      let '(st', cp') := utf8_decode st cp (byte_val b) in
      utf8_scan st' cp' l'
  end.

(** [is_utf8 (data, len)]: run the scanner from [UTF8_ACCEPT] over the
    buffer and test the final state.  [codepoint] is uninitialised in
    the source; the scanner overwrites it at the first byte. *)
Definition is_utf8 (data : list byte) : bool :=
  fst (utf8_scan UTF8_ACCEPT 0 data) =? UTF8_ACCEPT.

(** ** xtf8.h and xtf8.c: the transcoder *)

Definition XTF8_ERR_REPLACE : Z := 0.
Definition XTF8_ERR_ABORT : Z := 1.

(** [(uintptr_t)-1] on a 64-bit target. *)
Definition XTF8_ABORTED : Z := 2 ^ 64 - 1.

Definition XTF8_PUA_START : Z := 0xEF80.
Definition XTF8_PUA_END : Z := 0xEFFF.

(** The local variables of [xtf8_encode] and [xtf8_decode], with the
    bytes stored through [d] so far. *)
Record xtf8_state : Type := mk_state {
  s_prev : Z;
  s_cur : Z;
  codepoint : Z;
  d : option Z;
  mem : list byte;
  s : Z;
  pos : Z;
  sz : Z
}.

(** The assertions of [xtf8.c]. *)
Inductive assertion : Type :=
| Assert_non_ascii      (* assert( *pos >= 0x80 ), in xtf8_encode *)
| Assert_decoded_byte   (* assert(v >= 0x80), in xtf8_decode *)
| Assert_dst_size       (* assert((uint8_t * )dst + sz == d) *)
| Assert_is_utf8.       (* assert(is_utf8(dst, sz)), in xtf8_encode *)

(** How a call ends: with a returned [uintptr_t] and the bytes it has
    stored into the destination, or at a failing assertion. *)
Inductive outcome : Type :=
| Returned (ret : Z) (written : list byte)
| Assert_failed (a : assertion).

(** What one turn of the main loop does. *)
Inductive turn : Type :=
| Next (x : xtf8_state)
| Stop (o : outcome).

(** Pointers that may be [NULL]. *)
Definition ptr_add (p : option Z) (n : Z) : option Z :=
  option_map (fun a => a + n) p.

Definition is_null (p : option Z) : bool :=
  match p with Some _ => false | None => true end.

(** [(uintptr_t)p]. *)
Definition uintptr (p : option Z) : Z :=
  match p with Some a => a | None => 0 end.

(** Assignments to the local variables. *)
Definition set_s_prev (v : Z) (x : xtf8_state) : xtf8_state :=
  let '(mk_state _ s_cur codepoint d mem s pos sz) := x in
  mk_state v s_cur codepoint d mem s pos sz.
Definition set_s_cur (v : Z) (x : xtf8_state) : xtf8_state :=
  let '(mk_state s_prev _ codepoint d mem s pos sz) := x in
  mk_state s_prev v codepoint d mem s pos sz.
Definition set_codepoint (v : Z) (x : xtf8_state) : xtf8_state :=
  let '(mk_state s_prev s_cur _ d mem s pos sz) := x in
  mk_state s_prev s_cur v d mem s pos sz.
Definition set_s (v : Z) (x : xtf8_state) : xtf8_state :=
  let '(mk_state s_prev s_cur codepoint d mem _ pos sz) := x in
  mk_state s_prev s_cur codepoint d mem v pos sz.
Definition set_pos (v : Z) (x : xtf8_state) : xtf8_state :=
  let '(mk_state s_prev s_cur codepoint d mem s _ sz) := x in
  mk_state s_prev s_cur codepoint d mem s v sz.
Definition set_sz (v : Z) (x : xtf8_state) : xtf8_state :=
  let '(mk_state s_prev s_cur codepoint d mem s pos _) := x in
  mk_state s_prev s_cur codepoint d mem s pos v.

(** [*d++ = v]. *)
Definition store (v : Z) (x : xtf8_state) : xtf8_state :=
  let '(mk_state s_prev s_cur codepoint d mem s pos sz) := x in
  mk_state s_prev s_cur codepoint (ptr_add d 1) (mem ++ [u8 v]) s pos sz.

(** The three stores that write [codepoint] as a three-byte sequence:
<<
    *d++ = (codepoint >> 12 & 0x0F) | 0xE0;
    *d++ = (codepoint >> 6  & 0x3F) | 0x80;
    *d++ = (codepoint       & 0x3F) | 0x80;
>> *)
Definition store3 (x : xtf8_state) : xtf8_state :=
  let cp := codepoint x in
  let x := store (Z.lor (Z.land (Z.shiftr cp 12) 0x0F) 0xE0) x in
  let x := store (Z.lor (Z.land (Z.shiftr cp 6) 0x3F) 0x80) x in
  store (Z.lor (Z.land cp 0x3F) 0x80) x.

(** [while (pos <= s) *d++ = *pos++;] with [n] the number of turns
    left, [s + 1 - pos] at the start. *)
Fixpoint copy_loop (n : nat) (src : list byte) (x : xtf8_state) : xtf8_state :=
  match n with
  | O => x
  | S n' =>
      if pos x <=? s x
      then copy_loop n' src (set_pos (pos x + 1) (store (deref src (pos x)) x))
      else x
  end.

(** The loop of the REJECT branch of [xtf8_encode]:
<<
    while (pos <= s) {
        assert( *pos >= 0x80 );
        sz += 3;
        if (d != NULL) { codepoint = 0xEF80 | ( *pos & 0x7F ); ... }
        pos++;
    }
>>
    [None] is a failed assertion. *)
Fixpoint pua_loop (n : nat) (src : list byte) (x : xtf8_state) : option xtf8_state :=
  match n with
  | O => Some x
  | S n' =>
      if pos x <=? s x then
        if 0x80 <=? deref src (pos x) then
          let x := set_sz (sz x + 3) x in
          let x :=
            if negb (is_null (d x))
            then store3 (set_codepoint (Z.lor 0xEF80 (Z.land (deref src (pos x)) 0x7F)) x)
            else x in
          pua_loop n' src (set_pos (pos x + 1) x)
        else None
      else Some x
  end.

(** The body of the [while (s < end)] loop of [xtf8_encode]. *)
Definition encode_turn (src : list byte) (error : Z) (x : xtf8_state) : turn :=
  let '(st, cp) := utf8_decode (s_cur x) (codepoint x) (deref src (s x)) in
  let x := set_codepoint cp (set_s_cur st x) in
  let branch :=
    if st =? UTF8_ACCEPT then
      if (XTF8_PUA_START <=? cp) && (cp <=? XTF8_PUA_END) then
        if error =? XTF8_ERR_ABORT then Stop (Returned XTF8_ABORTED (mem x))
        else
          let x := set_codepoint 0xFFFD x in
          let x := set_sz (sz x + 3) x in
          let x := if negb (is_null (d x)) then store3 x else x in
          Next (set_pos (s x + 1) x)
      else
        let x := set_sz (sz x + (1 + s x - pos x)) x in
        let x :=
          if negb (is_null (d x))
          then copy_loop (Z.to_nat (s x + 1 - pos x)) src x
          else x in
        Next (set_pos (s x + 1) x)
    else if st =? UTF8_REJECT then
      let x := set_s_cur UTF8_ACCEPT x in
      let x := if negb (s_prev x =? UTF8_ACCEPT) then set_s (s x - 1) x else x in
      match pua_loop (Z.to_nat (s x + 1 - pos x)) src x with
      | Some x => Next x
      | None => Stop (Assert_failed Assert_non_ascii)
      end
    else Next x in
  match branch with
  | Next x => Next (set_s (s x + 1) (set_s_prev (s_cur x) x))
  | Stop o => Stop o
  end.

(** The end of [xtf8_encode], after the loop. *)
Definition encode_finish (dst : option Z) (x : xtf8_state) : outcome :=
  if negb (is_null (d x)) then
    if negb (uintptr (ptr_add dst (sz x)) =? uintptr (d x)) then Assert_failed Assert_dst_size
    else if negb (is_utf8 (firstn (Z.to_nat (sz x)) (mem x))) then Assert_failed Assert_is_utf8
    else Returned (uintptr (d x)) (mem x)
  else Returned (sz x) (mem x).

(** The end of [xtf8_decode], after the loop. *)
Definition decode_finish (dst : option Z) (x : xtf8_state) : outcome :=
  if negb (is_null (d x)) then
    if negb (uintptr (ptr_add dst (sz x)) =? uintptr (d x)) then Assert_failed Assert_dst_size
    else Returned (uintptr (d x)) (mem x)
  else Returned (sz x) (mem x).

(** The body of the [while (s < end)] loop of [xtf8_decode]. *)
Definition decode_turn (src : list byte) (error : Z) (x : xtf8_state) : turn :=
  let '(st, cp) := utf8_decode (s_cur x) (codepoint x) (deref src (s x)) in
  let x := set_codepoint cp (set_s_cur st x) in
  let branch :=
    if st =? UTF8_ACCEPT then
      if (XTF8_PUA_START <=? cp) && (cp <=? XTF8_PUA_END) then
        let v := byte_val (u8 (Z.lor (Z.land cp 0x7F) 0x80)) in
        if negb (0x80 <=? v) then Stop (Assert_failed Assert_decoded_byte)
        else
          let x := set_sz (sz x + 1) x in
          let x := if negb (is_null (d x)) then store v x else x in
          Next (set_pos (s x + 1) x)
      else
        let x := set_sz (sz x + (1 + s x - pos x)) x in
        let x :=
          if negb (is_null (d x))
          then copy_loop (Z.to_nat (s x + 1 - pos x)) src x
          else x in
        Next (set_pos (s x + 1) x)
    else if st =? UTF8_REJECT then
      if error =? XTF8_ERR_ABORT then Stop (Returned XTF8_ABORTED (mem x))
      else
        let x := set_s_cur UTF8_ACCEPT x in
        let x := if negb (s_prev x =? UTF8_ACCEPT) then set_s (s x - 1) x else x in
        let x := set_codepoint 0xFFFD x in
        let x := set_sz (sz x + 3) x in
        let x := if negb (is_null (d x)) then store3 x else x in
        Next (set_pos (s x + 1) x)
    else Next x in
  match branch with
  | Next x => Next (set_s (s x + 1) (set_s_prev (s_cur x) x))
  | Stop o => Stop o
  end.

(** [while (s < end) { body }] and what follows it, for both functions;
    [fuel] bounds the number of turns. *)
Fixpoint xtf8_loop (body : xtf8_state -> turn) (finish : xtf8_state -> outcome)
    (len : Z) (fuel : nat) (x : xtf8_state) : option outcome :=
  match fuel with
  | O => None
  | S fuel' =>
      if s x <? len then
        match body x with
        | Next x' => xtf8_loop body finish len fuel' x'
        | Stop o => Some o
        end
      else Some (finish x)
  end.

(** The state at the head of the loop after [n] turns, when the call
    has not ended before. *)
Fixpoint xtf8_loop_state (body : xtf8_state -> turn) (len : Z) (n : nat)
    (x : xtf8_state) : option xtf8_state :=
  match n with
  | O => Some x
  | S n' =>
      if s x <? len then
        match body x with
        | Next x' => xtf8_loop_state body len n' x'
        | Stop _ => None
        end
      else None
  end.

(** The state at the loop's entry.  [codepoint] is not initialised in
    the source; the scanner overwrites it before it is read. *)
Definition init_state (dst : option Z) : xtf8_state :=
  mk_state UTF8_ACCEPT UTF8_ACCEPT 0 dst [] 0 0 0.

(** No byte is scanned more than twice, so twice [len] turns and one
    more test of the loop condition are enough (theorems
    [xtf8_encode_stream] and [xtf8_decode_stream]). *)
Definition xtf8_fuel (src : list byte) : nat := 2 * length src + 1.

Definition xtf8_encode (dst : option Z) (src : list byte) (error : Z) : option outcome :=
  xtf8_loop (encode_turn src error) (encode_finish dst)
            (Z.of_nat (length src)) (xtf8_fuel src) (init_state dst).

Definition xtf8_decode (dst : option Z) (src : list byte) (error : Z) : option outcome :=
  xtf8_loop (decode_turn src error) (decode_finish dst)
            (Z.of_nat (length src)) (xtf8_fuel src) (init_state dst).

(** What a call returned and what it stored, when it returned. *)
Definition returned (o : option outcome) : option Z :=
  match o with Some (Returned ret _) => Some ret | _ => None end.

Definition written (o : option outcome) : option (list byte) :=
  match o with Some (Returned _ w) => Some w | _ => None end.

(** The command-line tool and the Lua binding call the transcoder
    through a pointer: [f_xtf8 = xtf8_encode], or [f_xtf8 = xtf8_decode]
    to decode. *)
Definition f_xtf8 (decode : bool) : option Z -> list byte -> Z -> option outcome :=
  if decode then xtf8_decode else xtf8_encode.

(** ** The command-line tool: JSON string escaping *)

(** Character constants of the source, by their codes. *)
Definition chr_backslash : Z := 0x5C.
Definition chr_quote : Z := 0x22.
Definition chr_n : Z := 0x6E.
Definition chr_r : Z := 0x72.
Definition chr_t : Z := 0x74.
Definition chr_b : Z := 0x62.
Definition chr_f : Z := 0x66.
Definition chr_u : Z := 0x75.
Definition chr_0 : Z := 0x30.
Definition chr_9 : Z := 0x39.
Definition chr_A : Z := 0x41.
Definition chr_F : Z := 0x46.
Definition chr_LF : Z := 0x0A.
Definition chr_CR : Z := 0x0D.
Definition chr_TAB : Z := 0x09.
Definition chr_BS : Z := 0x08.
Definition chr_FF : Z := 0x0C.

Definition is_named_control (ch : Z) : bool :=
  (ch =? chr_LF) || (ch =? chr_CR) || (ch =? chr_TAB) || (ch =? chr_BS) || (ch =? chr_FF).

(** The first loop of [json_escape], taken when [d == NULL]: each turn
    reads [ch = *s++] and adds to [sz].  [sizeof] of the six-character
    literal is 7. *)
Fixpoint json_escape_size (src : list byte) (sz : Z) : Z :=
  match src with
  | [] => sz
  | b :: rest =>
      let ch := byte_val b in
      let sz :=
        if ch <=? 0x1F then
          let sz := sz + 1 in
          if is_named_control ch then sz + 1 else sz + (7 - 2)
        else
          let sz := if (ch =? chr_backslash) || (ch =? chr_quote) then sz + 1 else sz in
          sz + 1 in
      json_escape_size rest sz
  end.

(** The bytes one turn of the second loop of [json_escape] stores. *)
Definition json_escape_byte (ch : Z) : list byte :=
  if ch <=? 0x1F then
    u8 chr_backslash ::
    (if ch =? chr_LF then [u8 chr_n]
     else if ch =? chr_CR then [u8 chr_r]
     else if ch =? chr_TAB then [u8 chr_t]
     else if ch =? chr_BS then [u8 chr_b]
     else if ch =? chr_FF then [u8 chr_f]
     else
       let hi := chr_0 + Z.shiftr ch 4 in
       let ch := Z.land ch 0xF in
       [u8 chr_u; u8 chr_0; u8 chr_0; u8 hi;
        u8 (if ch <? 10 then chr_0 + ch else chr_A + ch - 10)])
  else
    (if (ch =? chr_backslash) || (ch =? chr_quote) then [u8 chr_backslash] else [])
    ++ [u8 ch].

(** The second loop of [json_escape]. *)
Fixpoint json_escape_write (src : list byte) (out : list byte) : list byte :=
  match src with
  | [] => out
  | b :: rest => json_escape_write rest (out ++ json_escape_byte (byte_val b))
  end.

(** [json_escape (dst, src, len)]: the returned [uintptr_t] and the
    bytes stored into [dst]. *)
Definition json_escape (dst : option Z) (src : list byte) : Z * list byte :=
  match dst with
  | None => (json_escape_size src 0, [])
  | Some a =>
      let out := json_escape_write src [] in
      (a + Z.of_nat (length out), out)
  end.

Definition JSON_ERR_UNESCAPE : Z := 2 ^ 64 - 1.

(** The local variables of [json_unescape]. *)
Record unescape_state : Type := mk_unescape {
  u_d : option Z;
  u_mem : list byte;
  u_s : Z;
  u_sz : Z;
  u_escape : bool
}.

(** [sz++; if (d != NULL) *d++ = v;] *)
Definition unescape_emit (v : Z) (x : unescape_state) : unescape_state :=
  mk_unescape
    (if negb (is_null (u_d x)) then ptr_add (u_d x) 1 else u_d x)
    (if negb (is_null (u_d x)) then u_mem x ++ [u8 v] else u_mem x)
    (u_s x) (u_sz x + 1) (u_escape x).

(** The [for (codepoint = 0, i = 1; i < 5; i++)] loop over the four
    digits after the [u]; [None] when a digit is not in [0-9A-F]. *)
Fixpoint unescape_hex (src : list byte) (s : Z) (n : nat) (i : Z) (codepoint : Z) : option Z :=
  match n with
  | O => Some codepoint
  | S n' =>
      let ch := deref src (s + i) in
      if (chr_0 <=? ch) && (ch <=? chr_9)
      then unescape_hex src s n' (i + 1) (Z.lor (u32 (Z.shiftl codepoint 4)) (ch - chr_0))
      else if (chr_A <=? ch) && (ch <=? chr_F)
      then unescape_hex src s n' (i + 1) (Z.lor (u32 (Z.shiftl codepoint 4)) (ch - chr_A + 10))
      else None
  end.

(** The body of the [for] loop of [json_unescape], without the final
    [s++]; [None] is [return JSON_ERR_UNESCAPE]. *)
Definition unescape_turn (src : list byte) (x : unescape_state) : option unescape_state :=
  let len := Z.of_nat (length src) in
  let ch := deref src (u_s x) in
  let clear x := mk_unescape (u_d x) (u_mem x) (u_s x) (u_sz x) false in
  if u_escape x then
    if ch =? chr_backslash then Some (clear (unescape_emit chr_backslash x))
    else if ch =? chr_quote then Some (clear (unescape_emit chr_quote x))
    else if ch =? chr_n then Some (clear (unescape_emit chr_LF x))
    else if ch =? chr_r then Some (clear (unescape_emit chr_CR x))
    else if ch =? chr_t then Some (clear (unescape_emit chr_TAB x))
    else if ch =? chr_b then Some (clear (unescape_emit chr_BS x))
    else if ch =? chr_f then Some (clear (unescape_emit chr_FF x))
    else if ch =? chr_u then
      if len <=? u_s x + 5 then None
      else
        match unescape_hex src (u_s x) 4 1 0 with
        | None => None
        | Some codepoint =>
            if 0x1F <? codepoint then None
            else
              let x := mk_unescape (u_d x) (u_mem x) (u_s x + 4) (u_sz x) (u_escape x) in
              Some (clear (unescape_emit codepoint x))
        end
    else None
  else if ch =? chr_backslash then
    Some (mk_unescape (u_d x) (u_mem x) (u_s x) (u_sz x) true)
  else Some (unescape_emit ch x).

(** [for (s = src; s < end; s++) { body }] and what follows it. *)
Fixpoint unescape_loop (fuel : nat) (src : list byte) (x : unescape_state)
    : option (Z * list byte) :=
  match fuel with
  | O => None
  | S fuel' =>
      if u_s x <? Z.of_nat (length src) then
        match unescape_turn src x with
        | None => Some (JSON_ERR_UNESCAPE, u_mem x)
        | Some x =>
            unescape_loop fuel' src
              (mk_unescape (u_d x) (u_mem x) (u_s x + 1) (u_sz x) (u_escape x))
        end
      else if u_escape x then Some (JSON_ERR_UNESCAPE, u_mem x)
      else Some (if negb (is_null (u_d x)) then uintptr (u_d x) else u_sz x, u_mem x)
  end.

(** [json_unescape (dst, src, len)]: the returned [uintptr_t] and the
    bytes stored into [dst].  [s] grows at every turn, so [len] turns
    and one more test are enough. *)
Definition json_unescape (dst : option Z) (src : list byte) : option (Z * list byte) :=
  unescape_loop (length src + 1) src (mk_unescape dst [] 0 0 false).


(** ** The transcoder as a function of the input list

    The loops above move two cursors over [src] and may step [s] back.
    For the proofs they are characterised by functions that read the
    input once, from left to right, and carry the scanner state with
    the bytes of the pending region ([pos] up to [s], exclusive).
    Theorems [xtf8_encode_stream] and [xtf8_decode_stream] show that
    the loops compute exactly these functions; the properties of the
    codec are stated on [xtf8_encode] and [xtf8_decode]. *)

Definition in_pua (cp : Z) : bool :=
  (XTF8_PUA_START <=? cp) && (cp <=? XTF8_PUA_END).

(** The bytes [store3] appends for a given [codepoint]. *)
Definition utf8_3 (cp : Z) : list byte :=
  [u8 (Z.lor (Z.land (Z.shiftr cp 12) 0x0F) 0xE0);
   u8 (Z.lor (Z.land (Z.shiftr cp 6) 0x3F) 0x80);
   u8 (Z.lor (Z.land cp 0x3F) 0x80)].

(** The code an undecodable byte is mapped to, and its three bytes. *)
Definition pua_code (b : byte) : Z := Z.lor 0xEF80 (Z.land (byte_val b) 0x7F).
Definition pua_map (b : byte) : list byte := utf8_3 (pua_code b).

(** The byte a reserved codepoint decodes to. *)
Definition pua_unmap (cp : Z) : byte := u8 (Z.lor (Z.land cp 0x7F) 0x80).

Definition replacement : list byte := utf8_3 0xFFFD.

(** What reading one byte does: abort the call; append [o] and go on
    with a new scanner state and pending region; or append [o] and read
    the same byte again from [UTF8_ACCEPT] with nothing pending. *)
Inductive emit : Type :=
| E_abort
| E_out (o : list byte) (st cp : Z) (pend : list byte)
| E_retry (o : list byte).

Definition enc_byte (error : Z) (st cp : Z) (pend : list byte) (b : byte) : emit :=
  let '(st', cp') := utf8_decode st cp (byte_val b) in
  if st' =? UTF8_ACCEPT then
    if in_pua cp' then
      if error =? XTF8_ERR_ABORT then E_abort
      else E_out replacement UTF8_ACCEPT 0 []
    else E_out (pend ++ [b]) UTF8_ACCEPT 0 []
  else if st' =? UTF8_REJECT then
    if st =? UTF8_ACCEPT then E_out (concat (map pua_map (pend ++ [b]))) UTF8_ACCEPT 0 []
    else E_retry (concat (map pua_map pend))
  else E_out [] st' cp' (pend ++ [b]).

Definition dec_byte (error : Z) (st cp : Z) (pend : list byte) (b : byte) : emit :=
  let '(st', cp') := utf8_decode st cp (byte_val b) in
  if st' =? UTF8_ACCEPT then
    if in_pua cp' then E_out [pua_unmap cp'] UTF8_ACCEPT 0 []
    else E_out (pend ++ [b]) UTF8_ACCEPT 0 []
  else if st' =? UTF8_REJECT then
    if error =? XTF8_ERR_ABORT then E_abort
    else if st =? UTF8_ACCEPT then E_out replacement UTF8_ACCEPT 0 []
    else E_retry replacement
  else E_out [] st' cp' (pend ++ [b]).

(** The result of reading a whole input: the bytes produced, and
    whether the call was aborted after them. *)
Inductive stream_result : Type :=
| S_aborted (o : list byte)
| S_done (o : list byte).

Definition s_bytes (r : stream_result) : list byte :=
  match r with S_aborted o => o | S_done o => o end.

Definition s_push (o : list byte) (r : stream_result) : stream_result :=
  match r with
  | S_aborted o' => S_aborted (o ++ o')
  | S_done o' => S_done (o ++ o')
  end.

(** Reading the input [rest] with [f] for one byte.  Bytes still
    pending at the end of the input produce nothing. *)
Fixpoint stream (f : Z -> Z -> list byte -> byte -> emit)
    (st cp : Z) (pend rest : list byte) : stream_result :=
  match rest with
  | [] => S_done []
  | b :: rest' =>
      match f st cp pend b with
      | E_abort => S_aborted []
      | E_out o st' cp' pend' => s_push o (stream f st' cp' pend' rest')
      | E_retry o =>
          s_push o
            match f UTF8_ACCEPT 0 [] b with
            | E_abort => S_aborted []
            | E_out o' st' cp' pend' => s_push o' (stream f st' cp' pend' rest')
            | E_retry o' => s_push o' (stream f UTF8_ACCEPT 0 [] rest')
            end
      end
  end.

(** The destination after [o] was produced: nothing is stored in the
    sizing pass. *)
Definition visible (dst : option Z) (o : list byte) : list byte :=
  if is_null dst then [] else o.

(** What the C function returns for a stream result. *)
Definition view (dst : option Z) (r : stream_result) : outcome :=
  match r with
  | S_aborted o => Returned XTF8_ABORTED (visible dst o)
  | S_done o =>
      Returned (match dst with
                | Some a => a + Z.of_nat (length o)
                | None => Z.of_nat (length o)
                end) (visible dst o)
  end.

(** All byte values, for checks by enumeration. *)
Definition byte_values : list Z := map Z.of_nat (seq 0 256).

(** The codes of the reserved range, for checks by enumeration. *)
Definition pua_values : list Z := map (fun k => XTF8_PUA_START + Z.of_nat k) (seq 0 128).

(** The scanner's state alone, which does not depend on [codep]. *)
Definition utf8_next (st byte : Z) : Z := utf8d_at (256 + st + utf8d_at byte).

Definition scan_state (st : Z) (l : list byte) : Z :=
  fold_left (fun st b => utf8_next st (byte_val b)) l st.

(** The states of the automaton. *)
Definition utf8_states : list Z := [0; 12; 24; 36; 48; 60; 72; 84; 96].

Definition non_ascii (b : byte) : Prop := 0x80 <= byte_val b.

(** The pending region [pend] is consistent with the scanner state. *)
Definition pending_ok (st : Z) (pend : list byte) : Prop :=
  scan_state UTF8_ACCEPT pend = st /\
  st <> UTF8_REJECT /\
  (st = UTF8_ACCEPT -> pend = []) /\
  Forall non_ascii pend.

(** What the encoder maintains about its output, and the decoder
    (nothing). *)
Definition valid_out (M : list byte) : Prop := is_utf8 M = true.

Definition any_out (M : list byte) : Prop := True.

(** The loop state [x], at the loop's head, stands for the stream state
    [(st, cp, pend)] with [M] produced so far and [rest] still to read. *)
Definition rel (good : list byte -> Prop) (dst : option Z) (src : list byte)
    (x : xtf8_state) (st cp : Z) (pend M rest : list byte) : Prop :=
  s_prev x = st /\ s_cur x = st /\
  (st <> UTF8_ACCEPT -> codepoint x = cp) /\
  d x = ptr_add dst (Z.of_nat (length M)) /\
  mem x = visible dst M /\
  sz x = Z.of_nat (length M) /\
  (exists done, src = done ++ pend ++ rest /\
     pos x = Z.of_nat (length done) /\
     s x = Z.of_nat (length done) + Z.of_nat (length pend)) /\
  pending_ok st pend /\ good M.

(** The scanner, started in [st], stays between two characters at every
    byte of [t]: [t] is the beginning of a character that has not ended. *)
Fixpoint pending_run (st : Z) (t : list byte) : bool :=
  match t with
  | [] => true
  | b :: t' =>
      let st' := utf8_next st (byte_val b) in
      negb (st' =? UTF8_ACCEPT) && negb (st' =? UTF8_REJECT) && pending_run st' t'
  end.

(** A truncated multi-byte sequence (or nothing at all). *)
Definition truncated (t : list byte) : bool := pending_run UTF8_ACCEPT t.

(** Decoding the chunk [o] from between two characters gives [D] and
    ends between two characters. *)
Definition dec_clean (e : Z) (o D : list byte) : Prop :=
  forall rest,
    stream (dec_byte e) UTF8_ACCEPT 0 [] (o ++ rest)
    = s_push D (stream (dec_byte e) UTF8_ACCEPT 0 [] rest).

(** The decoder that has read [pend] is in the state [(st, c, pend)]. *)
Definition dec_tracks (e st c : Z) (pend : list byte) : Prop :=
  forall rest,
    stream (dec_byte e) UTF8_ACCEPT 0 [] (pend ++ rest)
    = stream (dec_byte e) st c pend rest.

(** What relates the encoder's state to a decoder of its input. *)
Definition enc_dec_inv (e st c : Z) (pend : list byte) : Prop :=
  pending_ok st pend /\ pending_run UTF8_ACCEPT pend = true /\ dec_tracks e st c pend.

(** ** [json_unescape] as a function of the input list

    As for the transcoder, the loop of [json_unescape] is characterised
    by a function that reads the input from left to right (lemma
    [json_unescape_list]).  [S_aborted] stands for the return of
    [JSON_ERR_UNESCAPE]. *)

(** The four digits after the [u]. *)
Fixpoint hex_list (l : list byte) (codepoint : Z) : option Z :=
  match l with
  | [] => Some codepoint
  | h :: l' =>
      let ch := byte_val h in
      if (chr_0 <=? ch) && (ch <=? chr_9)
      then hex_list l' (Z.lor (u32 (Z.shiftl codepoint 4)) (ch - chr_0))
      else if (chr_A <=? ch) && (ch <=? chr_F)
      then hex_list l' (Z.lor (u32 (Z.shiftl codepoint 4)) (ch - chr_A + 10))
      else None
  end.

(** The byte a two-character escape stands for. *)
Definition short_escape (ch : Z) : option Z :=
  if ch =? chr_backslash then Some chr_backslash
  else if ch =? chr_quote then Some chr_quote
  else if ch =? chr_n then Some chr_LF
  else if ch =? chr_r then Some chr_CR
  else if ch =? chr_t then Some chr_TAB
  else if ch =? chr_b then Some chr_BS
  else if ch =? chr_f then Some chr_FF
  else None.

Fixpoint unescape_list (l : list byte) : stream_result :=
  match l with
  | [] => S_done []
  | c :: l1 =>
      if byte_val c =? chr_backslash then
        match l1 with
        | [] => S_aborted []
        | e :: l2 =>
            match short_escape (byte_val e) with
            | Some v => s_push [u8 v] (unescape_list l2)
            | None =>
                if byte_val e =? chr_u then
                  match l2 with
                  | h1 :: h2 :: h3 :: h4 :: l3 =>
                      match l3 with
                      | [] => S_aborted []
                      | _ :: _ =>
                          match hex_list [h1; h2; h3; h4] 0 with
                          | Some codepoint =>
                              if 0x1F <? codepoint then S_aborted []
                              else s_push [u8 codepoint] (unescape_list l3)
                          | None => S_aborted []
                          end
                      end
                  | _ => S_aborted []
                  end
                else S_aborted []
            end
        end
      else s_push [c] (unescape_list l1)
  end.

(** What [json_unescape] returns for a result of [unescape_list]. *)
Definition json_view (dst : option Z) (r : stream_result) : Z * list byte :=
  match r with
  | S_aborted o => (JSON_ERR_UNESCAPE, visible dst o)
  | S_done o =>
      (match dst with
       | Some a => a + Z.of_nat (length o)
       | None => Z.of_nat (length o)
       end, visible dst o)
  end.

(** The escaped form of a buffer. *)
Definition json_escaped (B : list byte) : list byte :=
  concat (map (fun b => json_escape_byte (byte_val b)) B).

(** A control byte that is escaped in the six-character form. *)
Definition long_escaped (b : byte) : bool :=
  (byte_val b <=? 0x1F) && negb (is_named_control (byte_val b)).

(** The buffer ends in a byte that is escaped in the six-character
    form. *)
Fixpoint ends_in_long_escape (B : list byte) : bool :=
  match B with
  | [] => false
  | b :: B' =>
      match B' with
      | [] => long_escaped b
      | _ :: _ => ends_in_long_escape B'
      end
  end.

(** ** Further definitions for the properties of the transcoder *)

(** An ASCII byte. *)
Definition is_ascii (b : byte) : bool := byte_val b <? 0x80.

(** The destination, with room for three bytes for each byte of the
    input, lies below the address [(uintptr_t)-1]: no pointer into it
    and no size of an output is mistaken for [XTF8_ABORTED]. *)
Definition fits (dst : option Z) (src : list byte) : Prop :=
  0 <= uintptr dst /\ uintptr dst + 3 * Z.of_nat (length src) < XTF8_ABORTED.

(** One byte of [stream], with the second reading after a retry
    folded in. *)
Inductive step_result : Type :=
| Step_abort (o : list byte)
| Step_go (o : list byte) (st cp : Z) (pend : list byte).

Definition stream_step (f : Z -> Z -> list byte -> byte -> emit)
    (st cp : Z) (pend : list byte) (b : byte) : step_result :=
  match f st cp pend b with
  | E_abort => Step_abort []
  | E_out o st' cp' pend' => Step_go o st' cp' pend'
  | E_retry o =>
      match f UTF8_ACCEPT 0 [] b with
      | E_abort => Step_abort o
      | E_out o' st' cp' pend' => Step_go (o ++ o') st' cp' pend'
      | E_retry o' => Step_go (o ++ o') UTF8_ACCEPT 0 []
      end
  end.

(** Whether the stream was aborted. *)
Definition aborted (r : stream_result) : bool :=
  match r with S_aborted _ => true | S_done _ => false end.

(** The scanner is between two characters and has not rejected. *)
Definition is_pending (st : Z) : bool :=
  negb (st =? UTF8_ACCEPT) && negb (st =? UTF8_REJECT).

(** What the scanner has after two bytes read from [UTF8_ACCEPT]: a
    character of two bytes is none of the reserved range; when both
    bytes left the scanner between two characters, either one byte is
    missing of a three-byte character, whose lead byte is 0xEE when the
    codepoint is to be a reserved one, or two bytes are missing of a
    four-byte character. *)
Definition pair_check (z1 z2 : Z) : bool :=
  let '(s1, c1) := utf8_decode UTF8_ACCEPT 0 z1 in
  let '(s2, c2) := utf8_decode s1 c1 z2 in
  implb (s2 =? UTF8_ACCEPT) (negb (in_pua c2)) &&
  implb (is_pending s1 && is_pending s2)
    (((s2 =? 24) && (0 <=? c2) && (c2 <? 0x400) &&
      implb ((c2 =? 0x3BE) || (c2 =? 0x3BF))
            ((z1 =? 0xEE) && (z2 =? Z.lor 0x80 (Z.land c2 0x3F))))
     || ((s2 =? 36) && (0x10 <=? c2) && (c2 <? 0x1000))).

(** The last byte of a reserved codepoint, after 0xEE and the second
    byte. *)
Definition last_check (c2 z3 : Z) : bool :=
  let '(s3, c3) := utf8_decode 24 c2 z3 in
  implb ((s3 =? UTF8_ACCEPT) && in_pua c3)
    (match utf8_3 c3 with
     | [a1; a2; a3] =>
         (byte_val a1 =? 0xEE) && (byte_val a2 =? Z.lor 0x80 (Z.land c2 0x3F))
         && (byte_val a3 =? z3)
     | _ => false
     end).

(** The stream state [(st, cp, pend)] is what the scanner has after
    reading the pending bytes from [UTF8_ACCEPT], none of which ended a
    character. *)
Definition scanned (st cp : Z) (pend : list byte) : Prop :=
  pending_ok st pend /\
  pending_run UTF8_ACCEPT pend = true /\
  (pend <> [] -> utf8_scan UTF8_ACCEPT 0 pend = (st, cp)).

(** The stream [r], followed by [k] when [r] was not aborted. *)
Definition s_then (r k : stream_result) : stream_result :=
  match r with
  | S_aborted o => S_aborted o
  | S_done o => s_push o k
  end.

(** ** Well-formed UTF-8

    The byte sequences of Table 3-7 of the Unicode Standard
    (Well-Formed UTF-8 Byte Sequences), row by row, as a reference for
    what [is_utf8] accepts.  This definition is the standard's, not the
    program's. *)

Definition in_range (lo hi : Z) (b : byte) : bool :=
  (lo <=? byte_val b) && (byte_val b <=? hi).

Fixpoint well_formed_utf8 (l : list byte) : bool :=
  match l with
  | [] => true
  | b1 :: l1 =>
      if in_range 0x00 0x7F b1 then well_formed_utf8 l1 else
      match l1 with
      | [] => false
      | b2 :: l2 =>
          if in_range 0xC2 0xDF b1 then
            in_range 0x80 0xBF b2 && well_formed_utf8 l2 else
          match l2 with
          | [] => false
          | b3 :: l3 =>
              if in_range 0xE0 0xE0 b1 then
                in_range 0xA0 0xBF b2 && in_range 0x80 0xBF b3 && well_formed_utf8 l3 else
              if in_range 0xE1 0xEC b1 then
                in_range 0x80 0xBF b2 && in_range 0x80 0xBF b3 && well_formed_utf8 l3 else
              if in_range 0xED 0xED b1 then
                in_range 0x80 0x9F b2 && in_range 0x80 0xBF b3 && well_formed_utf8 l3 else
              if in_range 0xEE 0xEF b1 then
                in_range 0x80 0xBF b2 && in_range 0x80 0xBF b3 && well_formed_utf8 l3 else
              match l3 with
              | [] => false
              | b4 :: l4 =>
                  if in_range 0xF0 0xF0 b1 then
                    in_range 0x90 0xBF b2 && in_range 0x80 0xBF b3
                    && in_range 0x80 0xBF b4 && well_formed_utf8 l4 else
                  if in_range 0xF1 0xF3 b1 then
                    in_range 0x80 0xBF b2 && in_range 0x80 0xBF b3
                    && in_range 0x80 0xBF b4 && well_formed_utf8 l4 else
                  if in_range 0xF4 0xF4 b1 then
                    in_range 0x80 0x8F b2 && in_range 0x80 0xBF b3
                    && in_range 0x80 0xBF b4 && well_formed_utf8 l4
                  else false
              end
          end
      end
  end.

(** What is well-formed after a lead byte that has taken the scanner to
    the state [st]: the rest of the character, then well-formed
    text. *)
Definition well_formed_from (st : Z) (l : list byte) : bool :=
  if st =? 0 then well_formed_utf8 l
  else
    match l with
    | [] => false
    | b2 :: l2 =>
        if st =? 24 then in_range 0x80 0xBF b2 && well_formed_utf8 l2 else
        match l2 with
        | [] => false
        | b3 :: l3 =>
            if st =? 48 then
              in_range 0xA0 0xBF b2 && in_range 0x80 0xBF b3 && well_formed_utf8 l3 else
            if st =? 36 then
              in_range 0x80 0xBF b2 && in_range 0x80 0xBF b3 && well_formed_utf8 l3 else
            if st =? 60 then
              in_range 0x80 0x9F b2 && in_range 0x80 0xBF b3 && well_formed_utf8 l3 else
            match l3 with
            | [] => false
            | b4 :: l4 =>
                if st =? 72 then
                  in_range 0x90 0xBF b2 && in_range 0x80 0xBF b3
                  && in_range 0x80 0xBF b4 && well_formed_utf8 l4 else
                if st =? 84 then
                  in_range 0x80 0xBF b2 && in_range 0x80 0xBF b3
                  && in_range 0x80 0xBF b4 && well_formed_utf8 l4 else
                if st =? 96 then
                  in_range 0x80 0x8F b2 && in_range 0x80 0xBF b3
                  && in_range 0x80 0xBF b4 && well_formed_utf8 l4
                else false
            end
        end
    end.

(** The bytes that continue a character in the state [st], as a range,
    and the state they lead to. *)
Definition continuation (st : Z) : Z * Z * Z :=
  if st =? 24 then (0x80, 0xBF, 0)
  else if st =? 36 then (0x80, 0xBF, 24)
  else if st =? 48 then (0xA0, 0xBF, 24)
  else if st =? 60 then (0x80, 0x9F, 24)
  else if st =? 72 then (0x90, 0xBF, 36)
  else if st =? 84 then (0x80, 0xBF, 36)
  else if st =? 96 then (0x80, 0x8F, 36)
  else (1, 0, 12).

(** ** The command-line tool: [hexdump]

    Text is kept as lists of bytes.  The conversions of [printf] that
    the tool uses are written out; [isprint] is that of the C locale,
    in which the tool runs (it does not call [setlocale]). *)

Definition isprint (c : Z) : bool := (0x20 <=? c) && (c <=? 0x7E).

(** One digit of [%x]. *)
Definition hex_digit (d : Z) : byte :=
  u8 (if d <? 10 then chr_0 + d else 0x61 + (d - 10)).

(** The digits of [n] for [%x], most significant first; [fuel] is the
    number of digits the type can have. *)
Fixpoint hex_digits (fuel : nat) (n : Z) : list byte :=
  match fuel with
  | O => []
  | S fuel' =>
      (if n / 16 =? 0 then [] else hex_digits fuel' (n / 16)) ++ [hex_digit (n mod 16)]
  end.

(** The flag [0] with a field width. *)
Definition zero_pad (width : nat) (digits : list byte) : list byte :=
  repeat x30 (width - length digits) ++ digits.

(** [%02x] of an [unsigned int] and [%08zx] of a [size_t] of 64 bits. *)
Definition fmt_02x (v : Z) : list byte := zero_pad 2 (hex_digits 8 v).
Definition fmt_08zx (n : Z) : list byte := zero_pad 8 (hex_digits 16 n).

(** [%-49.49s]: at most 49 characters of the string, then spaces up to
    49 characters. *)
Definition fmt_s_49 (str : list byte) : list byte :=
  firstn 49 str ++ repeat x20 (49 - length (firstn 49 str)).

(** [sprintf] at the end of the string [str] that a buffer of [size]
    bytes holds: the text [a] and the terminating NUL are stored after
    it.  [None] when that would write past the buffer. *)
Definition sprintf_at (size : Z) (str a : list byte) : option (list byte) :=
  if Z.of_nat (length str) + Z.of_nat (length a) + 1 <=? size
  then Some (str ++ a)
  else None.

(** The static buffers [hex] and [text], as the strings they hold, with
    [off] and the text written to [fp]. *)
Record hexdump_state : Type := mk_hexdump {
  hd_hex : list byte;
  hd_text : list byte;
  hd_off : Z;
  hd_out : list byte
}.

Definition sizeof_hex : Z := 16 * 3 + 2.
Definition sizeof_text : Z := 16 + 1.

(** The body of the [for] loop of [hexdump] at the index [i], with
    [b = p[i]]. *)
Definition hexdump_turn (b : byte) (i len : Z) (x : hexdump_state) : option hexdump_state :=
  let x := if i mod 16 =? 0 then mk_hexdump [] [] (hd_off x) (hd_out x) else x in
  match sprintf_at sizeof_hex (hd_hex x)
          (fmt_02x (byte_val b) ++ [x20] ++ (if i mod 16 =? 7 then [x20] else [])) with
  | None => None
  | Some hex =>
      match sprintf_at sizeof_text (hd_text x)
              [if isprint (byte_val b) then b else x2e] with
      | None => None
      | Some text =>
          if (i mod 16 =? 15) || (i + 1 =? len)
          then Some (mk_hexdump hex text (i + 1)
                       (hd_out x ++ fmt_08zx (hd_off x) ++ [x20; x20] ++ fmt_s_49 hex
                        ++ [x20; x7c] ++ text ++ [x7c; x0a]))
          else Some (mk_hexdump hex text (hd_off x) (hd_out x))
      end
  end.

(** [for (off = 0, i = 0; i < len; i++)], over the bytes from [p + i]. *)
Fixpoint hexdump_loop (p : list byte) (i len : Z) (x : hexdump_state)
    : option hexdump_state :=
  match p with
  | [] => Some x
  | b :: p' =>
      match hexdump_turn b i len x with
      | None => None
      | Some x' => hexdump_loop p' (i + 1) len x'
      end
  end.

(** [hexdump (fp, data, len)]: the text written to [fp] after [out],
    and the static buffers as the call leaves them.  [hex0] and [text0]
    are what the static buffers hold from an earlier call. *)
Definition hexdump (hex0 text0 : list byte) (out : list byte) (data : list byte)
    : option (list byte * list byte * list byte) :=
  let len := Z.of_nat (length data) in
  match hexdump_loop data 0 len (mk_hexdump hex0 text0 0 out) with
  | None => None
  | Some x => Some (hd_out x ++ fmt_08zx len ++ [x0a], hd_hex x, hd_text x)
  end.

(** *** The text of a dump, line by line *)

(** The columns of one line, for the bytes [chunk] of the line from
    the position [k] on: two digits and a space for each byte, one
    more space after the eighth; the bytes themselves, with a full
    stop for what is not printable. *)
Fixpoint hex_column (k : Z) (chunk : list byte) : list byte :=
  match chunk with
  | [] => []
  | b :: chunk' =>
      (fmt_02x (byte_val b) ++ [x20] ++ (if k =? 7 then [x20] else []))
      ++ hex_column (k + 1) chunk'
  end.

Definition text_column (chunk : list byte) : list byte :=
  map (fun b => if isprint (byte_val b) then b else x2e) chunk.

(** One line: the offset in eight digits, two spaces, the hex column
    filled up to 49 characters, a space, and the text between bars. *)
Definition dump_line (off : Z) (chunk : list byte) : list byte :=
  fmt_08zx off ++ [x20; x20]
  ++ (hex_column 0 chunk ++ repeat x20 (49 - length (hex_column 0 chunk)))
  ++ [x20; x7c] ++ text_column chunk ++ [x7c; x0a].

(** A line for every sixteen bytes, and one for what is left. *)
Fixpoint dump_lines (fuel : nat) (off : Z) (data : list byte) : list byte :=
  match fuel with
  | O => []
  | S fuel' =>
      match data with
      | [] => []
      | _ :: _ =>
          dump_line off (firstn 16 data) ++ dump_lines fuel' (off + 16) (skipn 16 data)
      end
  end.

(** ** The command-line tool: files

    The streams of [stdio] are modelled by what the tool can see of
    them.  An input stream holds the bytes still to come; reading past
    them sets the end-of-file indicator, or the error indicator when
    the stream is [in_broken].  An output stream is modelled by its
    destination: the bytes that have reached it and the number of bytes
    it still takes ([None]: no limit).  Nothing is kept in a buffer of
    [stdio]: [fwrite] reports a short count as soon as the destination
    is full, and [fflush] has nothing to do.  On a stream with a buffer
    [fwrite] can report the full count for bytes that the destination
    refuses when they are flushed; the bytes that the destination holds
    when the stream is closed are the same.  The tool does not look at
    the counts: [main] drops the value of [write_file].  [write_file]
    itself is modelled over any stream, whatever its [fwrite] reports. *)

Record in_stream : Type := mk_in {
  in_bytes : list byte;
  in_broken : bool;
  in_eof : bool;
  in_error : bool
}.

Record out_stream : Type := mk_out {
  out_bytes : list byte;
  out_room : option nat
}.

(** [fread (ptr, 1, n, fp)]: the bytes stored at [ptr], whose number is
    the return value, and the stream after the call. *)
Definition fread (n : nat) (fp : in_stream) : list byte * in_stream :=
  if (n <=? length (in_bytes fp))%nat
  then (firstn n (in_bytes fp),
        mk_in (skipn n (in_bytes fp)) (in_broken fp) (in_eof fp) (in_error fp))
  else (in_bytes fp,
        mk_in [] (in_broken fp)
          (if in_broken fp then in_eof fp else true)
          (if in_broken fp then true else in_error fp)).

(** [fwrite (ptr, 1, length data, fp)] with [data] the bytes at [ptr],
    on a stream without a buffer: the return value and the stream after
    the call. *)
Definition fwrite (data : list byte) (fp : out_stream) : nat * out_stream :=
  match out_room fp with
  | None => (length data, mk_out (out_bytes fp ++ data) None)
  | Some room =>
      if (length data <=? room)%nat
      then (length data, mk_out (out_bytes fp ++ data) (Some (room - length data)%nat))
      else (room, mk_out (out_bytes fp ++ firstn room data) (Some O))
  end.

(** [fflush (fp)] on a stream without a buffer. *)
Definition fflush (fp : out_stream) : out_stream := fp.

(** What the tool needs of the allocator: whether [calloc (1, size)]
    succeeds, and the address it returns then. *)
Record allocator : Type := mk_allocator {
  calloc_ok : Z -> bool;
  calloc_addr : Z -> Z
}.

Definition block_size : Z := 1024.

(** The result of [read_file]: the buffer with [*size], or [NULL]. *)
Inductive read_result : Type :=
| Read_buffer (buf : list byte) (size : Z)
| Read_null.

(** The [do ... while (!feof (fp))] loop of [read_file] and what
    follows it.  [buf] is [None] for [NULL], else the bytes of the
    allocated block.  [None] as a result: the call of [fread] has no
    room for [block_size] bytes at [buf + sz] (or [fuel] is used up). *)
Fixpoint read_loop (m : allocator) (fuel : nat) (fp : in_stream)
    (buf : option (list byte)) (buf_size sz : Z) : option (read_result * in_stream) :=
  match fuel with
  | O => None
  | S fuel' =>
      let grown :=
        if buf_size <? sz + block_size then
          let tmp_size := if buf_size =? 0 then block_size else buf_size * 2 in
          if calloc_ok m tmp_size then
            let tmp := repeat x00 (Z.to_nat tmp_size) in
            (* memcpy (tmp, buf, buf_size) *)
            let tmp :=
              match buf with
              | Some old => old ++ skipn (length old) tmp
              | None => tmp
              end in
            Some (Some tmp, tmp_size)
          else None
        else Some (buf, buf_size) in
      match grown with
      | None => Some (Read_null, fp)
      | Some (buf, buf_size) =>
          match buf with
          | None => None
          | Some bytes =>
              if buf_size <? sz + block_size then None
              else
                let '(data, fp) := fread (Z.to_nat block_size) fp in
                let n := Z.of_nat (length data) in
                let bytes :=
                  firstn (Z.to_nat sz) bytes ++ data ++ skipn (Z.to_nat (sz + n)) bytes in
                let sz := sz + n in
                if negb (n =? block_size) then
                  if in_eof fp then Some (Read_buffer bytes sz, fp)
                  else Some (Read_null, fp)
                else if negb (in_eof fp)
                     then read_loop m fuel' fp (Some bytes) buf_size sz
                     else Some (Read_buffer bytes sz, fp)
          end
      end
  end.

(** [read_file (fp, &size)].  Every turn but the last takes
    [block_size] bytes from the stream. *)
Definition read_file (m : allocator) (fp : in_stream) : option (read_result * in_stream) :=
  read_loop m (length (in_bytes fp) / Z.to_nat block_size + 2) fp None 0 0.

(** [write_file] is modelled over any stream.  [fwrite data fp] stands
    for [fwrite (ptr, 1, length data, fp)] with [data] the bytes at
    [ptr]: the count it returns and the stream after the call; [fflush]
    gives the stream after [fflush (fp)]. *)
Section Write_file.

Variable stream : Type.
Variable fwrite : list byte -> stream -> nat * stream.
Variable fflush : stream -> stream.

(** The [while (len > 0)] loop of [write_file] and what follows it:
    the return value and the stream. *)
Fixpoint write_loop (fuel : nat) (d : list byte) (n len : Z) (fp : stream)
    : option (Z * stream) :=
  match fuel with
  | O => None
  | S fuel' =>
      if 0 <? len then
        let sz := if block_size <? len then block_size else len in
        let '(nw, fp) := fwrite (firstn (Z.to_nat sz) (skipn (Z.to_nat n) d)) fp in
        if negb (Z.of_nat nw =? sz) then Some (-1, fp)
        else write_loop fuel' d (n + Z.of_nat nw) (len - Z.of_nat nw) fp
      else Some (0, fflush fp)
  end.

(** [write_file (fp, data, len)]. *)
Definition write_file (fp : stream) (data : list byte) : option (Z * stream) :=
  write_loop (length data + 1) data 0 (Z.of_nat (length data)) fp.

(** *** What [write_file] is to do *)

(** The blocks are given to [fwrite] one after the other.  The first
    count that is not the length of its block ends the call with -1;
    after the last block the stream is flushed and the value is 0. *)
Fixpoint hand_over (blocks : list (list byte)) (fp : stream) : Z * stream :=
  match blocks with
  | [] => (0, fflush fp)
  | block :: blocks' =>
      let '(nw, fp) := fwrite block fp in
      if (nw =? length block)%nat then hand_over blocks' fp else (-1, fp)
  end.

End Write_file.

Arguments write_loop {stream} fwrite fflush fuel d n len fp.
Arguments write_file {stream} fwrite fflush fp data.
Arguments hand_over {stream} fwrite fflush blocks fp.

(** The data cut into blocks of 1024 bytes, and one for what is left. *)
Fixpoint blocks_of (fuel : nat) (data : list byte) : list (list byte) :=
  match fuel with
  | O => []
  | S fuel' =>
      match data with
      | [] => []
      | _ :: _ => firstn 1024 data :: blocks_of fuel' (skipn 1024 data)
      end
  end.

(** ** The command-line tool: [main]

    The model begins where [getopt] and [fopen] have been done: a run
    is given its options, the input stream, the standard output and the
    stream of the file named with [-o], which [fopen] has emptied.
    Runs with [-D] are left out: they write more to [stderr], and
    [stderr] is not modelled. *)

Record options : Type := mk_options {
  opt_decode : bool;   (* -d *)
  opt_escape : bool;   (* -j, only in the tool with the JSON helpers *)
  opt_hex : bool       (* -x *)
}.

(** How a run ends: with an exit status, the standard output and the
    file of [-o]; or at a failed assertion. *)
Inductive run : Type :=
| Exit (status : Z) (stdout : out_stream) (outfile : option out_stream)
| Abort.

(** A step of [main]: the run goes on with a value, or it has ended, or
    it is stuck (a store past a buffer, or a model out of fuel). *)
Inductive step (A : Type) : Type :=
| Go (a : A)
| Done (r : run)
| Stuck.

Arguments Go {A} a.
Arguments Done {A} r.
Arguments Stuck {A}.

Definition bind {A B : Type} (x : step A) (k : A -> step B) : step B :=
  match x with
  | Go a => k a
  | Done r => Done r
  | Stuck => Stuck
  end.

Notation "x <- e ;; k" := (bind e (fun x => k))
  (at level 61, e at next level, right associativity).

(** A block of [size] zero bytes from [calloc] after a pass has stored
    [w] at its start; [None] when [w] does not fit. *)
Definition buffer_after (size : Z) (w : list byte) : option (list byte) :=
  if Z.of_nat (length w) <=? size
  then Some (w ++ repeat x00 (Z.to_nat size - length w))
  else None.

(** [fprintf (fp, ...)] with the text it prints. *)
Definition fputs (text : list byte) (fp : out_stream) : out_stream :=
  snd (fwrite text fp).

Section Main.

Variable m : allocator.
Variable opts : options.
Variable stdout : out_stream.
Variable outfile : option out_stream.

(** [err (1, ...)] and [errx (1, ...)]: nothing has been written to the
    outputs when they are called. *)
Definition exit_failure {A : Type} : step A := Done (Exit 1 stdout outfile).

(** [p = calloc (1, size); if (p == NULL) err (1, ...);] *)
Definition calloc_step (size : Z) : step Z :=
  if calloc_ok m size then Go (calloc_addr m size) else exit_failure.

Definition stored (size : Z) (w : list byte) : step (list byte) :=
  match buffer_after size w with
  | Some buf => Go buf
  | None => Stuck
  end.

(** The block [if (escape && decode)]: the input is replaced by its
    unescaped form. *)
Definition unescape_input (input : list byte) : step (list byte) :=
  match json_unescape None input with
  | None => Stuck
  | Some (jlen, _) =>
      if jlen =? JSON_ERR_UNESCAPE then exit_failure
      else
        jbuf <- calloc_step jlen ;;
        match json_unescape (Some jbuf) input with
        | None => Stuck
        | Some (_, w) => stored jlen w
        end
  end.

(** The sizing pass, the assertion, the allocation and the writing
    pass. *)
Definition transcode (input : list byte) : step (list byte) :=
  match f_xtf8 (opt_decode opts) None input XTF8_ERR_REPLACE with
  | Some (Returned outlen _) =>
      if outlen =? XTF8_ABORTED then Done Abort
      else
        output <- calloc_step outlen ;;
        match f_xtf8 (opt_decode opts) (Some output) input XTF8_ERR_REPLACE with
        | Some (Returned _ w) => stored outlen w
        | Some (Assert_failed _) => Done Abort
        | None => Stuck
        end
  | Some (Assert_failed _) => Done Abort
  | None => Stuck
  end.

(** The block [if (escape && !decode)]: the output is replaced by its
    escaped form. *)
Definition escape_output (output : list byte) : step (list byte) :=
  let jlen := fst (json_escape None output) in
  jbuf <- calloc_step jlen ;;
  stored jlen (snd (json_escape (Some jbuf) output)).

(** The last statements: the dump goes to the standard output, the
    plain output to the file of [-o] when there is one; the value of
    [write_file] is not looked at. *)
Definition write_output (hex0 text0 : list byte) (output : list byte) : step run :=
  if opt_hex opts then
    match hexdump hex0 text0 [] output with
    | None => Stuck
    | Some (text, _, _) => Done (Exit 0 (fputs text stdout) outfile)
    end
  else
    match outfile with
    | Some fp =>
        match write_file fwrite fflush fp output with
        | None => Stuck
        | Some (_, fp') => Done (Exit 0 stdout (Some fp'))
        end
    | None =>
        match write_file fwrite fflush stdout output with
        | None => Stuck
        | Some (_, fp') => Done (Exit 0 fp' None)
        end
    end.

(** [main], from the call of [read_file] on.  [hex0] and [text0] are
    the static buffers of [hexdump]. *)
Definition main_steps (infp : in_stream) (hex0 text0 : list byte) : step run :=
  match read_file m infp with
  | None => Stuck
  | Some (Read_null, _) => exit_failure
  | Some (Read_buffer buf inlen, _) =>
      if inlen =? 0 then exit_failure
      else
        input <- (if opt_escape opts && opt_decode opts
                  then unescape_input (firstn (Z.to_nat inlen) buf)
                  else Go (firstn (Z.to_nat inlen) buf)) ;;
        output <- transcode input ;;
        output <- (if opt_escape opts && negb (opt_decode opts)
                   then escape_output output
                   else Go output) ;;
        write_output hex0 text0 output
  end.

Definition main_body (infp : in_stream) (hex0 text0 : list byte) : option run :=
  match main_steps infp hex0 text0 with
  | Go r => Some r
  | Done r => Some r
  | Stuck => None
  end.

End Main.

(** ** The Lua bindings

    [xtf8_lua.c] is the binding for the C API of Lua and [xtf8.lua] the
    one for the FFI of LuaJIT.  Both run the sizing pass, get a buffer
    for the output, run the writing pass and make a Lua string of the
    first [outlen] bytes of the buffer.  A buffer is given by its
    address and by the bytes it holds when the binding gets it. *)

Record buffer : Type := mk_buffer {
  buf_addr : Z;
  buf_bytes : list byte
}.

(** A pass that stores [w] at the start of a buffer; [None] when [w]
    does not fit. *)
Definition store_at (buf : buffer) (w : list byte) : option buffer :=
  if (length w <=? length (buf_bytes buf))%nat
  then Some (mk_buffer (buf_addr buf) (w ++ skipn (length w) (buf_bytes buf)))
  else None.

(** [lua_pushlstring (L, p, n)] and [ffi.string (buf, n)]: the first
    [n] bytes; [None] when the buffer is shorter. *)
Definition lstring (buf : buffer) (n : Z) : option (list byte) :=
  if n <=? Z.of_nat (length (buf_bytes buf))
  then Some (firstn (Z.to_nat n) (buf_bytes buf))
  else None.

(** The messages of the bindings. *)
Definition found_invalid_sequence : String.string := "found invalid sequence"%string.
Definition out_of_memory : String.string := "out of memory"%string.

(** What [l_helper] needs of its environment: [LUAL_BUFFERSIZE] and
    the area of this size that [luaL_prepbuffer] returns; whether
    [malloc (size)] succeeds and the block it returns then. *)
Record lua_host : Type := mk_lua_host {
  LUAL_BUFFERSIZE : Z;
  luaL_prepbuffer : buffer;
  malloc_ok : Z -> bool;
  malloc : Z -> buffer
}.

(** How a call of [l_helper] ends: it returns one value, the string
    [s]; or [luaL_error] raises the error [msg]; or an assertion of the
    transcoder fails. *)
Inductive lua_result : Type :=
| Lua_return (s : list byte)
| Lua_error (msg : String.string)
| Lua_abort.

(** [luaL_optinteger (L, 2, def)]: the second argument as a
    [lua_Integer] when it is given, [def] when it is not. *)
Definition luaL_optinteger (arg : option Z) (def : Z) : Z :=
  match arg with Some v => v | None => def end.

(** The conversion of a [lua_Integer] to an [int] of 32 bits in
    [int err = luaL_optinteger (...)]: the value modulo 2^32, as the
    compilers in use define it. *)
Definition to_int (v : Z) : Z := (v + 2 ^ 31) mod 2 ^ 32 - 2 ^ 31.

(** [l_helper (L, is_encode)] with the string [data] as the first
    argument and [err], when it is given, as the second. *)
Definition l_helper (h : lua_host) (is_encode : bool) (data : list byte) (err : option Z)
    : option lua_result :=
  let f_xtf8 := if is_encode then xtf8_encode else xtf8_decode in
  let err := to_int (luaL_optinteger err XTF8_ERR_REPLACE) in
  match f_xtf8 None data err with
  | Some (Returned outlen _) =>
      if outlen =? XTF8_ABORTED then Some (Lua_error found_invalid_sequence)
      else if outlen <=? LUAL_BUFFERSIZE h then
        let p := luaL_prepbuffer h in
        match f_xtf8 (Some (buf_addr p)) data err with
        | Some (Returned _ w) =>
            match store_at p w with
            | Some p =>
                match lstring p outlen with
                | Some s => Some (Lua_return s)
                | None => None
                end
            | None => None
            end
        | Some (Assert_failed _) => Some Lua_abort
        | None => None
        end
      else if malloc_ok h outlen then
        let p := malloc h outlen in
        match f_xtf8 (Some (buf_addr p)) data err with
        | Some (Returned _ w) =>
            match store_at p w with
            | Some p =>
                match lstring p outlen with
                | Some s => Some (Lua_return s)
                | None => None
                end
            | None => None
            end
        | Some (Assert_failed _) => Some Lua_abort
        | None => None
        end
      else Some (Lua_error out_of_memory)
  | Some (Assert_failed _) => Some Lua_abort
  | None => None
  end.

Definition l_encode (h : lua_host) : list byte -> option Z -> option lua_result :=
  l_helper h true.

Definition l_decode (h : lua_host) : list byte -> option Z -> option lua_result :=
  l_helper h false.

(** The FFI binding keeps one buffer of [_buf_size] bytes for all
    calls: [_buf] is [None] until the first call that needs it.
    [ffi_new] gives the address of a new array of a given size; its
    bytes are zero. *)
Definition _buf_size : Z := 4096.

Record ffi_state : Type := mk_ffi_state {
  _buf : option buffer;
  ffi_new : Z -> Z
}.

Definition new_array (st : ffi_state) (size : Z) : buffer :=
  mk_buffer (ffi_new st size) (repeat x00 (Z.to_nat size)).

(** [get_buffer (size)]: the buffer, whether it is the shared one, and
    the state after the call. *)
Definition get_buffer (st : ffi_state) (size : Z) : buffer * bool * ffi_state :=
  if _buf_size <? size then (new_array st size, false, st)
  else
    match _buf st with
    | None =>
        let b := new_array st _buf_size in
        (b, true, mk_ffi_state (Some b) (ffi_new st))
    | Some b => (b, true, st)
    end.

(** What a function of the FFI binding returns: the string, or [nil]
    and a message. *)
Inductive ffi_result : Type :=
| Ffi_string (s : list byte)
| Ffi_nil (msg : String.string)
| Ffi_abort.

(** [xtf8_encode (data, err)] and [xtf8_decode (data, err)] of
    [xtf8.lua], which differ in the C function they call.  A writing
    pass into the shared buffer changes [_buf]. *)
Definition ffi_xtf8 (decode : bool) (st : ffi_state) (data : list byte) (err : option Z)
    : option (ffi_result * ffi_state) :=
  let err := match err with Some e => e | None => XTF8_ERR_REPLACE end in
  match f_xtf8 decode None data err with
  | Some (Returned len _) =>
      if len =? XTF8_ABORTED then Some (Ffi_nil found_invalid_sequence, st)
      else
        let '(buf, shared, st) := get_buffer st len in
        match f_xtf8 decode (Some (buf_addr buf)) data err with
        | Some (Returned _ w) =>
            match store_at buf w with
            | Some buf =>
                let st := if shared then mk_ffi_state (Some buf) (ffi_new st) else st in
                match lstring buf len with
                | Some s => Some (Ffi_string s, st)
                | None => None
                end
            | None => None
            end
        | Some (Assert_failed _) => Some (Ffi_abort, st)
        | None => None
        end
  | Some (Assert_failed _) => Some (Ffi_abort, st)
  | None => None
  end.

(** What the FFI binding keeps between two calls: the shared buffer,
    once it is there, has [_buf_size] bytes. *)
Definition ffi_ok (st : ffi_state) : Prop :=
  match _buf st with
  | None => True
  | Some b => length (buf_bytes b) = Z.to_nat _buf_size
  end.

(** The policy of a call: [XTF8_ERR_REPLACE] when none is given. *)
Definition policy (err : option Z) : Z :=
  match err with Some e => e | None => XTF8_ERR_REPLACE end.

(** ** Definitions for the proofs about the tool *)

(** The length of the hex column up to the position [k]. *)
Definition hex_width (k : Z) : Z := 3 * k + (if 8 <=? k then 1 else 0).

(** What the loop of [read_file] keeps: the buffer holds the bytes read
    so far, and it is [NULL] only before the first turn. *)
Definition read_inv (buf : option (list byte)) (buf_size sz : Z) (consumed : list byte)
    : Prop :=
  sz = Z.of_nat (length consumed) /\
  match buf with
  | None => buf_size = 0 /\ consumed = []
  | Some bytes =>
      Z.of_nat (length bytes) = buf_size /\ block_size <= buf_size /\ sz <= buf_size /\
      firstn (length consumed) bytes = consumed
  end.

(** The bytes that an output stream takes of [data]. *)
Definition taken (fp : out_stream) (data : list byte) : list byte :=
  match out_room fp with
  | None => data
  | Some room => firstn room data
  end.

(** * Properties *)

(** ** Bytes and enumeration *)

Lemma byte_val_range (b : byte) : 0 <= byte_val b < 256.
Proof.
  unfold byte_val. pose proof (Byte.to_N_bounded b). lia.
Qed.

Lemma u8_byte_val (b : byte) : u8 (byte_val b) = b.
Proof. destruct b; reflexivity. Qed.

Lemma byte_values_complete (z : Z) : 0 <= z < 256 -> In z byte_values.
Proof.
  intros H. unfold byte_values.
  replace z with (Z.of_nat (Z.to_nat z)) by lia.
  apply in_map, in_seq. lia.
Qed.

(** A boolean property checked on all 256 values holds of every byte. *)
Lemma forall_bytes (P : Z -> bool) :
  forallb P byte_values = true -> forall b, P (byte_val b) = true.
Proof.
  intros H b. rewrite forallb_forall in H.
  apply H, byte_values_complete, byte_val_range.
Qed.

Lemma forall_states_bytes (P : Z -> Z -> bool) :
  forallb (fun st => forallb (P st) byte_values) utf8_states = true ->
  forall st b, In st utf8_states -> P st (byte_val b) = true.
Proof.
  intros H st b Hst. rewrite forallb_forall in H.
  apply (forall_bytes (P st)), H, Hst.
Qed.

(** ** The scanner *)

Lemma utf8_decode_state (st c b : Z) : fst (utf8_decode st c b) = utf8_next st b.
Proof. reflexivity. Qed.

(** In [UTF8_ACCEPT] the scanner does not read [*codep]. *)
Lemma utf8_decode_accept (c b : Z) :
  utf8_decode UTF8_ACCEPT c b = utf8_decode UTF8_ACCEPT 0 b.
Proof. reflexivity. Qed.

Lemma utf8_scan_state (l : list byte) :
  forall st c, fst (utf8_scan st c l) = scan_state st l.
Proof.
  induction l as [|b l IH]; intros st c; [reflexivity|].
  cbn [utf8_scan scan_state fold_left].
  destruct (utf8_decode st c (byte_val b)) as [st' c'] eqn:E.
  rewrite IH. unfold scan_state. f_equal.
  rewrite <- (utf8_decode_state st c), E. reflexivity.
Qed.

Lemma scan_state_app (l1 l2 : list byte) (st : Z) :
  scan_state st (l1 ++ l2) = scan_state (scan_state st l1) l2.
Proof. unfold scan_state. apply fold_left_app. Qed.

Lemma is_utf8_scan (l : list byte) :
  is_utf8 l = true <-> scan_state UTF8_ACCEPT l = UTF8_ACCEPT.
Proof.
  unfold is_utf8. rewrite utf8_scan_state. apply Z.eqb_eq.
Qed.

Lemma is_utf8_app (l1 l2 : list byte) :
  is_utf8 l1 = true -> is_utf8 l2 = true -> is_utf8 (l1 ++ l2) = true.
Proof.
  rewrite !is_utf8_scan, scan_state_app. intros -> H. exact H.
Qed.

(** [UTF8_REJECT] is never left. *)
Lemma utf8_next_reject (b : byte) : utf8_next UTF8_REJECT (byte_val b) = UTF8_REJECT.
Proof.
  apply Z.eqb_eq.
  apply (forall_bytes (fun z => utf8_next UTF8_REJECT z =? UTF8_REJECT)).
  vm_compute. reflexivity.
Qed.

Lemma scan_state_reject (l : list byte) : scan_state UTF8_REJECT l = UTF8_REJECT.
Proof.
  induction l as [|b l IH]; [reflexivity|].
  unfold scan_state in *. cbn [fold_left]. rewrite utf8_next_reject. exact IH.
Qed.

Lemma utf8_next_states (st : Z) (b : byte) :
  In st utf8_states -> In (utf8_next st (byte_val b)) utf8_states.
Proof.
  intros H.
  pose proof (forall_states_bytes
    (fun st z => existsb (Z.eqb (utf8_next st z)) utf8_states)) as A.
  specialize (A ltac:(vm_compute; reflexivity) st b H).
  apply existsb_exists in A. destruct A as [y [Hy E]].
  apply Z.eqb_eq in E. rewrite E. exact Hy.
Qed.

Lemma scan_state_states (l : list byte) :
  forall st, In st utf8_states -> In (scan_state st l) utf8_states.
Proof.
  induction l as [|b l IH]; intros st H; [exact H|].
  unfold scan_state in *. cbn [fold_left]. apply IH, utf8_next_states, H.
Qed.

Lemma accept_is_state : In UTF8_ACCEPT utf8_states.
Proof. left. reflexivity. Qed.

(** Only bytes from 0x80 keep the scanner between two characters. *)
Lemma utf8_next_pending_non_ascii (st : Z) (b : byte) :
  In st utf8_states ->
  utf8_next st (byte_val b) <> UTF8_ACCEPT ->
  utf8_next st (byte_val b) <> UTF8_REJECT ->
  non_ascii b.
Proof.
  intros H Ha Hr.
  pose proof (forall_states_bytes
    (fun st z => (utf8_next st z =? UTF8_ACCEPT) || (utf8_next st z =? UTF8_REJECT)
                 || (0x80 <=? z))) as A.
  specialize (A ltac:(vm_compute; reflexivity) st b H).
  apply orb_true_iff in A. destruct A as [A|A].
  - apply orb_true_iff in A. destruct A as [A|A]; apply Z.eqb_eq in A; contradiction.
  - apply Z.leb_le in A. exact A.
Qed.

(** A byte rejected at the start of a character is not ASCII. *)
Lemma utf8_next_reject_non_ascii (b : byte) :
  utf8_next UTF8_ACCEPT (byte_val b) = UTF8_REJECT -> non_ascii b.
Proof.
  intros H.
  pose proof (forall_bytes
    (fun z => negb (utf8_next UTF8_ACCEPT z =? UTF8_REJECT) || (0x80 <=? z))
    ltac:(vm_compute; reflexivity) b) as A.
  cbv beta in A. rewrite H in A. apply Z.leb_le in A. exact A.
Qed.

(** ** The pieces of the output are valid UTF-8 *)

Lemma is_utf8_replacement : is_utf8 replacement = true.
Proof. vm_compute. reflexivity. Qed.

Lemma is_utf8_pua_map (b : byte) : is_utf8 (pua_map b) = true.
Proof.
  apply (forall_bytes (fun z => is_utf8 (utf8_3 (Z.lor 0xEF80 (Z.land z 0x7F))))).
  vm_compute. reflexivity.
Qed.

Lemma is_utf8_pua_maps (l : list byte) : is_utf8 (concat (map pua_map l)) = true.
Proof.
  induction l as [|b l IH]; [reflexivity|].
  cbn [map concat]. apply is_utf8_app; [apply is_utf8_pua_map | exact IH].
Qed.

Lemma pending_ok_nil : pending_ok UTF8_ACCEPT [].
Proof.
  unfold pending_ok. repeat split; auto. discriminate.
Qed.

Lemma pending_ok_state (st : Z) (pend : list byte) :
  pending_ok st pend -> In st utf8_states.
Proof.
  intros [H _]. rewrite <- H. apply scan_state_states, accept_is_state.
Qed.

(** The bytes of a character that the scanner has just accepted. *)
Lemma is_utf8_accepted (st : Z) (pend : list byte) (b : byte) :
  pending_ok st pend ->
  utf8_next st (byte_val b) = UTF8_ACCEPT ->
  is_utf8 (pend ++ [b]) = true.
Proof.
  intros [H _] Hb. apply is_utf8_scan.
  rewrite scan_state_app, H. exact Hb.
Qed.

Lemma pending_ok_more (st : Z) (pend : list byte) (b : byte) :
  pending_ok st pend ->
  utf8_next st (byte_val b) <> UTF8_ACCEPT ->
  utf8_next st (byte_val b) <> UTF8_REJECT ->
  pending_ok (utf8_next st (byte_val b)) (pend ++ [b]).
Proof.
  intros P Ha Hr. pose proof (pending_ok_state _ _ P) as Hst.
  destruct P as (H1 & H2 & H3 & H4).
  unfold pending_ok. repeat split.
  - rewrite scan_state_app, H1. reflexivity.
  - exact Hr.
  - intros E. contradiction.
  - apply Forall_app. split; [exact H4|].
    constructor; [|constructor].
    apply (utf8_next_pending_non_ascii st); assumption.
Qed.

(** ** One byte of the stream *)

(** The cases of [enc_byte] and [dec_byte], by the scanner's new state. *)
Ltac emit_cases st cp b :=
  let st' := fresh "st'" in
  let cp' := fresh "cp'" in
  let E := fresh "E" in
  let Est := fresh "Est" in
  let Ha := fresh "Ha" in
  let Hr := fresh "Hr" in
  destruct (utf8_decode st cp (byte_val b)) as [st' cp'] eqn:E;
  assert (Est : st' = utf8_next st (byte_val b))
    by (rewrite <- (utf8_decode_state st cp), E; reflexivity);
  destruct (st' =? UTF8_ACCEPT) eqn:Ha;
  [ apply Z.eqb_eq in Ha
  | apply Z.eqb_neq in Ha;
    destruct (st' =? UTF8_REJECT) eqn:Hr;
    [ apply Z.eqb_eq in Hr | apply Z.eqb_neq in Hr ] ].

Lemma enc_byte_out (e st cp : Z) (pend : list byte) (b : byte)
    (o : list byte) (st' cp' : Z) (pend' : list byte) :
  pending_ok st pend ->
  enc_byte e st cp pend b = E_out o st' cp' pend' ->
  is_utf8 o = true /\ pending_ok st' pend'.
Proof.
  intros P. unfold enc_byte. emit_cases st cp b.
  - destruct (in_pua cp'0).
    + destruct (e =? XTF8_ERR_ABORT); [discriminate|].
      intros [= <- <- <- <-]. split; [apply is_utf8_replacement | apply pending_ok_nil].
    + intros [= <- <- <- <-]. split; [|apply pending_ok_nil].
      apply (is_utf8_accepted st); [exact P | congruence].
  - destruct (st =? UTF8_ACCEPT); [|discriminate].
    intros [= <- <- <- <-]. split; [apply is_utf8_pua_maps | apply pending_ok_nil].
  - intros [= <- <- <- <-]. split; [reflexivity|].
    rewrite Est. apply pending_ok_more; congruence.
Qed.

Lemma enc_byte_retry (e st cp : Z) (pend : list byte) (b : byte) (o : list byte) :
  enc_byte e st cp pend b = E_retry o ->
  is_utf8 o = true /\ st <> UTF8_ACCEPT.
Proof.
  unfold enc_byte. emit_cases st cp b.
  - destruct (in_pua cp'); [destruct (e =? XTF8_ERR_ABORT)|]; discriminate.
  - destruct (st =? UTF8_ACCEPT) eqn:Hs; [discriminate|].
    intros [= <-]. split; [apply is_utf8_pua_maps | apply Z.eqb_neq, Hs].
  - discriminate.
Qed.

Lemma dec_byte_out (e st cp : Z) (pend : list byte) (b : byte)
    (o : list byte) (st' cp' : Z) (pend' : list byte) :
  pending_ok st pend ->
  dec_byte e st cp pend b = E_out o st' cp' pend' ->
  pending_ok st' pend'.
Proof.
  intros P. unfold dec_byte. emit_cases st cp b.
  - destruct (in_pua cp'0); intros [= <- <- <- <-]; apply pending_ok_nil.
  - destruct (e =? XTF8_ERR_ABORT); [discriminate|].
    destruct (st =? UTF8_ACCEPT); [|discriminate].
    intros [= <- <- <- <-]. apply pending_ok_nil.
  - intros [= <- <- <- <-]. rewrite Est. apply pending_ok_more; congruence.
Qed.

Lemma dec_byte_retry (e st cp : Z) (pend : list byte) (b : byte) (o : list byte) :
  dec_byte e st cp pend b = E_retry o -> st <> UTF8_ACCEPT.
Proof.
  unfold dec_byte. emit_cases st cp b.
  - destruct (in_pua cp'); discriminate.
  - destruct (e =? XTF8_ERR_ABORT); [discriminate|].
    destruct (st =? UTF8_ACCEPT) eqn:Hs; [discriminate|].
    intros _. apply Z.eqb_neq, Hs.
  - discriminate.
Qed.

(** ** The loop computes the stream *)

Lemma s_push_push (M o : list byte) (r : stream_result) :
  s_push M (s_push o r) = s_push (M ++ o) r.
Proof. destruct r; cbn; rewrite app_assoc; reflexivity. Qed.

Lemma s_push_aborted (M : list byte) : s_push M (S_aborted []) = S_aborted M.
Proof. cbn. rewrite app_nil_r. reflexivity. Qed.

Lemma s_push_done (M : list byte) : s_push M (S_done []) = S_done M.
Proof. cbn. rewrite app_nil_r. reflexivity. Qed.

Lemma s_bytes_push (o : list byte) (r : stream_result) :
  s_bytes (s_push o r) = o ++ s_bytes r.
Proof. destruct r; reflexivity. Qed.

Lemma s_push_nil (r : stream_result) : s_push [] r = r.
Proof. destruct r; reflexivity. Qed.

Lemma s_push_done_inv (o O : list byte) (r : stream_result) :
  s_push o r = S_done O -> exists O', r = S_done O' /\ O = o ++ O'.
Proof.
  destruct r as [o'|o']; cbn [s_push]; [discriminate|].
  intros [= <-]. eauto.
Qed.

Lemma rel_more good dst src x st cp pend M rest :
  rel good dst src x st cp pend M rest ->
  (s x <? Z.of_nat (length src)) = negb (Nat.eqb (length rest) 0).
Proof.
  intros (_ & _ & _ & _ & _ & _ & (done & Hsrc & _ & Hs) & _).
  rewrite Hsrc, !length_app, Hs.
  destruct rest; cbn [length Nat.eqb negb].
  - apply Z.ltb_ge. lia.
  - apply Z.ltb_lt. lia.
Qed.

Section Refinement.

Variable good : list byte -> Prop.
Variable dst : option Z.
Variable src : list byte.
Variable body : xtf8_state -> turn.
Variable finish : xtf8_state -> outcome.
Variable f : Z -> Z -> list byte -> byte -> emit.

Hypothesis body_abort : forall x st cp pend M b rest,
  rel good dst src x st cp pend M (b :: rest) ->
  f st cp pend b = E_abort ->
  body x = Stop (Returned XTF8_ABORTED (visible dst M)).

Hypothesis body_out : forall x st cp pend M b rest o st' cp' pend',
  rel good dst src x st cp pend M (b :: rest) ->
  f st cp pend b = E_out o st' cp' pend' ->
  exists x', body x = Next x' /\ rel good dst src x' st' cp' pend' (M ++ o) rest.

Hypothesis body_retry : forall x st cp pend M b rest o,
  rel good dst src x st cp pend M (b :: rest) ->
  f st cp pend b = E_retry o ->
  exists x', body x = Next x' /\
             rel good dst src x' UTF8_ACCEPT 0 [] (M ++ o) (b :: rest).

Hypothesis fresh_no_retry : forall c b o, f UTF8_ACCEPT c [] b <> E_retry o.

Hypothesis finish_done : forall x st cp pend M,
  rel good dst src x st cp pend M [] ->
  finish x = view dst (S_done M).

Lemma loop_stream (rest : list byte) :
  forall x st cp pend M fuel,
    rel good dst src x st cp pend M rest ->
    (2 * length rest + 1 <= fuel)%nat ->
    xtf8_loop body finish (Z.of_nat (length src)) fuel x
    = Some (view dst (s_push M (stream f st cp pend rest))).
Proof.
  induction rest as [|b rest' IH]; intros x st cp pend M fuel R Hf.
  - destruct fuel as [|fuel]; [cbn in Hf; lia|].
    cbn [xtf8_loop stream]. rewrite (rel_more _ _ _ _ _ _ _ _ _ R).
    cbn [length Nat.eqb negb]. rewrite s_push_done.
    f_equal. eapply finish_done, R.
  - destruct fuel as [|fuel]; [cbn in Hf; lia|].
    cbn [xtf8_loop stream]. rewrite (rel_more _ _ _ _ _ _ _ _ _ R).
    cbn [length Nat.eqb negb].
    destruct (f st cp pend b) as [|o st' cp' pend'|o] eqn:Ef.
    + rewrite (body_abort _ _ _ _ _ _ _ R Ef), s_push_aborted. reflexivity.
    + destruct (body_out _ _ _ _ _ _ _ _ _ _ _ R Ef) as (x' & -> & R').
      rewrite s_push_push. apply IH; [exact R'|]. cbn [length] in Hf. lia.
    + destruct (body_retry _ _ _ _ _ _ _ _ R Ef) as (x' & -> & R').
      destruct fuel as [|fuel]; [cbn [length] in Hf; lia|].
      cbn [xtf8_loop]. rewrite (rel_more _ _ _ _ _ _ _ _ _ R').
      cbn [length Nat.eqb negb]. rewrite s_push_push.
      destruct (f UTF8_ACCEPT 0 [] b) as [|o2 st2 cp2 pend2|o2] eqn:Ef2.
      * rewrite (body_abort _ _ _ _ _ _ _ R' Ef2), s_push_aborted. reflexivity.
      * destruct (body_out _ _ _ _ _ _ _ _ _ _ _ R' Ef2) as (x2 & -> & R2).
        rewrite s_push_push. apply IH; [exact R2|]. cbn [length] in Hf. lia.
      * exfalso. exact (fresh_no_retry _ _ _ Ef2).
Qed.

End Refinement.

(** ** The inner loops *)

Lemma deref_middle (done pend rest : list byte) (b : byte) :
  deref (done ++ pend ++ b :: rest)
        (Z.of_nat (length done) + Z.of_nat (length pend)) = byte_val b.
Proof.
  unfold deref. f_equal.
  replace (Z.to_nat (Z.of_nat (length done) + Z.of_nat (length pend)))
    with (length (done ++ pend)) by (rewrite length_app; lia).
  rewrite app_assoc. apply nth_middle.
Qed.

Lemma deref_app_r (A B : list byte) (z : Z) :
  0 <= z -> deref (A ++ B) (Z.of_nat (length A) + z) = deref B z.
Proof.
  intros Hz. unfold deref. f_equal.
  rewrite app_nth2 by lia. f_equal. lia.
Qed.

Lemma ptr_add_0 (p : option Z) : ptr_add p 0 = p.
Proof. destruct p; cbn; [f_equal; lia | reflexivity]. Qed.

Lemma ptr_add_add (p : option Z) (n m : Z) :
  ptr_add (ptr_add p n) m = ptr_add p (n + m).
Proof. destruct p; cbn; [f_equal; lia | reflexivity]. Qed.

Ltac st_simpl :=
  cbn [s_prev s_cur codepoint d mem s pos sz
       set_s_prev set_s_cur set_codepoint set_s set_pos set_sz store store3
       length app] in *.

Lemma copy_loop_spec (src : list byte) (l : list byte) :
  forall done rest x,
    src = done ++ l ++ rest ->
    pos x = Z.of_nat (length done) ->
    s x = Z.of_nat (length done) + Z.of_nat (length l) - 1 ->
    copy_loop (length l) src x
    = mk_state (s_prev x) (s_cur x) (codepoint x)
               (ptr_add (d x) (Z.of_nat (length l))) (mem x ++ l)
               (s x) (pos x + Z.of_nat (length l)) (sz x).
Proof.
  induction l as [|a l IH]; intros done rest x Hsrc Hpos Hs.
  - destruct x. cbn [copy_loop length]. st_simpl.
    change (Z.of_nat 0) with 0. rewrite ptr_add_0, app_nil_r, Z.add_0_r. reflexivity.
  - cbn [copy_loop length].
    replace (pos x <=? s x) with true by (symmetry; apply Z.leb_le; cbn [length] in Hs; lia).
    assert (Hd : deref src (pos x) = byte_val a).
    { rewrite Hsrc, Hpos.
      replace (Z.of_nat (length done)) with (Z.of_nat (length done) + Z.of_nat (length (@nil byte)))
        by (cbn; lia).
      rewrite <- (app_nil_l (a :: l ++ rest)) at 1.
      change ((a :: l) ++ rest) with ([] ++ a :: l ++ rest).
      apply deref_middle. }
    rewrite (IH (done ++ [a]) rest).
    + destruct x. st_simpl. rewrite Hd, u8_byte_val, ptr_add_add, <- app_assoc.
      st_simpl. f_equal; try lia. f_equal. lia.
    + rewrite Hsrc, <- app_assoc. reflexivity.
    + destruct x; st_simpl. rewrite length_app. st_simpl. lia.
    + destruct x; st_simpl. rewrite length_app. st_simpl. lia.
Qed.

Lemma deref_head (done rest : list byte) (a : byte) :
  deref (done ++ a :: rest) (Z.of_nat (length done)) = byte_val a.
Proof.
  pose proof (deref_middle done [] rest a) as H.
  cbn [app length] in H. change (Z.of_nat 0) with 0 in H.
  rewrite Z.add_0_r in H. exact H.
Qed.

Lemma pua_loop_spec (src : list byte) (l : list byte) :
  forall done rest x,
    src = done ++ l ++ rest ->
    pos x = Z.of_nat (length done) ->
    s x = Z.of_nat (length done) + Z.of_nat (length l) - 1 ->
    Forall non_ascii l ->
    exists c,
      pua_loop (length l) src x
      = Some (mk_state (s_prev x) (s_cur x) c
                (ptr_add (d x) (3 * Z.of_nat (length l)))
                (mem x ++ (if is_null (d x) then [] else concat (map pua_map l)))
                (s x) (pos x + Z.of_nat (length l)) (sz x + 3 * Z.of_nat (length l))).
Proof.
  induction l as [|a l IH]; intros done rest x Hsrc Hpos Hs Hl.
  - exists (codepoint x). destruct x. cbn [pua_loop length map concat]. st_simpl.
    change (Z.of_nat 0) with 0.
    rewrite Z.mul_0_r, ptr_add_0, !Z.add_0_r.
    destruct (is_null d0); rewrite app_nil_r; reflexivity.
  - cbn [pua_loop length].
    replace (pos x <=? s x) with true by (symmetry; apply Z.leb_le; cbn [length] in Hs; lia).
    assert (Hd : deref src (pos x) = byte_val a).
    { rewrite Hsrc, Hpos. apply deref_head. }
    rewrite Hd.
    inversion Hl as [|? ? Ha Hl']; subst.
    replace (0x80 <=? byte_val a) with true by (symmetry; apply Z.leb_le; exact Ha).
    destruct x as [sp sc c0 dd mm ss pp zz]. st_simpl.
    match goal with
    | |- context [pua_loop _ _ ?y] =>
        destruct (IH (done ++ [a]) rest y) as [c' Hc']
    end.
    + rewrite <- app_assoc. reflexivity.
    + destruct dd; cbn [is_null negb]; st_simpl; rewrite length_app; cbn [length]; lia.
    + destruct dd; cbn [is_null negb]; st_simpl; rewrite length_app; cbn [length]; lia.
    + exact Hl'.
    + exists c'. rewrite Hc'. rewrite Hd.
      destruct dd as [a0|]; cbn [is_null negb ptr_add option_map]; st_simpl;
        cbn [is_null negb ptr_add option_map map concat].
      * f_equal. f_equal; try lia.
        -- f_equal. lia.
        -- unfold pua_map, pua_code, utf8_3. rewrite <- !app_assoc. reflexivity.
      * f_equal. f_equal; lia.
Qed.

Lemma rel_decode good dst src x st cp pend M b rest :
  rel good dst src x st cp pend M (b :: rest) ->
  utf8_decode (s_cur x) (codepoint x) (deref src (s x))
  = utf8_decode st cp (byte_val b).
Proof.
  intros (_ & Hsc & Hcp & _ & _ & _ & (done & Hsrc & _ & Hs) & _).
  rewrite Hsc, Hs, Hsrc, deref_middle.
  destruct (Z.eq_dec st UTF8_ACCEPT) as [->|n].
  - rewrite utf8_decode_accept, (utf8_decode_accept cp). reflexivity.
  - rewrite Hcp by exact n. reflexivity.
Qed.

(** Building [rel] for the state after a turn. *)
Lemma rel_intro good dst src st cp pend M rest done sp sc c dd mm ss pp zz :
  sp = st -> sc = st -> (st <> UTF8_ACCEPT -> c = cp) ->
  dd = ptr_add dst (Z.of_nat (length M)) ->
  mm = visible dst M ->
  zz = Z.of_nat (length M) ->
  src = done ++ pend ++ rest ->
  pp = Z.of_nat (length done) ->
  ss = Z.of_nat (length done) + Z.of_nat (length pend) ->
  pending_ok st pend -> good M ->
  rel good dst src (mk_state sp sc c dd mm ss pp zz) st cp pend M rest.
Proof.
  intros. unfold rel. st_simpl.
  refine (conj _ (conj _ (conj _ (conj _ (conj _ (conj _
           (conj (ex_intro _ done (conj _ (conj _ _))) (conj _ _)))))))); assumption.
Qed.

Lemma length_utf8_3 (c : Z) : length (utf8_3 c) = 3%nat.
Proof. reflexivity. Qed.

Lemma length_replacement : length replacement = 3%nat.
Proof. reflexivity. Qed.

Lemma length_pua_maps (l : list byte) :
  length (concat (map pua_map l)) = (3 * length l)%nat.
Proof.
  induction l as [|a l IH]; [reflexivity|].
  cbn [map concat]. rewrite length_app, IH. cbn [length pua_map utf8_3]. lia.
Qed.

Ltac run_simpl :=
  cbn [ptr_add option_map is_null negb visible uintptr
       s_prev s_cur codepoint d mem s pos sz
       set_s_prev set_s_cur set_codepoint set_s set_pos set_sz store store3
       length app].

Ltac rel_after done' :=
  apply (rel_intro _ _ _ _ _ _ _ _ done');
  [ try assumption; try reflexivity
  | try assumption; try reflexivity
  | try congruence
  | cbn [ptr_add option_map]; rewrite ?length_app, ?length_pua_maps, ?length_replacement; st_simpl;
    try (f_equal; lia); try reflexivity
  | cbn [visible is_null]; rewrite ?app_nil_r, <- ?app_assoc; try reflexivity
  | rewrite ?length_app, ?length_pua_maps, ?length_replacement; st_simpl; try lia
  | try (subst; rewrite <- ?app_assoc; reflexivity)
  | rewrite ?length_app; st_simpl; try lia
  | rewrite ?length_app; st_simpl; try lia
  | try (subst; apply pending_ok_nil)
  | idtac ].

Lemma encode_turn_stream dst src e x st cp pend M b rest :
  rel valid_out dst src x st cp pend M (b :: rest) ->
  match enc_byte e st cp pend b with
  | E_abort => encode_turn src e x = Stop (Returned XTF8_ABORTED (visible dst M))
  | E_out o st' cp' pend' =>
      exists x', encode_turn src e x = Next x' /\
                 rel valid_out dst src x' st' cp' pend' (M ++ o) rest
  | E_retry o =>
      exists x', encode_turn src e x = Next x' /\
                 rel valid_out dst src x' UTF8_ACCEPT 0 [] (M ++ o) (b :: rest)
  end.
Proof.
  intros R. pose proof (rel_decode _ _ _ _ _ _ _ _ _ _ R) as Hdec.
  destruct R as (Hsp & Hsc & Hcp & Hd & Hm & Hz & (done & Hsrc & Hpos & Hs) & Hp & Hg).
  unfold encode_turn, enc_byte. rewrite Hdec. clear Hdec.
  destruct x as [sp sc c dd mm ss pp zz]. st_simpl. subst sp sc dd mm zz pp ss.
  emit_cases st cp b.
  - (* a character is complete *)
    destruct (in_pua cp') eqn:Hpua; unfold in_pua in Hpua; rewrite Hpua.
    + destruct (e =? XTF8_ERR_ABORT) eqn:He; [reflexivity|].
      destruct dst as [a|]; run_simpl; (eexists; split; [reflexivity|]);
        rel_after (done ++ pend ++ [b]).
      all: apply is_utf8_app; [exact Hg | apply is_utf8_replacement].
    + (* copied *)
      assert (Hn : Z.to_nat (Z.of_nat (length done) + Z.of_nat (length pend) + 1
                             - Z.of_nat (length done)) = length (pend ++ [b]))
        by (rewrite length_app; cbn [length]; lia).
      assert (Hv : is_utf8 (M ++ pend ++ [b]) = true).
      { apply is_utf8_app; [exact Hg|].
        apply (is_utf8_accepted st); [exact Hp | congruence]. }
      destruct dst as [a|]; run_simpl.
      * rewrite Hn, (copy_loop_spec src (pend ++ [b]) done rest);
          [| rewrite Hsrc, <- app_assoc; reflexivity
           | reflexivity
           | st_simpl; rewrite length_app; cbn [length]; lia ].
        st_simpl. eexists; split; [reflexivity|].
        rel_after (done ++ pend ++ [b]). exact Hv.
      * eexists; split; [reflexivity|].
        rel_after (done ++ pend ++ [b]). exact Hv.
  - (* an undecodable byte *)
    cbn [Z.eqb].
    destruct (st =? UTF8_ACCEPT) eqn:Hst; cbn [negb].
    + apply Z.eqb_eq in Hst.
      assert (Hpend : pend = []) by (apply Hp; exact Hst). subst pend.
      assert (Hb : Forall non_ascii [b]).
      { constructor; [|constructor].
        apply utf8_next_reject_non_ascii. congruence. }
      run_simpl.
      replace (Z.to_nat (Z.of_nat (length done) + Z.of_nat 0 + 1 - Z.of_nat (length done)))
        with (length [b]) by (cbn [length]; lia).
      match goal with
      | |- context [pua_loop _ _ ?y] =>
          destruct (pua_loop_spec src [b] done rest y) as [c' Hc'];
            [ exact Hsrc | reflexivity | run_simpl; lia | exact Hb | rewrite Hc'; clear Hc' ]
      end.
      destruct dst as [a|]; run_simpl; (eexists; split; [reflexivity|]);
        rel_after (done ++ [b]).
      all: try (apply is_utf8_app; [exact Hg | apply is_utf8_pua_maps]).
    + apply Z.eqb_neq in Hst.
      assert (Hb : Forall non_ascii pend) by apply Hp.
      run_simpl.
      replace (Z.to_nat (Z.of_nat (length done) + Z.of_nat (length pend) - 1 + 1
                         - Z.of_nat (length done)))
        with (length pend) by lia.
      match goal with
      | |- context [pua_loop _ _ ?y] =>
          destruct (pua_loop_spec src pend done (b :: rest) y) as [c' Hc'];
            [ exact Hsrc | reflexivity | run_simpl; lia | exact Hb | rewrite Hc'; clear Hc' ]
      end.
      destruct dst as [a|]; run_simpl; (eexists; split; [reflexivity|]);
        rel_after (done ++ pend).
      all: try (apply is_utf8_app; [exact Hg | apply is_utf8_pua_maps]).
      all: try apply pending_ok_nil.
  - (* more bytes to read *)
    assert (Hp' : pending_ok st' (pend ++ [b])).
    { rewrite Est. apply pending_ok_more; congruence. }
    destruct dst as [a|]; run_simpl; (eexists; split; [reflexivity|]);
      rel_after done.
    all: try exact Hp'.
    all: rewrite app_nil_r; exact Hg.
Qed.

Lemma encode_finish_stream dst src x st cp pend M :
  rel valid_out dst src x st cp pend M [] ->
  encode_finish dst x = view dst (S_done M).
Proof.
  intros (_ & _ & _ & Hd & Hm & Hz & _ & _ & Hg).
  unfold encode_finish. rewrite Hd, Hm, Hz.
  destruct dst as [a|]; cbn [ptr_add option_map is_null negb uintptr visible view].
  - rewrite Z.eqb_refl. cbn [negb].
    rewrite Nat2Z.id, firstn_all, Hg. reflexivity.
  - reflexivity.
Qed.

Lemma rel_init good dst src :
  good [] -> rel good dst src (init_state dst) UTF8_ACCEPT 0 [] [] src.
Proof.
  intros Hg. unfold init_state.
  apply (rel_intro _ _ _ _ _ _ _ _ []); try reflexivity.
  - cbn [length]. change (Z.of_nat 0) with 0. rewrite ptr_add_0. reflexivity.
  - destruct dst; reflexivity.
  - apply pending_ok_nil.
  - exact Hg.
Qed.

(** [xtf8_encode] computes the stream of [enc_byte]; in particular it
    returns, and none of its assertions fails. *)
Theorem xtf8_encode_stream (dst : option Z) (src : list byte) (e : Z) :
  xtf8_encode dst src e
  = Some (view dst (stream (enc_byte e) UTF8_ACCEPT 0 [] src)).
Proof.
  unfold xtf8_encode.
  rewrite <- (s_push_nil (stream _ _ _ _ _)).
  apply (loop_stream valid_out).
  - intros x st cp pend M b rest R Ef.
    pose proof (encode_turn_stream _ _ e _ _ _ _ _ _ _ R) as H.
    rewrite Ef in H. exact H.
  - intros x st cp pend M b rest o st' cp' pend' R Ef.
    pose proof (encode_turn_stream _ _ e _ _ _ _ _ _ _ R) as H.
    rewrite Ef in H. exact H.
  - intros x st cp pend M b rest o R Ef.
    pose proof (encode_turn_stream _ _ e _ _ _ _ _ _ _ R) as H.
    rewrite Ef in H. exact H.
  - intros c b o Ef. apply enc_byte_retry in Ef. destruct Ef as [_ Hn].
    apply Hn. reflexivity.
  - intros x st cp pend M R. eapply encode_finish_stream, R.
  - apply rel_init. reflexivity.
  - unfold xtf8_fuel. lia.
Qed.

(** ** The decoder *)

Lemma forall_pua (P : Z -> bool) :
  forallb P pua_values = true -> forall cp, in_pua cp = true -> P cp = true.
Proof.
  intros H cp Hcp. rewrite forallb_forall in H. apply H.
  unfold in_pua, XTF8_PUA_START, XTF8_PUA_END in Hcp.
  apply andb_true_iff in Hcp. destruct Hcp as [H1 H2].
  apply Z.leb_le in H1. apply Z.leb_le in H2.
  unfold pua_values, XTF8_PUA_START.
  replace cp with (0xEF80 + Z.of_nat (Z.to_nat (cp - 0xEF80))) by lia.
  apply (in_map (fun k => 0xEF80 + Z.of_nat k)), in_seq. lia.
Qed.

(** A reserved codepoint decodes to a byte from 0x80: the assertion of
    [xtf8_decode] holds. *)
Lemma pua_unmap_non_ascii (cp : Z) :
  in_pua cp = true -> non_ascii (pua_unmap cp).
Proof.
  intros H. apply Z.leb_le.
  apply (forall_pua (fun c => 0x80 <=? byte_val (pua_unmap c))); [|exact H].
  vm_compute. reflexivity.
Qed.

Lemma decode_turn_stream dst src e x st cp pend M b rest :
  rel any_out dst src x st cp pend M (b :: rest) ->
  match dec_byte e st cp pend b with
  | E_abort => decode_turn src e x = Stop (Returned XTF8_ABORTED (visible dst M))
  | E_out o st' cp' pend' =>
      exists x', decode_turn src e x = Next x' /\
                 rel any_out dst src x' st' cp' pend' (M ++ o) rest
  | E_retry o =>
      exists x', decode_turn src e x = Next x' /\
                 rel any_out dst src x' UTF8_ACCEPT 0 [] (M ++ o) (b :: rest)
  end.
Proof.
  intros R. pose proof (rel_decode _ _ _ _ _ _ _ _ _ _ R) as Hdec.
  destruct R as (Hsp & Hsc & Hcp & Hd & Hm & Hz & (done & Hsrc & Hpos & Hs) & Hp & Hg).
  unfold decode_turn, dec_byte. rewrite Hdec. clear Hdec.
  destruct x as [sp sc c dd mm ss pp zz]. st_simpl. subst sp sc dd mm zz pp ss.
  emit_cases st cp b.
  - (* a character is complete *)
    destruct (in_pua cp') eqn:Hpua.
    + pose proof (pua_unmap_non_ascii _ Hpua) as Hv. apply Z.leb_le in Hv.
      unfold pua_unmap in Hv. unfold in_pua in Hpua. rewrite Hpua.
      rewrite Hv. cbn [negb].
      destruct dst as [a|]; run_simpl; (eexists; split; [reflexivity|]);
        rel_after (done ++ pend ++ [b]).
      all: try exact I.
      rewrite u8_byte_val. reflexivity.
    + unfold in_pua in Hpua. rewrite Hpua.
      assert (Hn : Z.to_nat (Z.of_nat (length done) + Z.of_nat (length pend) + 1
                             - Z.of_nat (length done)) = length (pend ++ [b]))
        by (rewrite length_app; cbn [length]; lia).
      destruct dst as [a|]; run_simpl.
      * rewrite Hn, (copy_loop_spec src (pend ++ [b]) done rest);
          [| rewrite Hsrc, <- app_assoc; reflexivity
           | reflexivity
           | st_simpl; rewrite length_app; cbn [length]; lia ].
        st_simpl. eexists; split; [reflexivity|].
        rel_after (done ++ pend ++ [b]). exact I.
      * eexists; split; [reflexivity|].
        rel_after (done ++ pend ++ [b]). exact I.
  - (* malformed input *)
    cbn [Z.eqb].
    destruct (e =? XTF8_ERR_ABORT) eqn:He; [reflexivity|].
    destruct (st =? UTF8_ACCEPT) eqn:Hst; cbn [negb].
    + apply Z.eqb_eq in Hst.
      assert (Hpend : pend = []) by (apply Hp; exact Hst). subst pend.
      destruct dst as [a|]; run_simpl; (eexists; split; [reflexivity|]);
        rel_after (done ++ [b]).
      all: exact I.
    + destruct dst as [a|]; run_simpl; (eexists; split; [reflexivity|]);
        rel_after (done ++ pend).
      all: try apply pending_ok_nil.
      all: exact I.
  - (* more bytes to read *)
    assert (Hp' : pending_ok st' (pend ++ [b])).
    { rewrite Est. apply pending_ok_more; congruence. }
    destruct dst as [a|]; run_simpl; (eexists; split; [reflexivity|]);
      rel_after done.
    all: try exact Hp'.
    all: exact I.
Qed.

Lemma decode_finish_stream dst src x st cp pend M :
  rel any_out dst src x st cp pend M [] ->
  decode_finish dst x = view dst (S_done M).
Proof.
  intros (_ & _ & _ & Hd & Hm & Hz & _ & _ & _).
  unfold decode_finish. rewrite Hd, Hm, Hz.
  destruct dst as [a|]; cbn [ptr_add option_map is_null negb uintptr visible view].
  - rewrite Z.eqb_refl. reflexivity.
  - reflexivity.
Qed.

(** [xtf8_decode] computes the stream of [dec_byte]; in particular it
    returns, and none of its assertions fails. *)
Theorem xtf8_decode_stream (dst : option Z) (src : list byte) (e : Z) :
  xtf8_decode dst src e
  = Some (view dst (stream (dec_byte e) UTF8_ACCEPT 0 [] src)).
Proof.
  unfold xtf8_decode.
  rewrite <- (s_push_nil (stream _ _ _ _ _)).
  apply (loop_stream any_out).
  - intros x st cp pend M b rest R Ef.
    pose proof (decode_turn_stream _ _ e _ _ _ _ _ _ _ R) as H.
    rewrite Ef in H. exact H.
  - intros x st cp pend M b rest o st' cp' pend' R Ef.
    pose proof (decode_turn_stream _ _ e _ _ _ _ _ _ _ R) as H.
    rewrite Ef in H. exact H.
  - intros x st cp pend M b rest o R Ef.
    pose proof (decode_turn_stream _ _ e _ _ _ _ _ _ _ R) as H.
    rewrite Ef in H. exact H.
  - intros c b o Ef. apply dec_byte_retry in Ef. apply Ef. reflexivity.
  - intros x st cp pend M R. eapply decode_finish_stream, R.
  - apply rel_init. exact I.
  - unfold xtf8_fuel. lia.
Qed.

(** ** The size of the output

    The output has at most three bytes for each byte of the input, so
    the counter [sz] stays below [3 * len]: modelling [size_t] by an
    unbounded integer loses nothing for a buffer whose output fits the
    address space. *)

Section Size.

Variable f : Z -> Z -> list byte -> byte -> emit.

Hypothesis f_out : forall st c pend b o st' c' pend',
  pending_ok st pend ->
  f st c pend b = E_out o st' c' pend' ->
  pending_ok st' pend' /\
  (length o + 3 * length pend' <= 3 * length pend + 3)%nat.

Hypothesis f_retry : forall st c pend b o,
  pending_ok st pend ->
  f st c pend b = E_retry o ->
  (length o <= 3 * length pend)%nat.

Lemma length_s_push (o : list byte) (r : stream_result) :
  length (s_bytes (s_push o r)) = (length o + length (s_bytes r))%nat.
Proof. rewrite s_bytes_push. apply length_app. Qed.

Lemma stream_length (rest : list byte) :
  forall st c pend,
    pending_ok st pend ->
    (length (s_bytes (stream f st c pend rest)) <= 3 * (length pend + length rest))%nat.
Proof.
  induction rest as [|b rest IH]; intros st c pend P; cbn [stream length].
  - cbn [s_bytes length]. lia.
  - destruct (f st c pend b) as [|o st' c' pend'|o] eqn:Ef.
    + cbn [s_bytes length]. lia.
    + destruct (f_out _ _ _ _ _ _ _ _ P Ef) as [P' Hl].
      rewrite length_s_push. specialize (IH st' c' pend' P'). lia.
    + pose proof (f_retry _ _ _ _ _ P Ef) as Hl.
      rewrite length_s_push.
      destruct (f UTF8_ACCEPT 0 [] b) as [|o2 st2 c2 pend2|o2] eqn:Ef2.
      * cbn [s_bytes length]. lia.
      * destruct (f_out _ _ _ _ _ _ _ _ pending_ok_nil Ef2) as [P2 Hl2].
        rewrite length_s_push. specialize (IH st2 c2 pend2 P2).
        cbn [length] in Hl2. lia.
      * pose proof (f_retry _ _ _ _ _ pending_ok_nil Ef2) as Hl2.
        rewrite length_s_push. specialize (IH UTF8_ACCEPT 0 [] pending_ok_nil).
        cbn [length] in *. lia.
Qed.

End Size.

Lemma enc_byte_length (e st c : Z) (pend : list byte) (b : byte)
    (o : list byte) (st' c' : Z) (pend' : list byte) :
  enc_byte e st c pend b = E_out o st' c' pend' ->
  (length o + 3 * length pend' <= 3 * length pend + 3)%nat.
Proof.
  unfold enc_byte. emit_cases st c b.
  - destruct (in_pua cp'); [destruct (e =? XTF8_ERR_ABORT); [discriminate|]|];
      intros [= <- <- <- <-]; rewrite ?length_app; cbn [length replacement utf8_3]; lia.
  - destruct (st =? UTF8_ACCEPT); [|discriminate].
    intros [= <- <- <- <-]. rewrite length_pua_maps, length_app. cbn [length]. lia.
  - intros [= <- <- <- <-]. rewrite length_app. cbn [length]. lia.
Qed.

Lemma dec_byte_length (e st c : Z) (pend : list byte) (b : byte)
    (o : list byte) (st' c' : Z) (pend' : list byte) :
  dec_byte e st c pend b = E_out o st' c' pend' ->
  (length o + 3 * length pend' <= 3 * length pend + 3)%nat.
Proof.
  unfold dec_byte. emit_cases st c b.
  - destruct (in_pua cp'); intros [= <- <- <- <-];
      rewrite ?length_app; cbn [length]; lia.
  - destruct (e =? XTF8_ERR_ABORT); [discriminate|].
    destruct (st =? UTF8_ACCEPT); [|discriminate].
    intros [= <- <- <- <-]. cbn [length replacement utf8_3]. lia.
  - intros [= <- <- <- <-]. rewrite length_app. cbn [length]. lia.
Qed.

Lemma pending_ok_nonempty (st : Z) (pend : list byte) :
  pending_ok st pend -> st <> UTF8_ACCEPT -> (1 <= length pend)%nat.
Proof.
  intros [H _] Hn. destruct pend; [|cbn [length]; lia].
  exfalso. apply Hn. rewrite <- H. reflexivity.
Qed.

Lemma enc_stream_length (e : Z) (src : list byte) :
  (length (s_bytes (stream (enc_byte e) UTF8_ACCEPT 0 [] src)) <= 3 * length src)%nat.
Proof.
  pose proof (stream_length (enc_byte e)) as H.
  apply (H ltac:(intros st c pend b o st' c' pend' P Ef; split;
                   [exact (proj2 (enc_byte_out _ _ _ _ _ _ _ _ _ P Ef))
                   | exact (enc_byte_length _ _ _ _ _ _ _ _ _ Ef)])
           ltac:(intros st c pend b o P Ef; revert Ef; unfold enc_byte;
                 emit_cases st c b;
                 [ destruct (in_pua cp'); [destruct (e =? XTF8_ERR_ABORT)|]; discriminate
                 | destruct (st =? UTF8_ACCEPT); [discriminate|];
                   intros [= <-]; rewrite length_pua_maps; lia
                 | discriminate ])
           src UTF8_ACCEPT 0 [] pending_ok_nil).
Qed.

Lemma dec_stream_length (e : Z) (src : list byte) :
  (length (s_bytes (stream (dec_byte e) UTF8_ACCEPT 0 [] src)) <= 3 * length src)%nat.
Proof.
  pose proof (stream_length (dec_byte e)) as H.
  apply (H ltac:(intros st c pend b o st' c' pend' P Ef; split;
                   [exact (dec_byte_out _ _ _ _ _ _ _ _ _ P Ef)
                   | exact (dec_byte_length _ _ _ _ _ _ _ _ _ Ef)])
           ltac:(intros st c pend b o P Ef;
                 pose proof (pending_ok_nonempty _ _ P (dec_byte_retry _ _ _ _ _ _ Ef)) as Hl;
                 revert Ef; unfold dec_byte;
                 emit_cases st c b;
                 [ destruct (in_pua cp'); discriminate
                 | destruct (e =? XTF8_ERR_ABORT); [discriminate|];
                   destruct (st =? UTF8_ACCEPT); [discriminate|];
                   intros [= <-]; cbn [length replacement utf8_3]; lia
                 | discriminate ])
           src UTF8_ACCEPT 0 [] pending_ok_nil).
Qed.

(** Whatever a call of [xtf8_encode] stores, it is at most three times
    the length of the input, and so is a returned size. *)
Theorem encode_size_bound (dst : option Z) (src : list byte) (e : Z) :
  exists ret w,
    xtf8_encode dst src e = Some (Returned ret w) /\
    (length w <= 3 * length src)%nat /\
    (dst = None -> ret = XTF8_ABORTED \/ 0 <= ret <= 3 * Z.of_nat (length src)).
Proof.
  rewrite xtf8_encode_stream. pose proof (enc_stream_length e src) as H.
  destruct (stream _ _ _ _ _) as [o|o]; cbn [view s_bytes] in *;
    eexists; eexists; (split; [reflexivity|]); split.
  - destruct dst; cbn [visible is_null length]; lia.
  - intros _. left. reflexivity.
  - destruct dst; cbn [visible is_null length]; lia.
  - intros ->. right. lia.
Qed.

Theorem decode_size_bound (dst : option Z) (src : list byte) (e : Z) :
  exists ret w,
    xtf8_decode dst src e = Some (Returned ret w) /\
    (length w <= 3 * length src)%nat /\
    (dst = None -> ret = XTF8_ABORTED \/ 0 <= ret <= 3 * Z.of_nat (length src)).
Proof.
  rewrite xtf8_decode_stream. pose proof (dec_stream_length e src) as H.
  destruct (stream _ _ _ _ _) as [o|o]; cbn [view s_bytes] in *;
    eexists; eexists; (split; [reflexivity|]); split.
  - destruct dst; cbn [visible is_null length]; lia.
  - intros _. left. reflexivity.
  - destruct dst; cbn [visible is_null length]; lia.
  - intros ->. right. lia.
Qed.

(** ** Consequences for the two passes *)

(** Evaluate the stream of a concrete input; the destination and, where
    the policy is not consulted, the policy stay symbolic. *)
Ltac eval_stream :=
  rewrite ?xtf8_encode_stream, ?xtf8_decode_stream;
  repeat match goal with
  | |- context [stream ?f ?st ?c ?p ?l] =>
      let r := eval vm_compute in (stream f st c p l) in
      replace (stream f st c p l) with r by (vm_compute; reflexivity)
  end;
  cbn [view visible is_null length].

Lemma stream_total_encode (dst : option Z) (src : list byte) (e : Z) :
  exists ret w, xtf8_encode dst src e = Some (Returned ret w).
Proof.
  rewrite xtf8_encode_stream.
  destruct (stream _ _ _ _ _); cbn [view]; eauto.
Qed.

Lemma stream_total_decode (dst : option Z) (src : list byte) (e : Z) :
  exists ret w, xtf8_decode dst src e = Some (Returned ret w).
Proof.
  rewrite xtf8_decode_stream.
  destruct (stream _ _ _ _ _); cbn [view]; eauto.
Qed.

(** The sizing pass and the writing pass are two views of one stream. *)
Lemma view_sizing_writing (r : stream_result) (a : Z) :
  exists ret,
    view None r = Returned ret [] /\
    (ret <> XTF8_ABORTED ->
     exists out, view (Some a) r = Returned (a + ret) out /\ Z.of_nat (length out) = ret).
Proof.
  destruct r as [o|o]; cbn [view visible is_null]; eexists; (split; [reflexivity|]).
  - intros H. contradiction.
  - intros _. exists o. split; reflexivity.
Qed.

(** C2. For either function, every input and every error policy, the
    sizing pass (dst = NULL) returns and stores nothing; when what it
    returns is not the abort sentinel, the writing pass on the same
    input stores exactly that number of bytes and returns dst plus that
    number. *)
Theorem sizing_pass_matches_writing_pass
    (decode : bool) (a : Z) (src : list byte) (error : Z) :
  exists ret,
    f_xtf8 decode None src error = Some (Returned ret []) /\
    (ret <> XTF8_ABORTED ->
     exists out,
       f_xtf8 decode (Some a) src error = Some (Returned (a + ret) out) /\
       Z.of_nat (length out) = ret).
Proof.
  destruct decode; cbn [f_xtf8].
  - rewrite !xtf8_decode_stream.
    destruct (view_sizing_writing (stream (dec_byte error) UTF8_ACCEPT 0 [] src) a)
      as (ret & -> & H).
    exists ret. split; [reflexivity|]. intros Hr.
    destruct (H Hr) as (out & -> & Hl). eauto.
  - rewrite !xtf8_encode_stream.
    destruct (view_sizing_writing (stream (enc_byte error) UTF8_ACCEPT 0 [] src) a)
      as (ret & -> & H).
    exists ret. split; [reflexivity|]. intros Hr.
    destruct (H Hr) as (out & -> & Hl). eauto.
Qed.

Lemma sizing_pass_matches_writing_pass_witness :
  f_xtf8 false None [xff; xfe; x80] XTF8_ERR_REPLACE = Some (Returned 9 []) /\
  9 <> XTF8_ABORTED /\
  exists out,
    f_xtf8 false (Some 4096) [xff; xfe; x80] XTF8_ERR_REPLACE
      = Some (Returned (4096 + 9) out) /\
    Z.of_nat (length out) = 9.
Proof.
  assert (H1 : f_xtf8 false None [xff; xfe; x80] XTF8_ERR_REPLACE = Some (Returned 9 []))
    by (vm_compute; reflexivity).
  assert (H2 : 9 <> XTF8_ABORTED) by (vm_compute; discriminate).
  split; [exact H1|]. split; [exact H2|].
  destruct (sizing_pass_matches_writing_pass false 4096 [xff; xfe; x80] XTF8_ERR_REPLACE)
    as (ret & Hs & Hw).
  rewrite H1 in Hs. injection Hs as <-.
  exact (Hw H2).
Defined.

(** ** Validity of the encoder's output *)

Lemma is_utf8_s_push (o : list byte) (r : stream_result) :
  is_utf8 o = true -> is_utf8 (s_bytes r) = true ->
  is_utf8 (s_bytes (s_push o r)) = true.
Proof. destruct r; cbn [s_push s_bytes]; apply is_utf8_app. Qed.

Lemma enc_stream_valid (e : Z) (rest : list byte) :
  forall st cp pend,
    pending_ok st pend ->
    is_utf8 (s_bytes (stream (enc_byte e) st cp pend rest)) = true.
Proof.
  induction rest as [|b rest IH]; intros st cp pend P; [reflexivity|].
  cbn [stream].
  destruct (enc_byte e st cp pend b) as [|o st' cp' pend'|o] eqn:Ef.
  - reflexivity.
  - destruct (enc_byte_out _ _ _ _ _ _ _ _ _ P Ef) as [Ho P'].
    apply is_utf8_s_push; [exact Ho | apply IH, P'].
  - destruct (enc_byte_retry _ _ _ _ _ _ Ef) as [Ho _].
    apply is_utf8_s_push; [exact Ho|].
    destruct (enc_byte e UTF8_ACCEPT 0 [] b) as [|o2 st2 cp2 pend2|o2] eqn:Ef2.
    + reflexivity.
    + destruct (enc_byte_out _ _ _ _ _ _ _ _ _ pending_ok_nil Ef2) as [Ho2 P2].
      apply is_utf8_s_push; [exact Ho2 | apply IH, P2].
    + destruct (enc_byte_retry _ _ _ _ _ _ Ef2) as [_ Hn]. exfalso. apply Hn. reflexivity.
Qed.

(** A scan that ends in [UTF8_ACCEPT] has never been in [UTF8_REJECT]. *)
Lemma accepted_never_rejected (l : list byte) (n : nat) :
  is_utf8 l = true ->
  fst (utf8_scan UTF8_ACCEPT 0 (firstn n l)) <> UTF8_REJECT.
Proof.
  rewrite is_utf8_scan, utf8_scan_state. intros H Hr.
  rewrite <- (firstn_skipn n l), scan_state_app, Hr, scan_state_reject in H.
  discriminate.
Qed.

(** C3. Under the REPLACE policy the bytes [xtf8_encode] stores are
    valid UTF-8, for every input: the scanner, started in UTF8_ACCEPT
    and run over the whole output, ends in UTF8_ACCEPT, and it is not in
    UTF8_REJECT after any prefix of the output. *)
Theorem encode_output_is_utf8 (a : Z) (B : list byte) :
  exists ret out,
    xtf8_encode (Some a) B XTF8_ERR_REPLACE = Some (Returned ret out) /\
    is_utf8 out = true /\
    forall n, fst (utf8_scan UTF8_ACCEPT 0 (firstn n out)) <> UTF8_REJECT.
Proof.
  rewrite xtf8_encode_stream.
  pose proof (enc_stream_valid XTF8_ERR_REPLACE B _ 0 _ pending_ok_nil) as H.
  destruct (stream _ _ _ _ _) as [o|o]; cbn [view visible is_null s_bytes] in *;
    eexists; eexists; (split; [reflexivity|]); (split; [exact H|]);
    intros n; apply accepted_never_rejected, H.
Qed.

(** Every state the loop of [xtf8_encode] reaches stands for a state of
    the stream. *)
Lemma encode_loop_state_rel (dst : option Z) (src : list byte) (e : Z) (n : nat) :
  forall x0 x st cp pend M rest,
    rel valid_out dst src x0 st cp pend M rest ->
    xtf8_loop_state (encode_turn src e) (Z.of_nat (length src)) n x0 = Some x ->
    exists st' cp' pend' M' rest', rel valid_out dst src x st' cp' pend' M' rest'.
Proof.
  induction n as [|n IH]; intros x0 x st cp pend M rest R H; cbn [xtf8_loop_state] in H.
  - injection H as <-. eauto 6.
  - rewrite (rel_more _ _ _ _ _ _ _ _ _ R) in H.
    destruct rest as [|b rest]; [discriminate|]. cbn [length Nat.eqb negb] in H.
    pose proof (encode_turn_stream _ _ e _ _ _ _ _ _ _ R) as T.
    destruct (enc_byte e st cp pend b) as [|o st' cp' pend'|o].
    + rewrite T in H. discriminate.
    + destruct T as (x' & Hx' & R'). rewrite Hx' in H. exact (IH _ _ _ _ _ _ _ R' H).
    + destruct T as (x' & Hx' & R'). rewrite Hx' in H. exact (IH _ _ _ _ _ _ _ R' H).
Qed.

Lemma deref_pending (done pend rest : list byte) (i : Z) :
  Forall non_ascii pend ->
  Z.of_nat (length done) <= i < Z.of_nat (length done) + Z.of_nat (length pend) ->
  0x80 <= deref (done ++ pend ++ rest) i.
Proof.
  intros Hp Hi.
  replace i with (Z.of_nat (length done) + (i - Z.of_nat (length done))) by lia.
  rewrite deref_app_r by lia. unfold deref.
  rewrite app_nth1 by lia.
  rewrite Forall_forall in Hp. apply Hp, nth_In. lia.
Qed.

(** A call that ends at an assertion is possible in the model: the loop
    of the REJECT branch stops at an ASCII byte. *)
Example pua_loop_asserts :
  pua_loop 1 [x41] (init_state None) = None.
Proof. reflexivity. Qed.

(** C6. For every input, destination and policy, [xtf8_encode] returns
    and the assertion of the REJECT branch, [*pos >= 0x80], has not
    failed.  In terms of the bytes: whenever the loop, after any number
    of turns, is at a byte that the scanner rejects, every byte the
    REJECT branch maps to the reserved range (from [pos] to [s], or to
    [s - 1] when [s] is stepped back) is at least 0x80. *)
Theorem encode_reject_assertion_holds (dst : option Z) (src : list byte) (error : Z) :
  xtf8_encode dst src error <> Some (Assert_failed Assert_non_ascii) /\
  (exists ret w, xtf8_encode dst src error = Some (Returned ret w)) /\
  forall n x i,
    xtf8_loop_state (encode_turn src error) (Z.of_nat (length src)) n (init_state dst)
      = Some x ->
    s x < Z.of_nat (length src) ->
    fst (utf8_decode (s_cur x) (codepoint x) (deref src (s x))) = UTF8_REJECT ->
    pos x <= i <= (if s_prev x =? UTF8_ACCEPT then s x else s x - 1) ->
    0x80 <= deref src i.
Proof.
  destruct (stream_total_encode dst src error) as (ret & w & H).
  rewrite H. split; [discriminate|]. split; [eauto|].
  intros n x i Hn Hs Hrej Hi.
  destruct (encode_loop_state_rel dst src error n _ _ _ _ _ _ _
              (rel_init valid_out dst src eq_refl) Hn)
    as (st & cp & pend & M & rest & R).
  pose proof (rel_more _ _ _ _ _ _ _ _ _ R) as Hmore.
  replace (s x <? Z.of_nat (length src)) with true in Hmore
    by (symmetry; apply Z.ltb_lt; exact Hs).
  destruct rest as [|b rest]; [discriminate|].
  rewrite (rel_decode _ _ _ _ _ _ _ _ _ _ R), utf8_decode_state in Hrej.
  destruct R as (Hsp & _ & _ & _ & _ & _ & (done & Hsrc & Hpos & Hsx) & P & _).
  rewrite Hsp, Hpos, Hsx in Hi. rewrite Hsrc.
  destruct (st =? UTF8_ACCEPT) eqn:Hst.
  - apply Z.eqb_eq in Hst. subst st.
    assert (pend = []) by (apply P; reflexivity). subst pend.
    cbn [length app] in *.
    replace i with (Z.of_nat (length done)) by lia.
    rewrite deref_head. apply utf8_next_reject_non_ascii, Hrej.
  - apply deref_pending; [apply P | lia].
Qed.

Lemma encode_reject_assertion_holds_witness :
  xtf8_loop_state (encode_turn [xc2; x41] XTF8_ERR_REPLACE) 2 1 (init_state None)
    = Some (mk_state 24 24 2 None [] 1 0 0) /\
  fst (utf8_decode 24 2 (deref [xc2; x41] 1)) = UTF8_REJECT /\
  0x80 <= deref [xc2; x41] 0.
Proof.
  assert (H1 : xtf8_loop_state (encode_turn [xc2; x41] XTF8_ERR_REPLACE)
                 (Z.of_nat (length [xc2; x41])) 1 (init_state None)
               = Some (mk_state 24 24 2 None [] 1 0 0)) by (vm_compute; reflexivity).
  assert (H2 : fst (utf8_decode 24 2 (deref [xc2; x41] 1)) = UTF8_REJECT)
    by (vm_compute; reflexivity).
  split; [exact H1|]. split; [exact H2|].
  refine (proj2 (proj2 (encode_reject_assertion_holds None [xc2; x41] XTF8_ERR_REPLACE))
            1%nat (mk_state 24 24 2 None [] 1 0 0) 0 H1 _ H2 _).
  - cbn [s length]. lia.
  - cbn [pos s s_prev]. change (24 =? UTF8_ACCEPT) with false. lia.
Defined.

(** ** Decoding a reserved codepoint *)

Lemma pua_byte_facts (cp : Z) :
  in_pua cp = true ->
  0x80 <= Z.lor (Z.land cp 0x7F) 0x80 <= 0xFF /\
  byte_val (u8 (Z.lor (Z.land cp 0x7F) 0x80)) = Z.lor (Z.land cp 0x7F) 0x80.
Proof.
  intros H.
  pose proof (forall_pua
    (fun c => let v := Z.lor (Z.land c 0x7F) 0x80 in
              (0x80 <=? v) && (v <=? 0xFF) && (byte_val (u8 v) =? v))
    ltac:(vm_compute; reflexivity) cp H) as A.
  cbv zeta in A.
  apply andb_true_iff in A. destruct A as [A A3].
  apply andb_true_iff in A. destruct A as [A1 A2].
  apply Z.leb_le in A1. apply Z.leb_le in A2. apply Z.eqb_eq in A3.
  repeat split; assumption.
Qed.

(** C4. In whatever state the loop of [xtf8_decode] is, and for every
    input and policy: when the scanner completes a codepoint of the
    reserved range U+EF80..U+EFFF at the current byte, the turn stores
    the single byte (codepoint & 0x7F) | 0x80, which lies in 0x80..0xFF,
    and goes on. *)
Theorem decode_reserved_codepoint_byte
    (src : list byte) (error : Z) (x : xtf8_state) (cp : Z) :
  utf8_decode (s_cur x) (codepoint x) (deref src (s x)) = (UTF8_ACCEPT, cp) ->
  XTF8_PUA_START <= cp <= XTF8_PUA_END ->
  let v := Z.lor (Z.land cp 0x7F) 0x80 in
  0x80 <= v <= 0xFF /\
  byte_val (u8 v) = v /\
  exists x',
    decode_turn src error x = Next x' /\
    sz x' = sz x + 1 /\
    mem x' = (if is_null (d x) then mem x else mem x ++ [u8 v]).
Proof.
  intros Hdec [H1 H2] v.
  assert (Hpua : in_pua cp = true).
  { unfold in_pua. apply andb_true_iff. split; apply Z.leb_le; assumption. }
  destruct (pua_byte_facts cp Hpua) as [Hv Hu]. fold v in Hv, Hu.
  split; [exact Hv|]. split; [exact Hu|].
  unfold decode_turn. rewrite Hdec.
  unfold in_pua in Hpua. cbn [Z.eqb UTF8_ACCEPT]. rewrite Hpua.
  fold v. rewrite Hu.
  replace (0x80 <=? v) with true by (symmetry; apply Z.leb_le; lia).
  cbn [negb].
  destruct x as [sp sc c dd mm ss pp zz]. destruct dd as [a|]; run_simpl.
  - eexists. split; [reflexivity|]. run_simpl. split; reflexivity.
  - eexists. split; [reflexivity|]. run_simpl. split; reflexivity.
Qed.

Lemma decode_reserved_codepoint_byte_witness :
  utf8_decode 24 0x3BE (deref [xee; xbe; x90] 2) = (UTF8_ACCEPT, 0xEF90) /\
  XTF8_PUA_START <= 0xEF90 <= XTF8_PUA_END /\
  exists x',
    decode_turn [xee; xbe; x90] XTF8_ERR_ABORT
      (mk_state 24 24 0x3BE (Some 4096) [] 2 0 0) = Next x' /\
    sz x' = 1 /\
    mem x' = [x90].
Proof.
  assert (H1 : utf8_decode 24 0x3BE (deref [xee; xbe; x90] 2) = (UTF8_ACCEPT, 0xEF90))
    by (vm_compute; reflexivity).
  assert (H2 : XTF8_PUA_START <= 0xEF90 <= XTF8_PUA_END)
    by (unfold XTF8_PUA_START, XTF8_PUA_END; lia).
  split; [exact H1|]. split; [exact H2|].
  destruct (decode_reserved_codepoint_byte [xee; xbe; x90] XTF8_ERR_ABORT
              (mk_state 24 24 0x3BE (Some 4096) [] 2 0 0) 0xEF90 H1 H2)
    as (_ & _ & x' & Ht & Hsz & Hmem).
  exists x'. split; [exact Ht|]. split; [exact Hsz | exact Hmem].
Defined.

(** ** A reserved codepoint in the encoder's input *)

(** The three bytes of a reserved codepoint, as the scanner reads them
    after the lead byte 0xEE. *)
Lemma pua_sequence (cp : Z) :
  in_pua cp = true ->
  exists b2 b3 c2,
    utf8_3 cp = [xee; b2; b3] /\
    utf8_decode 36 14 (byte_val b2) = (24, c2) /\
    utf8_decode 24 c2 (byte_val b3) = (UTF8_ACCEPT, cp).
Proof.
  intros H.
  pose proof (forall_pua
    (fun c =>
       match utf8_3 c with
       | [b1; b2; b3] =>
           let d2 := utf8_decode 36 14 (byte_val b2) in
           let d3 := utf8_decode 24 (snd d2) (byte_val b3) in
           Byte.eqb b1 xee && (fst d2 =? 24) && (fst d3 =? UTF8_ACCEPT) && (snd d3 =? c)
       | _ => false
       end)
    ltac:(vm_compute; reflexivity) cp H) as A.
  cbv beta in A. unfold utf8_3 in *.
  set (b2 := u8 (Z.lor (Z.land (Z.shiftr cp 6) 0x3F) 0x80)) in *.
  set (b3 := u8 (Z.lor (Z.land cp 0x3F) 0x80)) in *.
  cbv zeta in A.
  destruct (utf8_decode 36 14 (byte_val b2)) as [s2 c2] eqn:E2. cbn [fst snd] in A.
  destruct (utf8_decode 24 c2 (byte_val b3)) as [s3 c3] eqn:E3. cbn [fst snd] in A.
  apply andb_true_iff in A. destruct A as [A A4].
  apply andb_true_iff in A. destruct A as [A A3].
  apply andb_true_iff in A. destruct A as [A1 A2].
  apply Byte.byte_dec_bl in A1. apply Z.eqb_eq in A2, A3, A4. subst.
  exists b2, b3, c2. rewrite A1. split; [reflexivity|]. split; [exact E2 | exact E3].
Qed.

Lemma lead_ee_fresh (c : Z) : utf8_decode UTF8_ACCEPT c (byte_val xee) = (36, 14).
Proof. rewrite utf8_decode_accept. vm_compute. reflexivity. Qed.

Lemma lead_ee_pending (st c : Z) :
  In st utf8_states -> st <> UTF8_ACCEPT ->
  fst (utf8_decode st c (byte_val xee)) = UTF8_REJECT.
Proof.
  intros H Hn. rewrite utf8_decode_state.
  unfold utf8_states in H. cbn [In] in H.
  repeat (destruct H as [<-|H]; [try (vm_compute; reflexivity); exfalso; apply Hn; reflexivity|]).
  contradiction.
Qed.

(** From any state of the stream, the lead byte 0xEE flushes what is
    pending and starts a three-byte character. *)
Lemma enc_lead_ee (e st c : Z) (pend rest : list byte) :
  pending_ok st pend ->
  stream (enc_byte e) st c pend (xee :: rest)
  = s_push (concat (map pua_map pend)) (stream (enc_byte e) 36 14 [xee] rest).
Proof.
  intros P. pose proof (pending_ok_state _ _ P) as Hst.
  assert (Hfresh : enc_byte e UTF8_ACCEPT 0 [] xee = E_out [] 36 14 [xee]).
  { unfold enc_byte. rewrite lead_ee_fresh. reflexivity. }
  destruct (Z.eq_dec st UTF8_ACCEPT) as [->|Hn].
  - assert (pend = []) by (apply P; reflexivity). subst pend.
    cbn [stream]. unfold enc_byte at 1. rewrite lead_ee_fresh.
    cbn [Z.eqb UTF8_ACCEPT UTF8_REJECT app map concat]. reflexivity.
  - cbn [stream]. rewrite Hfresh. unfold enc_byte.
    pose proof (lead_ee_pending st c Hst Hn) as Hr.
    destruct (utf8_decode st c (byte_val xee)) as [s1 c1]. cbn [fst] in Hr. subst s1.
    change (UTF8_REJECT =? UTF8_ACCEPT) with false. rewrite Z.eqb_refl.
    replace (st =? UTF8_ACCEPT) with false by (symmetry; apply Z.eqb_neq; exact Hn).
    cbn [s_push app]. rewrite s_push_nil. reflexivity.
Qed.

Lemma enc_collision (e st c : Z) (pend post : list byte) (cp : Z) :
  pending_ok st pend -> in_pua cp = true ->
  stream (enc_byte e) st c pend (utf8_3 cp ++ post)
  = s_push (concat (map pua_map pend))
      (if e =? XTF8_ERR_ABORT then S_aborted []
       else s_push replacement (stream (enc_byte e) UTF8_ACCEPT 0 [] post)).
Proof.
  intros P H. destruct (pua_sequence cp H) as (b2 & b3 & c2 & -> & E2 & E3).
  cbn [app]. rewrite enc_lead_ee by exact P. f_equal.
  cbn [stream]. unfold enc_byte at 1. rewrite E2.
  change (24 =? UTF8_ACCEPT) with false. change (24 =? UTF8_REJECT) with false.
  cbv iota. rewrite s_push_nil.
  cbn [stream]. unfold enc_byte at 1. rewrite E3.
  rewrite Z.eqb_refl, H. cbv iota.
  destruct (e =? XTF8_ERR_ABORT); reflexivity.
Qed.

Lemma enc_truncated_ee (e st c : Z) (pend : list byte) :
  pending_ok st pend ->
  stream (enc_byte e) st c pend [xee] = S_done (concat (map pua_map pend)).
Proof.
  intros P. rewrite enc_lead_ee by exact P. cbn [stream]. apply s_push_done.
Qed.

(** Only the ABORT policy aborts. *)
Lemma enc_byte_no_abort (e st c : Z) (pend : list byte) (b : byte) :
  (e =? XTF8_ERR_ABORT) = false -> enc_byte e st c pend b <> E_abort.
Proof.
  intros He. unfold enc_byte. emit_cases st c b.
  - rewrite He. destruct (in_pua cp'); discriminate.
  - destruct (st =? UTF8_ACCEPT); discriminate.
  - discriminate.
Qed.

(** The policy matters at a collision only. *)
Lemma enc_byte_policy (e st c : Z) (pend : list byte) (b : byte) :
  enc_byte XTF8_ERR_ABORT st c pend b = E_abort \/
  enc_byte XTF8_ERR_ABORT st c pend b = enc_byte e st c pend b.
Proof.
  unfold enc_byte. emit_cases st c b.
  - destruct (in_pua cp'); [left|right]; reflexivity.
  - right. reflexivity.
  - right. reflexivity.
Qed.

Lemma enc_no_abort (e : Z) (rest : list byte) :
  (e =? XTF8_ERR_ABORT) = false ->
  forall st c pend, exists o, stream (enc_byte e) st c pend rest = S_done o.
Proof.
  intros He. induction rest as [|b rest IH]; intros st c pend; cbn [stream].
  - eauto.
  - destruct (enc_byte e st c pend b) as [|o st' c' pend'|o] eqn:Ef.
    + exfalso. exact (enc_byte_no_abort _ _ _ _ _ He Ef).
    + destruct (IH st' c' pend') as [o' ->]. cbn [s_push]. eauto.
    + destruct (enc_byte e UTF8_ACCEPT 0 [] b) as [|o2 st2 c2 pend2|o2] eqn:Ef2.
      * exfalso. exact (enc_byte_no_abort _ _ _ _ _ He Ef2).
      * destruct (IH st2 c2 pend2) as [o' ->]. cbn [s_push]. eauto.
      * destruct (IH UTF8_ACCEPT 0 []) as [o' ->]. cbn [s_push]. eauto.
Qed.

Section Collision.

Variable cp : Z.
Variable post : list byte.
Hypothesis cp_reserved : in_pua cp = true.

(** Without the ABORT policy the output is: what the stream has
    produced when it has read the lead byte of the reserved
    codepoint, the replacement character, the output for the rest. *)
Lemma enc_replace_prefix (e : Z) (pre : list byte) :
  (e =? XTF8_ERR_ABORT) = false ->
  forall st c pend,
    pending_ok st pend ->
    stream (enc_byte e) st c pend (pre ++ utf8_3 cp ++ post)
    = s_push (s_bytes (stream (enc_byte e) st c pend (pre ++ [xee])))
        (s_push replacement (stream (enc_byte e) UTF8_ACCEPT 0 [] post)).
Proof.
  intros He. induction pre as [|a pre IH]; intros st c pend P.
  - cbn [app]. rewrite enc_collision, enc_truncated_ee, He by assumption.
    reflexivity.
  - cbn [app stream].
    destruct (enc_byte e st c pend a) as [|o st' c' pend'|o] eqn:Ef.
    + exfalso. exact (enc_byte_no_abort _ _ _ _ _ He Ef).
    + destruct (enc_byte_out _ _ _ _ _ _ _ _ _ P Ef) as [_ P'].
      rewrite (IH _ _ _ P'), s_bytes_push, !s_push_push. reflexivity.
    + destruct (enc_byte e UTF8_ACCEPT 0 [] a) as [|o2 st2 c2 pend2|o2] eqn:Ef2.
      * exfalso. exact (enc_byte_no_abort _ _ _ _ _ He Ef2).
      * destruct (enc_byte_out _ _ _ _ _ _ _ _ _ pending_ok_nil Ef2) as [_ P2].
        rewrite (IH _ _ _ P2), !s_bytes_push, !s_push_push, <- !app_assoc. reflexivity.
      * destruct (enc_byte_retry _ _ _ _ _ _ Ef2) as [_ Hn]. exfalso. apply Hn. reflexivity.
Qed.

(** With the ABORT policy the stream is aborted, after a prefix of
    what any policy produces before the reserved codepoint. *)
Lemma enc_abort_prefix (e : Z) (pre : list byte) :
  forall st c pend,
    pending_ok st pend ->
    exists w t,
      stream (enc_byte XTF8_ERR_ABORT) st c pend (pre ++ utf8_3 cp ++ post) = S_aborted w /\
      s_bytes (stream (enc_byte e) st c pend (pre ++ [xee])) = w ++ t.
Proof.
  induction pre as [|a pre IH]; intros st c pend P.
  - cbn [app]. rewrite enc_collision, enc_truncated_ee by assumption.
    rewrite Z.eqb_refl, s_push_aborted.
    exists (concat (map pua_map pend)), []. rewrite app_nil_r. split; reflexivity.
  - cbn [app stream].
    destruct (enc_byte_policy e st c pend a) as [Hab|Hsame].
    { rewrite Hab. eexists [], _. split; reflexivity. }
    rewrite Hsame.
    destruct (enc_byte e st c pend a) as [|o st' c' pend'|o] eqn:Ef.
    + exists [], []. split; reflexivity.
    + destruct (enc_byte_out _ _ _ _ _ _ _ _ _ P Ef) as [_ P'].
      destruct (IH _ c' _ P') as (w & t & -> & Ht).
      exists (o ++ w), t. cbn [s_push]. rewrite s_bytes_push, Ht, app_assoc.
      split; reflexivity.
    + destruct (enc_byte_policy e UTF8_ACCEPT 0 [] a) as [Hab2|Hsame2].
      { rewrite Hab2. eexists o, _. cbn [s_push].
        rewrite s_bytes_push, app_nil_r. split; reflexivity. }
      rewrite Hsame2.
      destruct (enc_byte e UTF8_ACCEPT 0 [] a) as [|o2 st2 c2 pend2|o2] eqn:Ef2.
      * exists o, []. cbn [s_push s_bytes]. rewrite !app_nil_r. split; reflexivity.
      * destruct (enc_byte_out _ _ _ _ _ _ _ _ _ pending_ok_nil Ef2) as [_ P2].
        destruct (IH _ c2 _ P2) as (w & t & -> & Ht).
        exists (o ++ o2 ++ w), t. cbn [s_push].
        rewrite !s_bytes_push, Ht, <- !app_assoc. split; reflexivity.
      * destruct (enc_byte_retry _ _ _ _ _ _ Ef2) as [_ Hn]. exfalso. apply Hn. reflexivity.
Qed.

End Collision.

Lemma replacement_bytes : replacement = [xef; xbf; xbd].
Proof. reflexivity. Qed.

Lemma in_pua_range (cp : Z) :
  XTF8_PUA_START <= cp <= XTF8_PUA_END -> in_pua cp = true.
Proof.
  intros [H1 H2]. unfold in_pua. apply andb_true_iff. split; apply Z.leb_le; assumption.
Qed.

(** ** A truncated sequence at the end of the input *)

Lemma enc_pending_run (e : Z) (t : list byte) :
  forall st c pend,
    pending_run st t = true ->
    stream (enc_byte e) st c pend t = S_done [].
Proof.
  induction t as [|b t IH]; intros st c pend H; [reflexivity|].
  cbn [pending_run] in H.
  apply andb_true_iff in H. destruct H as [H H3].
  apply andb_true_iff in H. destruct H as [H1 H2].
  cbn [stream]. set (S := stream (enc_byte e)) in *. unfold enc_byte.
  destruct (utf8_decode st c (byte_val b)) as [st' c'] eqn:E.
  assert (Est : st' = utf8_next st (byte_val b))
    by (rewrite <- (utf8_decode_state st c), E; reflexivity).
  rewrite <- Est in H1, H2, H3.
  apply negb_true_iff in H1, H2. rewrite H1, H2.
  unfold S. rewrite (IH _ _ _ H3). reflexivity.
Qed.

Lemma enc_complete_then (e : Z) (t B : list byte) :
  forall st c pend,
    scan_state st B = UTF8_ACCEPT ->
    pending_run UTF8_ACCEPT t = true ->
    stream (enc_byte e) st c pend (B ++ t) = stream (enc_byte e) st c pend B.
Proof.
  induction B as [|b B IH]; intros st c pend HB Ht.
  - cbn in HB. subst st. cbn [app stream]. apply enc_pending_run, Ht.
  - cbn [app stream]. unfold scan_state in HB. cbn [fold_left] in HB.
    fold (scan_state (utf8_next st (byte_val b)) B) in HB.
    set (S := stream (enc_byte e)) in *.
    unfold enc_byte. emit_cases st c b.
    + rewrite <- Est, Ha in HB.
      destruct (in_pua cp'); [destruct (e =? XTF8_ERR_ABORT)|];
        try reflexivity; unfold S; rewrite (IH _ _ _ HB Ht); reflexivity.
    + rewrite <- Est, Hr, scan_state_reject in HB. discriminate.
    + rewrite <- Est in HB. unfold S. rewrite (IH _ _ _ HB Ht). reflexivity.
Qed.

(** ** Decoding the encoder's output

    The round trip of the README holds up to the truncated sequence the
    input may end in, which the encoder drops (C1, C9). *)

Lemma dec_clean_nil (e : Z) : dec_clean e [] [].
Proof. intros rest. cbn [app]. rewrite s_push_nil. reflexivity. Qed.

Lemma dec_clean_app (e : Z) (o1 D1 o2 D2 : list byte) :
  dec_clean e o1 D1 -> dec_clean e o2 D2 -> dec_clean e (o1 ++ o2) (D1 ++ D2).
Proof.
  intros H1 H2 rest. rewrite <- app_assoc, H1, H2, s_push_push. reflexivity.
Qed.

Lemma dec_tracks_nil (e : Z) : dec_tracks e UTF8_ACCEPT 0 [].
Proof. intros rest. reflexivity. Qed.

Lemma enc_dec_inv_nil (e : Z) : enc_dec_inv e UTF8_ACCEPT 0 [].
Proof.
  split; [apply pending_ok_nil|]. split; [reflexivity | apply dec_tracks_nil].
Qed.

(** The mapping of bytes to reserved codepoints is inverted by the
    decoder's formula. *)
Lemma pua_unmap_code (b : byte) :
  non_ascii b -> in_pua (pua_code b) = true /\ pua_unmap (pua_code b) = b.
Proof.
  intros H.
  pose proof (forall_bytes
    (fun z => negb (0x80 <=? z)
              || (in_pua (Z.lor 0xEF80 (Z.land z 0x7F))
                  && Byte.eqb (pua_unmap (Z.lor 0xEF80 (Z.land z 0x7F))) (u8 z)))
    ltac:(vm_compute; reflexivity) b) as A.
  cbv beta in A. rewrite u8_byte_val in A.
  replace (0x80 <=? byte_val b) with true in A by (symmetry; apply Z.leb_le; exact H).
  cbn [negb orb] in A. apply andb_true_iff in A. destruct A as [A1 A2].
  split; [exact A1 | apply Byte.byte_dec_bl, A2].
Qed.

Lemma dec_clean_pua_map (e : Z) (b : byte) :
  non_ascii b -> dec_clean e (pua_map b) [b].
Proof.
  intros H rest. destruct (pua_unmap_code b H) as [Hpua Hun].
  destruct (pua_sequence _ Hpua) as (b2 & b3 & c2 & Hseq & E2 & E3).
  unfold pua_map. rewrite Hseq. cbn [app stream].
  set (S := stream (dec_byte e)).
  unfold dec_byte at 1. rewrite lead_ee_fresh.
  change (36 =? UTF8_ACCEPT) with false. change (36 =? UTF8_REJECT) with false.
  cbv iota. unfold S at 1. cbn [stream app]. fold S.
  unfold dec_byte at 1. rewrite E2.
  change (24 =? UTF8_ACCEPT) with false. change (24 =? UTF8_REJECT) with false.
  cbv iota. unfold S at 1. cbn [stream app]. fold S.
  unfold dec_byte at 1. rewrite E3, Z.eqb_refl, Hpua, Hun. cbv iota.
  rewrite !s_push_nil. reflexivity.
Qed.

Lemma dec_clean_pua_maps (e : Z) (l : list byte) :
  Forall non_ascii l -> dec_clean e (concat (map pua_map l)) l.
Proof.
  induction 1 as [|b l Hb Hl IH]; [apply dec_clean_nil|].
  cbn [map concat]. change (b :: l) with ([b] ++ l).
  apply dec_clean_app; [apply dec_clean_pua_map, Hb | exact IH].
Qed.

Lemma pending_run_app (l : list byte) :
  forall st b,
    pending_run st l = true ->
    utf8_next (scan_state st l) (byte_val b) <> UTF8_ACCEPT ->
    utf8_next (scan_state st l) (byte_val b) <> UTF8_REJECT ->
    pending_run st (l ++ [b]) = true.
Proof.
  induction l as [|a l IH]; intros st b H Ha Hr; cbn [app pending_run] in *.
  - change (scan_state st []) with st in Ha, Hr.
    apply Z.eqb_neq in Ha, Hr. rewrite Ha, Hr. reflexivity.
  - change (scan_state st (a :: l)) with (scan_state (utf8_next st (byte_val a)) l) in Ha, Hr.
    apply andb_true_iff in H. destruct H as [H H3]. rewrite H. cbn [andb].
    apply IH; assumption.
Qed.

(** One byte of the encoder, seen from the decoder of its output. *)
Lemma enc_byte_dec_out (e' st c : Z) (pend : list byte) (b : byte)
    (o : list byte) (st' c' : Z) (pend' : list byte) :
  enc_dec_inv e' st c pend ->
  enc_byte XTF8_ERR_ABORT st c pend b = E_out o st' c' pend' ->
  enc_dec_inv e' st' c' pend' /\
  exists D, dec_clean e' o D /\ pend ++ [b] = D ++ pend'.
Proof.
  intros (P & Hrun & Htr). unfold enc_byte. emit_cases st c b.
  - destruct (in_pua cp') eqn:Hpua; [rewrite Z.eqb_refl; discriminate|].
    intros [= <- <- <- <-]. split; [apply enc_dec_inv_nil|].
    exists (pend ++ [b]). split; [|rewrite app_nil_r; reflexivity].
    intros rest. rewrite <- app_assoc, Htr. cbn [app stream].
    unfold dec_byte at 1. rewrite E, Ha, Z.eqb_refl, Hpua. reflexivity.
  - destruct (st =? UTF8_ACCEPT) eqn:Hst; [|discriminate].
    apply Z.eqb_eq in Hst.
    assert (pend = []) by (apply P; exact Hst). subst pend.
    intros [= <- <- <- <-]. split; [apply enc_dec_inv_nil|].
    exists [b]. split; [|reflexivity].
    change (dec_clean e' (concat (map pua_map [b])) [b]).
    apply dec_clean_pua_maps. constructor; [|constructor].
    apply utf8_next_reject_non_ascii. congruence.
  - intros [= <- <- <- <-].
    assert (Ha' : utf8_next st (byte_val b) <> UTF8_ACCEPT) by congruence.
    assert (Hr' : utf8_next st (byte_val b) <> UTF8_REJECT) by congruence.
    split.
    + split; [rewrite Est; apply pending_ok_more; assumption|]. split.
      * apply pending_run_app; [exact Hrun | |];
          destruct P as [-> _]; assumption.
      * intros rest. rewrite <- app_assoc, Htr. cbn [app stream].
        unfold dec_byte at 1. rewrite E.
        rewrite (proj2 (Z.eqb_neq _ _) Ha), (proj2 (Z.eqb_neq _ _) Hr).
        rewrite s_push_nil. reflexivity.
    + exists []. split; [apply dec_clean_nil | reflexivity].
Qed.

Lemma enc_byte_dec_retry (e' st c : Z) (pend : list byte) (b : byte) (o : list byte) :
  enc_dec_inv e' st c pend ->
  enc_byte XTF8_ERR_ABORT st c pend b = E_retry o ->
  dec_clean e' o pend.
Proof.
  intros (P & _ & _). unfold enc_byte. emit_cases st c b.
  - destruct (in_pua cp'); [rewrite Z.eqb_refl|]; discriminate.
  - destruct (st =? UTF8_ACCEPT); [discriminate|].
    intros [= <-]. apply dec_clean_pua_maps, P.
  - discriminate.
Qed.

Lemma enc_dec_stream (e' : Z) (rest : list byte) :
  forall st c pend O,
    enc_dec_inv e' st c pend ->
    stream (enc_byte XTF8_ERR_ABORT) st c pend rest = S_done O ->
    exists B' t,
      pend ++ rest = B' ++ t /\
      truncated t = true /\
      stream (dec_byte e') UTF8_ACCEPT 0 [] O = S_done B'.
Proof.
  induction rest as [|b rest IH]; intros st c pend O I HO.
  - cbn [stream] in HO. injection HO as <-.
    exists [], pend. split; [rewrite app_nil_r; reflexivity|].
    split; [apply I | reflexivity].
  - cbn [stream] in HO.
    destruct (enc_byte XTF8_ERR_ABORT st c pend b) as [|o st' c' pend'|o] eqn:Ef.
    + discriminate.
    + destruct (enc_byte_dec_out _ _ _ _ _ _ _ _ _ I Ef) as (I' & D & HD & Hsplit).
      apply s_push_done_inv in HO. destruct HO as (O' & HO' & ->).
      destruct (IH _ _ _ _ I' HO') as (B' & t & Hrest & Ht & Hdec).
      exists (D ++ B'), t. split; [|split].
      * change (b :: rest) with ([b] ++ rest).
        rewrite app_assoc, Hsplit, <- !app_assoc, Hrest. reflexivity.
      * exact Ht.
      * rewrite HD, Hdec. reflexivity.
    + pose proof (enc_byte_dec_retry _ _ _ _ _ _ I Ef) as HD.
      apply s_push_done_inv in HO. destruct HO as (O1 & HO1 & ->).
      destruct (enc_byte XTF8_ERR_ABORT UTF8_ACCEPT 0 [] b)
        as [|o2 st2 c2 pend2|o2] eqn:Ef2.
      * discriminate.
      * destruct (enc_byte_dec_out _ _ _ _ _ _ _ _ _ (enc_dec_inv_nil e') Ef2)
          as (I2 & D2 & HD2 & Hsplit2).
        apply s_push_done_inv in HO1. destruct HO1 as (O' & HO' & ->).
        destruct (IH _ _ _ _ I2 HO') as (B' & t & Hrest & Ht & Hdec).
        exists (pend ++ D2 ++ B'), t. split; [|split].
        -- change (b :: rest) with (([] ++ [b]) ++ rest).
           rewrite Hsplit2. rewrite <- !app_assoc. rewrite Hrest. reflexivity.
        -- exact Ht.
        -- rewrite HD, HD2, Hdec. reflexivity.
      * destruct (enc_byte_retry _ _ _ _ _ _ Ef2) as [_ Hn]. exfalso. apply Hn. reflexivity.
Qed.

(** Without a collision the policy does not matter. *)
Lemma enc_abort_done (e : Z) (rest : list byte) :
  forall st c pend O,
    stream (enc_byte XTF8_ERR_ABORT) st c pend rest = S_done O ->
    stream (enc_byte e) st c pend rest = S_done O.
Proof.
  induction rest as [|b rest IH]; intros st c pend O HO; [exact HO|].
  cbn [stream] in *.
  destruct (enc_byte_policy e st c pend b) as [Hab|Hsame];
    [rewrite Hab in HO; discriminate|].
  rewrite <- Hsame.
  destruct (enc_byte XTF8_ERR_ABORT st c pend b) as [|o st' c' pend'|o] eqn:Ef.
  - discriminate.
  - apply s_push_done_inv in HO. destruct HO as (O' & HO' & ->).
    rewrite (IH _ _ _ _ HO'). reflexivity.
  - apply s_push_done_inv in HO. destruct HO as (O1 & HO1 & ->).
    destruct (enc_byte_policy e UTF8_ACCEPT 0 [] b) as [Hab2|Hsame2];
      [rewrite Hab2 in HO1; discriminate|].
    rewrite <- Hsame2.
    destruct (enc_byte XTF8_ERR_ABORT UTF8_ACCEPT 0 [] b) as [|o2 st2 c2 pend2|o2] eqn:Ef2.
    + discriminate.
    + apply s_push_done_inv in HO1. destruct HO1 as (O' & HO' & ->).
      rewrite (IH _ _ _ _ HO'). reflexivity.
    + apply s_push_done_inv in HO1. destruct HO1 as (O' & HO' & ->).
      rewrite (IH _ _ _ _ HO'). reflexivity.
Qed.

(** When the input holds no reserved codepoint (the sizing pass with
    the ABORT policy does not return the sentinel), decoding the
    encoder's output gives the input back, without the truncated
    sequence [t] it may end in.  The policies of the two calls do not
    matter. *)
Theorem roundtrip_up_to_truncated_tail (a a' : Z) (B : list byte) (e e' : Z) :
  returned (xtf8_encode None B XTF8_ERR_ABORT) <> Some XTF8_ABORTED ->
  exists B' t E,
    B = B' ++ t /\
    truncated t = true /\
    xtf8_encode (Some a) B e = Some (Returned (a + Z.of_nat (length E)) E) /\
    xtf8_decode (Some a') E e' = Some (Returned (a' + Z.of_nat (length B')) B').
Proof.
  rewrite !xtf8_encode_stream. intros Hno.
  destruct (stream (enc_byte XTF8_ERR_ABORT) UTF8_ACCEPT 0 [] B) as [O|O] eqn:HO.
  - exfalso. apply Hno. reflexivity.
  - destruct (enc_dec_stream e' B _ _ _ _ (enc_dec_inv_nil e') HO)
      as (B' & t & HB & Ht & Hdec).
    exists B', t, O. rewrite (enc_abort_done e _ _ _ _ _ HO).
    rewrite xtf8_decode_stream, Hdec.
    repeat split; [exact HB | exact Ht].
Qed.

(** The round trip is exact for an input that holds no reserved
    codepoint and does not end in a truncated sequence. *)
Corollary roundtrip_exact (a a' : Z) (B : list byte) (e e' : Z) :
  returned (xtf8_encode None B XTF8_ERR_ABORT) <> Some XTF8_ABORTED ->
  (forall B' t, B = B' ++ t -> truncated t = true -> t = []) ->
  exists E,
    xtf8_encode (Some a) B e = Some (Returned (a + Z.of_nat (length E)) E) /\
    xtf8_decode (Some a') E e' = Some (Returned (a' + Z.of_nat (length B)) B).
Proof.
  rewrite !xtf8_encode_stream. intros Hno Hend.
  destruct (stream (enc_byte XTF8_ERR_ABORT) UTF8_ACCEPT 0 [] B) as [O|O] eqn:HO.
  - exfalso. apply Hno. reflexivity.
  - destruct (enc_dec_stream e' B _ _ _ _ (enc_dec_inv_nil e') HO)
      as (B' & t & HB & Ht & Hdec).
    pose proof (Hend B' t HB Ht) as ->. rewrite app_nil_r in HB. subst B'.
    exists O. rewrite (enc_abort_done e _ _ _ _ _ HO).
    rewrite xtf8_decode_stream, Hdec. split; reflexivity.
Qed.

(** C1 fails on the code: the byte C2 holds no reserved codepoint (the
    ABORT policy finds no collision), it is encoded to the empty output,
    and the empty output is decoded to the empty buffer. *)
Theorem roundtrip_loses_truncated_tail (a : Z) :
  xtf8_encode None [xc2] XTF8_ERR_ABORT = Some (Returned 0 []) /\
  xtf8_encode (Some a) [xc2] XTF8_ERR_REPLACE = Some (Returned (a + 0) []) /\
  xtf8_decode (Some a) [] XTF8_ERR_REPLACE = Some (Returned (a + 0) []) /\
  [] <> [xc2].
Proof.
  repeat split; try (eval_stream; reflexivity). discriminate.
Qed.

(** ** Concrete inputs *)

(** C7, counterexample to the bytes EF BE BF, EF BE BE, EF BE 80: the
    encoder does not produce them for the input FF FE 80. *)
Lemma encode_ff_fe_80_is_not_ef_be :
  xtf8_encode (Some 4096) [xff; xfe; x80] XTF8_ERR_REPLACE
  <> Some (Returned (4096 + 9) [xef; xbe; xbf; xef; xbe; xbe; xef; xbe; x80]).
Proof. vm_compute. discriminate. Qed.

(** C7, as the code has it.  The input FF FE 80 is encoded, under
    either policy and in fact whatever [error] is, to EE BF BF,
    EE BF BE, EE BE 80:
    the three-byte UTF-8 forms of 0xEF80 | (byte & 0x7F), which are
    U+EFFF, U+EFFE and U+EF80.  Decoding these nine bytes gives FF FE 80
    back, whatever [error] is. *)
Theorem encode_decode_ff_fe_80 (a error : Z) :
  map pua_code [xff; xfe; x80] = [0xEFFF; 0xEFFE; 0xEF80] /\
  concat (map pua_map [xff; xfe; x80])
    = [xee; xbf; xbf; xee; xbf; xbe; xee; xbe; x80] /\
  xtf8_encode None [xff; xfe; x80] error = Some (Returned 9 []) /\
  xtf8_encode (Some a) [xff; xfe; x80] error
    = Some (Returned (a + 9) [xee; xbf; xbf; xee; xbf; xbe; xee; xbe; x80]) /\
  xtf8_decode None [xee; xbf; xbf; xee; xbf; xbe; xee; xbe; x80] error
    = Some (Returned 3 []) /\
  xtf8_decode (Some a) [xee; xbf; xbf; xee; xbf; xbe; xee; xbe; x80] error
    = Some (Returned (a + 3) [xff; xfe; x80]).
Proof.
  split; [reflexivity|]. split; [reflexivity|].
  repeat split; eval_stream; reflexivity.
Qed.

(** C10. Decoding the single byte FF with the REPLACE policy needs three
    bytes, more than the input has: the sizing pass returns 3 and the
    writing pass stores EF BF BD. *)
Theorem decode_output_longer_than_input (a : Z) :
  xtf8_decode None [xff] XTF8_ERR_REPLACE = Some (Returned 3 []) /\
  xtf8_decode (Some a) [xff] XTF8_ERR_REPLACE
    = Some (Returned (a + 3) [xef; xbf; xbd]) /\
  (length [xff] < length [xef; xbf; xbd])%nat.
Proof.
  repeat split; try (eval_stream; reflexivity). cbn [length]. lia.
Qed.

(** ** [json_unescape] computes [unescape_list] *)

Lemma unescape_hex_list (src : list byte) (s : Z) (l : list byte) :
  forall i cp,
    (forall k z, (k < length l)%nat -> z = s + i + Z.of_nat k ->
                 deref src z = byte_val (nth k l x00)) ->
    unescape_hex src s (length l) i cp = hex_list l cp.
Proof.
  induction l as [|h l IH]; intros i cp H; [reflexivity|].
  cbn [length unescape_hex hex_list].
  rewrite (H 0%nat (s + i)) by (cbn [length]; lia). cbn [nth].
  assert (H' : forall k z, (k < length l)%nat -> z = s + (i + 1) + Z.of_nat k ->
                           deref src z = byte_val (nth k l x00)).
  { intros k z Hk Hz. rewrite (H (S k) z) by (cbn [length]; lia). reflexivity. }
  rewrite !(IH (i + 1) _ H'). reflexivity.
Qed.

(** A turn of the loop outside an escape. *)
Lemma unescape_turn_plain (src : list byte) (x : unescape_state) :
  u_escape x = false ->
  unescape_turn src x
  = if deref src (u_s x) =? chr_backslash
    then Some (mk_unescape (u_d x) (u_mem x) (u_s x) (u_sz x) true)
    else Some (unescape_emit (deref src (u_s x)) x).
Proof. intros H. unfold unescape_turn. rewrite H. reflexivity. Qed.

(** A turn of the loop after a backslash. *)
Lemma unescape_turn_escaped (src : list byte) (x : unescape_state) :
  u_escape x = true ->
  unescape_turn src x
  = match short_escape (deref src (u_s x)) with
    | Some v =>
        Some (mk_unescape (u_d (unescape_emit v x)) (u_mem (unescape_emit v x))
                          (u_s x) (u_sz (unescape_emit v x)) false)
    | None =>
        if deref src (u_s x) =? chr_u then
          if Z.of_nat (length src) <=? u_s x + 5 then None
          else
            match unescape_hex src (u_s x) 4 1 0 with
            | None => None
            | Some codepoint =>
                if 0x1F <? codepoint then None
                else
                  let y := mk_unescape (u_d x) (u_mem x) (u_s x + 4) (u_sz x) (u_escape x) in
                  Some (mk_unescape (u_d (unescape_emit codepoint y))
                                    (u_mem (unescape_emit codepoint y))
                                    (u_s x + 4) (u_sz (unescape_emit codepoint y)) false)
            end
        else None
    end.
Proof.
  intros H. unfold unescape_turn, short_escape. rewrite H.
  repeat match goal with
         | |- context [if ?c =? ?k then _ else _] => destruct (c =? k)
         end; try reflexivity.
Qed.

(** The loop state stands for [D] unescaped so far. *)
Lemma unescape_emit_fields (dst : option Z) (D : list byte) (v : Z) (x : unescape_state) :
  u_d x = ptr_add dst (Z.of_nat (length D)) ->
  u_mem x = visible dst D ->
  u_sz x = Z.of_nat (length D) ->
  u_d (unescape_emit v x) = ptr_add dst (Z.of_nat (length (D ++ [u8 v]))) /\
  u_mem (unescape_emit v x) = visible dst (D ++ [u8 v]) /\
  u_sz (unescape_emit v x) = Z.of_nat (length (D ++ [u8 v])).
Proof.
  intros Hd Hm Hz. unfold unescape_emit. cbn [u_d u_mem u_sz].
  rewrite Hd, Hm, Hz, length_app. cbn [length].
  destruct dst as [a|]; cbn [ptr_add option_map is_null negb visible].
  - repeat split; try (f_equal; lia); try reflexivity.
  - repeat split; try lia; try reflexivity.
Qed.

Lemma unescape_loop_list (dst : option Z) (src : list byte) (n : nat) :
  forall l, (length l <= n)%nat ->
  forall done D x fuel,
    src = done ++ l ->
    u_s x = Z.of_nat (length done) ->
    u_escape x = false ->
    u_d x = ptr_add dst (Z.of_nat (length D)) ->
    u_mem x = visible dst D ->
    u_sz x = Z.of_nat (length D) ->
    (length l + 1 <= fuel)%nat ->
    unescape_loop fuel src x = Some (json_view dst (s_push D (unescape_list l))).
Proof.
  induction n as [|n IH]; intros l Hn done D x fuel Hsrc Hs He Hd Hm Hz Hf.
  - destruct l; [|cbn [length] in Hn; lia].
    destruct fuel as [|fuel]; [cbn [length] in Hf; lia|].
    cbn [unescape_loop unescape_list]. rewrite s_push_done.
    replace (u_s x <? Z.of_nat (length src)) with false
      by (symmetry; apply Z.ltb_ge; rewrite Hsrc, length_app; cbn [length]; lia).
    rewrite He, Hd, Hm, Hz. f_equal.
    destruct dst; reflexivity.
  - destruct l as [|c l1].
    { apply (IH [] ltac:(cbn [length]; lia) done D); assumption. }
    cbn [length] in Hn, Hf.
    destruct fuel as [|fuel]; [lia|].
    cbn [unescape_loop].
    replace (u_s x <? Z.of_nat (length src)) with true
      by (symmetry; apply Z.ltb_lt; rewrite Hsrc, length_app; cbn [length]; lia).
    assert (Hc : deref src (u_s x) = byte_val c).
    { rewrite Hsrc, Hs. apply deref_head. }
    rewrite (unescape_turn_plain _ _ He), Hc.
    cbn [unescape_list].
    destruct (byte_val c =? chr_backslash) eqn:Hbs.
    + (* an escape *)
      destruct fuel as [|fuel]; [lia|].
      cbn [unescape_loop u_s u_escape u_d u_mem u_sz].
      destruct l1 as [|e l2].
      * replace (u_s x + 1 <? Z.of_nat (length src)) with false
          by (symmetry; apply Z.ltb_ge; rewrite Hsrc, length_app; cbn [length]; lia).
        rewrite s_push_aborted, Hm. reflexivity.
      * replace (u_s x + 1 <? Z.of_nat (length src)) with true
          by (symmetry; apply Z.ltb_lt; rewrite Hsrc, length_app; cbn [length]; lia).
        rewrite unescape_turn_escaped by reflexivity.
        cbn [u_s u_escape u_d u_mem u_sz].
        assert (Hech : deref src (u_s x + 1) = byte_val e).
        { rewrite Hsrc, Hs.
          change (c :: e :: l2) with ([c] ++ e :: l2). rewrite app_assoc.
          replace (Z.of_nat (length done) + 1) with (Z.of_nat (length (done ++ [c])))
            by (rewrite length_app; cbn [length]; lia).
          apply deref_head. }
        rewrite Hech.
        destruct (short_escape (byte_val e)) as [v|] eqn:Hse.
        -- (* a two-character escape *)
           rewrite s_push_push.
           apply (IH l2 ltac:(cbn [length] in *; lia) (done ++ [c; e])).
           ++ rewrite Hsrc, <- app_assoc. reflexivity.
           ++ cbn [u_s]. rewrite Hs, length_app. cbn [length]. lia.
           ++ reflexivity.
           ++ cbn [u_d]. apply (unescape_emit_fields dst D v); assumption.
           ++ cbn [u_mem]. apply (unescape_emit_fields dst D v); assumption.
           ++ cbn [u_sz]. apply (unescape_emit_fields dst D v); assumption.
           ++ cbn [length] in *. lia.
        -- destruct (byte_val e =? chr_u) eqn:Hu;
             [|rewrite s_push_aborted, Hm; reflexivity].
           destruct l2 as [|h1 [|h2 [|h3 [|h4 [|r0 l4]]]]];
             try (replace (Z.of_nat (length src) <=? u_s x + 1 + 5) with true
                    by (symmetry; apply Z.leb_le; rewrite Hsrc, length_app;
                        cbn [length]; lia);
                  rewrite s_push_aborted, Hm; reflexivity).
           replace (Z.of_nat (length src) <=? u_s x + 1 + 5) with false
             by (symmetry; apply Z.leb_gt; rewrite Hsrc, length_app; cbn [length]; lia).
           change 4%nat with (length [h1; h2; h3; h4]).
           rewrite (unescape_hex_list src (u_s x + 1) [h1; h2; h3; h4]).
           2:{ intros k z Hk ->. rewrite Hsrc, Hs.
               change (c :: e :: h1 :: h2 :: h3 :: h4 :: r0 :: l4)
                 with ([c; e] ++ [h1; h2; h3; h4] ++ r0 :: l4).
               rewrite app_assoc.
               replace (Z.of_nat (length done) + 1 + 1 + Z.of_nat k)
                 with (Z.of_nat (length (done ++ [c; e])) + Z.of_nat k)
                 by (rewrite length_app; cbn [length]; lia).
               rewrite deref_app_r by lia.
               unfold deref. rewrite Nat2Z.id.
               cbn [length] in Hk.
               destruct k as [|[|[|[|k]]]]; try reflexivity. lia. }
           destruct (hex_list [h1; h2; h3; h4] 0) as [cp|];
             [|rewrite s_push_aborted, Hm; reflexivity].
           destruct (0x1F <? cp); [rewrite s_push_aborted, Hm; reflexivity|].
           cbv zeta. rewrite s_push_push.
           apply (IH (r0 :: l4) ltac:(cbn [length] in *; lia)
                     (done ++ [c; e; h1; h2; h3; h4])).
           ++ rewrite Hsrc, <- app_assoc. reflexivity.
           ++ cbn [u_s]. rewrite Hs, length_app. cbn [length]. lia.
           ++ reflexivity.
           ++ cbn [u_d]. apply (unescape_emit_fields dst D cp); cbn [u_d u_mem u_sz]; assumption.
           ++ cbn [u_mem]. apply (unescape_emit_fields dst D cp); cbn [u_d u_mem u_sz]; assumption.
           ++ cbn [u_sz]. apply (unescape_emit_fields dst D cp); cbn [u_d u_mem u_sz]; assumption.
           ++ cbn [length] in *. lia.
    + (* an ordinary byte *)
      rewrite s_push_push.
      replace [c] with [u8 (byte_val c)] by (rewrite u8_byte_val; reflexivity).
      apply (IH l1 ltac:(lia) (done ++ [c])).
      * rewrite Hsrc, <- app_assoc. reflexivity.
      * cbn [u_s]. unfold unescape_emit. cbn [u_s]. rewrite Hs, length_app. cbn [length]. lia.
      * cbn [u_escape]. unfold unescape_emit. cbn [u_escape]. exact He.
      * cbn [u_d]. apply (unescape_emit_fields dst D (byte_val c)); assumption.
      * cbn [u_mem]. apply (unescape_emit_fields dst D (byte_val c)); assumption.
      * cbn [u_sz]. apply (unescape_emit_fields dst D (byte_val c)); assumption.
      * lia.
Qed.

(** [json_unescape] computes [unescape_list]. *)
Theorem json_unescape_list (dst : option Z) (src : list byte) :
  json_unescape dst src = Some (json_view dst (unescape_list src)).
Proof.
  unfold json_unescape. rewrite <- (s_push_nil (unescape_list src)).
  apply (unescape_loop_list dst src (length src) src (le_n _) []); try reflexivity.
  - cbn [u_d length]. change (Z.of_nat 0) with 0. rewrite ptr_add_0. reflexivity.
  - destruct dst; reflexivity.
Qed.

(** ** Escaping and unescaping *)

Lemma json_escape_write_escaped (src : list byte) :
  forall out, json_escape_write src out = out ++ json_escaped src.
Proof.
  induction src as [|b src IH]; intros out; cbn [json_escape_write].
  - unfold json_escaped. cbn [map concat]. rewrite app_nil_r. reflexivity.
  - rewrite IH, <- app_assoc. reflexivity.
Qed.

Lemma json_escape_byte_length (ch sz : Z) :
  (if ch <=? 0x1F
   then if is_named_control ch then sz + 1 + 1 else sz + 1 + (7 - 2)
   else (if (ch =? chr_backslash) || (ch =? chr_quote) then sz + 1 else sz) + 1)
  = sz + Z.of_nat (length (json_escape_byte ch)).
Proof.
  unfold json_escape_byte, is_named_control.
  destruct (ch <=? 0x1F).
  - destruct (ch =? chr_LF); [cbn [orb length]; lia|].
    destruct (ch =? chr_CR); [cbn [orb length]; lia|].
    destruct (ch =? chr_TAB); [cbn [orb length]; lia|].
    destruct (ch =? chr_BS); [cbn [orb length]; lia|].
    destruct (ch =? chr_FF); cbn [orb length]; lia.
  - destruct ((ch =? chr_backslash) || (ch =? chr_quote)); cbn [app length]; lia.
Qed.

(** The sizing loop of [json_escape] counts the bytes the writing loop
    stores. *)
Lemma json_escape_size_escaped (src : list byte) :
  forall sz, json_escape_size src sz = sz + Z.of_nat (length (json_escaped src)).
Proof.
  induction src as [|b src IH]; intros sz; cbn [json_escape_size].
  - unfold json_escaped. cbn [map concat length]. lia.
  - rewrite IH. cbv zeta. rewrite json_escape_byte_length.
    unfold json_escaped. cbn [map concat]. rewrite length_app. lia.
Qed.

Theorem json_escape_escaped (dst : option Z) (B : list byte) :
  json_escape dst B
  = (match dst with
     | Some a => a + Z.of_nat (length (json_escaped B))
     | None => Z.of_nat (length (json_escaped B))
     end, visible dst (json_escaped B)).
Proof.
  unfold json_escape. destruct dst as [a|]; cbn [visible is_null].
  - rewrite json_escape_write_escaped. reflexivity.
  - rewrite json_escape_size_escaped. reflexivity.
Qed.

Lemma json_escape_byte_nonempty (ch : Z) : json_escape_byte ch <> [].
Proof.
  unfold json_escape_byte. destruct (ch <=? 0x1F); [discriminate|].
  destruct ((ch =? chr_backslash) || (ch =? chr_quote)); discriminate.
Qed.

(** Unfolding [unescape_list] at an ordinary byte, at a two-character
    escape and at a six-character escape. *)
Lemma unescape_list_plain (c : byte) (l : list byte) :
  (byte_val c =? chr_backslash) = false ->
  unescape_list (c :: l) = s_push [c] (unescape_list l).
Proof. intros H. cbn [unescape_list]. rewrite H. reflexivity. Qed.

Lemma unescape_list_short (e : byte) (v : Z) (l : list byte) :
  short_escape (byte_val e) = Some v ->
  unescape_list (x5c :: e :: l) = s_push [u8 v] (unescape_list l).
Proof.
  intros H. cbn [unescape_list].
  change (byte_val x5c =? chr_backslash) with true. cbv iota.
  rewrite H. reflexivity.
Qed.

Lemma unescape_list_long (h1 h2 h3 h4 r0 : byte) (cp : Z) (l : list byte) :
  hex_list [h1; h2; h3; h4] 0 = Some cp ->
  (0x1F <? cp) = false ->
  unescape_list (x5c :: x75 :: h1 :: h2 :: h3 :: h4 :: r0 :: l)
  = s_push [u8 cp] (unescape_list (r0 :: l)).
Proof.
  intros Hh Hr.
  remember (unescape_list (r0 :: l)) as R eqn:HR.
  cbn [unescape_list].
  change (byte_val x5c =? chr_backslash) with true. cbv iota.
  change (short_escape (byte_val x75)) with (@None Z). cbv iota.
  change (byte_val x75 =? chr_u) with true. cbv iota.
  rewrite Hh, Hr. cbn [unescape_list] in HR. rewrite <- HR. reflexivity.
Qed.

(** The shape of one escaped byte, checked for every byte value. *)
Lemma json_escape_byte_shape (b : byte) :
  let z := byte_val b in
  match json_escape_byte z with
  | [c] => c = b /\ (z =? chr_backslash) = false /\ long_escaped b = false
  | [c; e] => c = x5c /\ short_escape (byte_val e) = Some z /\ long_escaped b = false
  | [c; u; h1; h2; h3; h4] =>
      c = x5c /\ u = x75 /\ hex_list [h1; h2; h3; h4] 0 = Some z /\
      (0x1F <? z) = false /\ long_escaped b = true
  | _ => False
  end.
Proof.
  pose proof (forall_bytes
    (fun z =>
       match json_escape_byte z with
       | [c] =>
           Byte.eqb c (u8 z) && negb (z =? chr_backslash) &&
           negb ((z <=? 0x1F) && negb (is_named_control z))
       | [c; e] =>
           Byte.eqb c x5c &&
           match short_escape (byte_val e) with Some v => v =? z | None => false end &&
           negb ((z <=? 0x1F) && negb (is_named_control z))
       | [c; u; h1; h2; h3; h4] =>
           Byte.eqb c x5c && Byte.eqb u x75 &&
           match hex_list [h1; h2; h3; h4] 0 with Some v => v =? z | None => false end &&
           negb (0x1F <? z) && ((z <=? 0x1F) && negb (is_named_control z))
       | _ => false
       end)
    ltac:(vm_compute; reflexivity) b) as A.
  cbv beta in A. cbv zeta. unfold long_escaped.
  destruct (json_escape_byte (byte_val b)) as [|c [|e [|h1 [|h2 [|h3 [|h4 [|x l]]]]]]];
    try discriminate A.
  - apply andb_true_iff in A. destruct A as [A A3].
    apply andb_true_iff in A. destruct A as [A1 A2].
    apply Byte.byte_dec_bl in A1. rewrite u8_byte_val in A1.
    apply negb_true_iff in A2, A3. repeat split; assumption.
  - apply andb_true_iff in A. destruct A as [A A3].
    apply andb_true_iff in A. destruct A as [A1 A2].
    apply Byte.byte_dec_bl in A1. apply negb_true_iff in A3.
    destruct (short_escape (byte_val e)) as [v|]; [|discriminate A2].
    apply Z.eqb_eq in A2. subst v. repeat split; assumption.
  - repeat (apply andb_true_iff in A; let B := fresh "B" in destruct A as [A B]).
    apply Byte.byte_dec_bl in A, B2.
    destruct (hex_list [h1; h2; h3; h4] 0) as [v|]; [|discriminate B1].
    apply Z.eqb_eq in B1. subst v. apply negb_true_iff in B0.
    repeat split; try assumption.
Qed.

(** One escaped byte is unescaped to itself, unless it is a
    six-character escape that the buffer ends in. *)
Lemma unescape_escaped_byte (b : byte) (rest : list byte) :
  (long_escaped b = true -> rest <> []) ->
  unescape_list (json_escape_byte (byte_val b) ++ rest)
  = s_push [b] (unescape_list rest).
Proof.
  intros H. pose proof (json_escape_byte_shape b) as S. cbv zeta in S.
  destruct (json_escape_byte (byte_val b)) as [|c [|e [|h1 [|h2 [|h3 [|h4 [|x l]]]]]]];
    try contradiction.
  - destruct S as (-> & Hb & _). cbn [app]. apply unescape_list_plain, Hb.
  - destruct S as (-> & He & _). cbn [app].
    rewrite (unescape_list_short _ _ _ He), u8_byte_val. reflexivity.
  - destruct S as (-> & -> & Hh & Hr & Hl). cbn [app].
    destruct rest as [|r0 rest]; [exfalso; apply (H Hl); reflexivity|].
    rewrite (unescape_list_long _ _ _ _ _ _ _ Hh Hr), u8_byte_val. reflexivity.
Qed.

Lemma json_escaped_cons (b : byte) (B : list byte) :
  json_escaped (b :: B) = json_escape_byte (byte_val b) ++ json_escaped B.
Proof. reflexivity. Qed.

Lemma json_escaped_nonempty (b : byte) (B : list byte) : json_escaped (b :: B) <> [].
Proof.
  rewrite json_escaped_cons. intros H. apply app_eq_nil in H.
  exact (json_escape_byte_nonempty _ (proj1 H)).
Qed.

Lemma unescape_escaped (B : list byte) :
  ends_in_long_escape B = false ->
  unescape_list (json_escaped B) = S_done B.
Proof.
  induction B as [|b B IH]; intros H; [reflexivity|].
  rewrite json_escaped_cons. cbn [ends_in_long_escape] in H.
  destruct B as [|b' B'].
  - rewrite unescape_escaped_byte by (rewrite H; discriminate). reflexivity.
  - rewrite unescape_escaped_byte by (intros _; apply json_escaped_nonempty).
    rewrite (IH H). reflexivity.
Qed.

Lemma unescape_escaped_fails (B : list byte) :
  ends_in_long_escape B = true ->
  exists o, unescape_list (json_escaped B) = S_aborted o.
Proof.
  induction B as [|b B IH]; intros H; [discriminate|].
  rewrite json_escaped_cons. cbn [ends_in_long_escape] in H.
  destruct B as [|b' B'].
  - pose proof (json_escape_byte_shape b) as S. cbv zeta in S.
    destruct (json_escape_byte (byte_val b)) as [|c [|e [|h1 [|h2 [|h3 [|h4 [|x l]]]]]]];
      try contradiction.
    + destruct S as (_ & _ & Hl). congruence.
    + destruct S as (_ & _ & Hl). congruence.
    + exists []. destruct S as (-> & -> & _). reflexivity.
  - rewrite unescape_escaped_byte by (intros _; apply json_escaped_nonempty).
    destruct (IH H) as [o ->]. cbn [s_push]. eauto.
Qed.

(** Unescaping an escaped buffer gives the buffer back, unless it ends
    in a control byte that has no two-character escape. *)
Theorem json_roundtrip (a a' : Z) (B : list byte) :
  ends_in_long_escape B = false ->
  json_unescape None (snd (json_escape (Some a) B))
    = Some (Z.of_nat (length B), []) /\
  json_unescape (Some a') (snd (json_escape (Some a) B))
    = Some (a' + Z.of_nat (length B), B).
Proof.
  intros H. rewrite json_escape_escaped. cbn [snd visible is_null].
  rewrite !json_unescape_list, (unescape_escaped B H). split; reflexivity.
Qed.

(** In that case [json_unescape] reports an error. *)
Theorem json_roundtrip_fails (a : Z) (dst : option Z) (B : list byte) :
  ends_in_long_escape B = true ->
  exists w,
    json_unescape dst (snd (json_escape (Some a) B)) = Some (JSON_ERR_UNESCAPE, w).
Proof.
  intros H. rewrite json_escape_escaped. cbn [snd visible is_null].
  rewrite json_unescape_list.
  destruct (unescape_escaped_fails B H) as [o ->]. cbn [json_view]. eauto.
Qed.

(** [json_unescape] returns, whatever its input is. *)
Corollary json_unescape_total (dst : option Z) (src : list byte) :
  exists r, json_unescape dst src = Some r.
Proof. rewrite json_unescape_list. eauto. Qed.

(** C8 fails on the code: a control byte without a short escape, at the
    end of the buffer, is escaped to six bytes that [json_unescape]
    rejects as a truncated sequence, because its test [s + 5 >= end]
    asks for one byte more than the escape has. *)
Theorem json_roundtrip_fails_on_final_control_byte (a : Z) (dst : option Z) :
  json_escape None [x01] = (6, []) /\
  json_escape (Some a) [x01] = (a + 6, [x5c; x75; x30; x30; x30; x31]) /\
  json_unescape dst [x5c; x75; x30; x30; x30; x31] = Some (JSON_ERR_UNESCAPE, []).
Proof.
  split; [reflexivity|]. split; [reflexivity|].
  destruct dst; vm_compute; reflexivity.
Qed.

(** The part of C8 that holds: backslash and quote. *)
Lemma json_backslash_quote :
  json_escape None [x5c; x22] = (4, []) /\
  json_escape (Some 4096) [x5c; x22] = (4096 + 4, [x5c; x5c; x5c; x22]) /\
  json_unescape None [x5c; x5c; x5c; x22] = Some (2, []) /\
  json_unescape (Some 4096) [x5c; x5c; x5c; x22] = Some (4096 + 2, [x5c; x22]).
Proof. repeat split; vm_compute; reflexivity. Qed.

(** * Further properties of the transcoder *)

(** ** More enumeration *)

Lemma forall_below (n : nat) (P : Z -> bool) :
  forallb P (map Z.of_nat (seq 0 n)) = true ->
  forall z, 0 <= z < Z.of_nat n -> P z = true.
Proof.
  intros H z Hz. rewrite forallb_forall in H. apply H.
  replace z with (Z.of_nat (Z.to_nat z)) by lia.
  apply in_map, in_seq. lia.
Qed.

(** Masking with [2^n - 1] leaves a value below [2^n]. *)
Lemma land_ones_range (z n : Z) : 0 <= n -> 0 <= Z.land z (Z.ones n) < 2 ^ n.
Proof.
  intros H. rewrite Z.land_ones by exact H. apply Z.mod_pos_bound. lia.
Qed.

(** ** One step of the stream *)

Lemma stream_cons (f : Z -> Z -> list byte -> byte -> emit)
    (st cp : Z) (pend : list byte) (b : byte) (rest : list byte) :
  stream f st cp pend (b :: rest)
  = match stream_step f st cp pend b with
    | Step_abort o => S_aborted o
    | Step_go o st' cp' pend' => s_push o (stream f st' cp' pend' rest)
    end.
Proof.
  cbn [stream]. unfold stream_step.
  destruct (f st cp pend b) as [|o st' cp' pend'|o]; [reflexivity..|].
  destruct (f UTF8_ACCEPT 0 [] b) as [|o2 st2 cp2 pend2|o2].
  - apply s_push_aborted.
  - apply s_push_push.
  - apply s_push_push.
Qed.

(** What a call returns tells whether the stream was aborted, when the
    destination lies below the sentinel. *)
Lemma view_aborted (dst : option Z) (src : list byte) (r : stream_result) :
  fits dst src ->
  (length (s_bytes r) <= 3 * length src)%nat ->
  forall ret w, view dst r = Returned ret w ->
  (ret = XTF8_ABORTED <-> exists o, r = S_aborted o).
Proof.
  intros [F0 F1] Hl ret w. destruct r as [o|o]; cbn [view s_bytes] in *.
  - intros [= <- _]. split; eauto.
  - intros [= <- _]. split.
    + intros E. exfalso. destruct dst as [a|]; cbn [uintptr] in *; lia.
    + intros [o' E]. discriminate.
Qed.

(** ** ASCII bytes pass through *)

Lemma filter_ascii_none (l : list byte) :
  Forall non_ascii l -> filter is_ascii l = [].
Proof.
  intros H. induction H as [|b l Hb _ IH]; [reflexivity|].
  cbn [filter]. unfold is_ascii. unfold non_ascii in Hb.
  destruct (byte_val b <? 128) eqn:E; [apply Z.ltb_lt in E; lia | exact IH].
Qed.

Lemma utf8_3_non_ascii (cp : Z) : Forall non_ascii (utf8_3 cp).
Proof.
  unfold utf8_3, non_ascii.
  pose proof (land_ones_range (Z.shiftr cp 12) 4 ltac:(lia)) as H1.
  pose proof (land_ones_range (Z.shiftr cp 6) 6 ltac:(lia)) as H2.
  pose proof (land_ones_range cp 6 ltac:(lia)) as H3.
  change (Z.ones 4) with 0x0F in H1. change (Z.ones 6) with 0x3F in H2, H3.
  change (2 ^ 4) with (Z.of_nat 16) in H1. change (2 ^ 6) with (Z.of_nat 64) in H2, H3.
  repeat constructor; apply Z.leb_le.
  - apply (forall_below 16 (fun r => 0x80 <=? byte_val (u8 (Z.lor r 0xE0)))
             ltac:(vm_compute; reflexivity) _ H1).
  - apply (forall_below 64 (fun r => 0x80 <=? byte_val (u8 (Z.lor r 0x80)))
             ltac:(vm_compute; reflexivity) _ H2).
  - apply (forall_below 64 (fun r => 0x80 <=? byte_val (u8 (Z.lor r 0x80)))
             ltac:(vm_compute; reflexivity) _ H3).
Qed.

Lemma pua_maps_non_ascii (l : list byte) : Forall non_ascii (concat (map pua_map l)).
Proof.
  induction l as [|b l IH]; [constructor|].
  cbn [map concat]. apply Forall_app. split; [apply utf8_3_non_ascii | exact IH].
Qed.

(** An ASCII byte is accepted only between two characters, as the
    codepoint of its own value. *)
Lemma ascii_accepted (st c : Z) (b : byte) (c' : Z) :
  In st utf8_states ->
  utf8_decode st c (byte_val b) = (UTF8_ACCEPT, c') ->
  non_ascii b \/ (st = UTF8_ACCEPT /\ c' = byte_val b).
Proof.
  intros Hst E.
  pose proof (forall_states_bytes
    (fun st z => (0x80 <=? z) || negb (utf8_next st z =? UTF8_ACCEPT)
                 || ((st =? UTF8_ACCEPT) && (snd (utf8_decode UTF8_ACCEPT 0 z) =? z)))
    ltac:(vm_compute; reflexivity) st b Hst) as A.
  cbv beta in A.
  assert (En : utf8_next st (byte_val b) = UTF8_ACCEPT)
    by (rewrite <- (utf8_decode_state st c), E; reflexivity).
  rewrite En in A. cbn [Z.eqb UTF8_ACCEPT negb orb] in A.
  change (0 =? 0) with true in A. cbn [negb] in A. rewrite orb_false_r in A.
  apply orb_true_iff in A. destruct A as [A|A].
  - left. apply Z.leb_le in A. exact A.
  - right. apply andb_true_iff in A. destruct A as [A1 A2].
    apply Z.eqb_eq in A1, A2. subst st. split; [reflexivity|].
    rewrite utf8_decode_accept in E. rewrite E in A2. exact A2.
Qed.

Lemma in_pua_not_ascii (cp : Z) : in_pua cp = true -> 0x80 <= cp.
Proof.
  unfold in_pua, XTF8_PUA_START. intros H. apply andb_true_iff in H.
  destruct H as [H _]. apply Z.leb_le in H. lia.
Qed.

Lemma enc_byte_ascii_out (e st cp : Z) (pend : list byte) (b : byte)
    (o : list byte) (st' cp' : Z) (pend' : list byte) :
  pending_ok st pend ->
  enc_byte e st cp pend b = E_out o st' cp' pend' ->
  filter is_ascii o = filter is_ascii [b].
Proof.
  intros P. pose proof (pending_ok_state _ _ P) as Hst.
  pose proof (filter_ascii_none pend (proj2 (proj2 (proj2 P)))) as Hp.
  unfold enc_byte. emit_cases st cp b.
  - destruct (in_pua cp'0) eqn:Hpua.
    + destruct (e =? XTF8_ERR_ABORT); [discriminate|].
      intros [= <- <- <- <-]. subst st'0. rewrite Ha in E.
      destruct (ascii_accepted _ _ _ _ Hst E) as [Hb|[_ Hc]].
      * rewrite (filter_ascii_none [b]) by (constructor; [exact Hb|constructor]).
        apply filter_ascii_none, utf8_3_non_ascii.
      * apply in_pua_not_ascii in Hpua.
        rewrite (filter_ascii_none [b])
          by (constructor; [unfold non_ascii; lia|constructor]).
        apply filter_ascii_none, utf8_3_non_ascii.
    + intros [= <- <- <- <-]. rewrite filter_app, Hp. reflexivity.
  - destruct (st =? UTF8_ACCEPT) eqn:Hs; [|discriminate].
    intros [= <- <- <- <-]. apply Z.eqb_eq in Hs. subst st.
    rewrite (filter_ascii_none _ (pua_maps_non_ascii _)).
    symmetry. apply filter_ascii_none. constructor; [|constructor].
    apply utf8_next_reject_non_ascii. congruence.
  - intros [= <- <- <- <-]. symmetry. apply filter_ascii_none.
    constructor; [|constructor].
    apply (utf8_next_pending_non_ascii st); [exact Hst | congruence | congruence].
Qed.

Lemma enc_byte_ascii_retry (e st cp : Z) (pend : list byte) (b : byte) (o : list byte) :
  enc_byte e st cp pend b = E_retry o -> filter is_ascii o = [].
Proof.
  unfold enc_byte. emit_cases st cp b.
  - destruct (in_pua cp'); [destruct (e =? XTF8_ERR_ABORT)|]; discriminate.
  - destruct (st =? UTF8_ACCEPT); [discriminate|].
    intros [= <-]. apply filter_ascii_none, pua_maps_non_ascii.
  - discriminate.
Qed.

Lemma dec_byte_ascii_out (e st cp : Z) (pend : list byte) (b : byte)
    (o : list byte) (st' cp' : Z) (pend' : list byte) :
  pending_ok st pend ->
  dec_byte e st cp pend b = E_out o st' cp' pend' ->
  filter is_ascii o = filter is_ascii [b].
Proof.
  intros P. pose proof (pending_ok_state _ _ P) as Hst.
  pose proof (filter_ascii_none pend (proj2 (proj2 (proj2 P)))) as Hp.
  unfold dec_byte. emit_cases st cp b.
  - destruct (in_pua cp'0) eqn:Hpua.
    + intros [= <- <- <- <-]. subst st'0. rewrite Ha in E.
      rewrite (filter_ascii_none [pua_unmap cp'0])
        by (constructor; [apply pua_unmap_non_ascii, Hpua|constructor]).
      symmetry. apply filter_ascii_none. constructor; [|constructor].
      destruct (ascii_accepted _ _ _ _ Hst E) as [Hb|[_ Hc]]; [exact Hb|].
      apply in_pua_not_ascii in Hpua. unfold non_ascii. lia.
    + intros [= <- <- <- <-]. rewrite filter_app, Hp. reflexivity.
  - destruct (e =? XTF8_ERR_ABORT); [discriminate|].
    destruct (st =? UTF8_ACCEPT) eqn:Hs; [|discriminate].
    intros [= <- <- <- <-]. apply Z.eqb_eq in Hs. subst st.
    unfold replacement. rewrite (filter_ascii_none _ (utf8_3_non_ascii _)).
    symmetry. apply filter_ascii_none. constructor; [|constructor].
    apply utf8_next_reject_non_ascii. congruence.
  - intros [= <- <- <- <-]. symmetry. apply filter_ascii_none.
    constructor; [|constructor].
    apply (utf8_next_pending_non_ascii st); [exact Hst | congruence | congruence].
Qed.

Lemma dec_byte_ascii_retry (e st cp : Z) (pend : list byte) (b : byte) (o : list byte) :
  dec_byte e st cp pend b = E_retry o -> filter is_ascii o = [].
Proof.
  unfold dec_byte. emit_cases st cp b.
  - destruct (in_pua cp'); discriminate.
  - destruct (e =? XTF8_ERR_ABORT); [discriminate|].
    destruct (st =? UTF8_ACCEPT); [discriminate|].
    intros [= <-]. apply filter_ascii_none, utf8_3_non_ascii.
  - discriminate.
Qed.

Section Ascii.

Variable f : Z -> Z -> list byte -> byte -> emit.

Hypothesis f_out : forall st c pend b o st' c' pend',
  pending_ok st pend ->
  f st c pend b = E_out o st' c' pend' ->
  pending_ok st' pend' /\ filter is_ascii o = filter is_ascii [b].

Hypothesis f_retry : forall st c pend b o,
  f st c pend b = E_retry o -> filter is_ascii o = [].

Hypothesis f_fresh : forall c b o, f UTF8_ACCEPT c [] b <> E_retry o.

Lemma step_ascii (st c : Z) (pend : list byte) (b : byte)
    (o : list byte) (st' c' : Z) (pend' : list byte) :
  pending_ok st pend ->
  stream_step f st c pend b = Step_go o st' c' pend' ->
  pending_ok st' pend' /\ filter is_ascii o = filter is_ascii [b].
Proof.
  intros P. unfold stream_step.
  destruct (f st c pend b) as [|o1 st1 c1 pend1|o1] eqn:Ef; [discriminate| |].
  - intros [= <- <- <- <-]. exact (f_out _ _ _ _ _ _ _ _ P Ef).
  - pose proof (f_retry _ _ _ _ _ Ef) as H1.
    destruct (f UTF8_ACCEPT 0 [] b) as [|o2 st2 c2 pend2|o2] eqn:Ef2; [discriminate| |].
    + intros [= <- <- <- <-].
      destruct (f_out _ _ _ _ _ _ _ _ pending_ok_nil Ef2) as [P2 H2].
      split; [exact P2|]. rewrite filter_app, H1. exact H2.
    + exfalso. exact (f_fresh _ _ _ Ef2).
Qed.

Lemma stream_ascii (rest : list byte) :
  forall st c pend O,
    pending_ok st pend ->
    stream f st c pend rest = S_done O ->
    filter is_ascii O = filter is_ascii rest.
Proof.
  induction rest as [|b rest IH]; intros st c pend O P.
  - cbn [stream]. intros [= <-]. reflexivity.
  - rewrite stream_cons.
    destruct (stream_step f st c pend b) as [o|o st' c' pend'] eqn:Es; [discriminate|].
    destruct (step_ascii _ _ _ _ _ _ _ _ P Es) as [P' Ho].
    intros H. apply s_push_done_inv in H. destruct H as (O' & HO' & ->).
    rewrite filter_app, Ho, (IH _ _ _ _ P' HO').
    change (b :: rest) with ([b] ++ rest). rewrite filter_app. reflexivity.
Qed.

End Ascii.

Lemma enc_fresh_no_retry (e c : Z) (b : byte) (o : list byte) :
  enc_byte e UTF8_ACCEPT c [] b <> E_retry o.
Proof.
  intros Ef. apply enc_byte_retry in Ef. destruct Ef as [_ Hn]. apply Hn. reflexivity.
Qed.

Lemma dec_fresh_no_retry (e c : Z) (b : byte) (o : list byte) :
  dec_byte e UTF8_ACCEPT c [] b <> E_retry o.
Proof.
  intros Ef. apply dec_byte_retry in Ef. apply Ef. reflexivity.
Qed.

Lemma enc_stream_ascii (e : Z) (src O : list byte) :
  stream (enc_byte e) UTF8_ACCEPT 0 [] src = S_done O ->
  filter is_ascii O = filter is_ascii src.
Proof.
  apply (stream_ascii (enc_byte e)); [| |apply enc_fresh_no_retry|apply pending_ok_nil].
  - intros st c pend b o st' c' pend' P Ef. split.
    + exact (proj2 (enc_byte_out _ _ _ _ _ _ _ _ _ P Ef)).
    + exact (enc_byte_ascii_out _ _ _ _ _ _ _ _ _ P Ef).
  - intros st c pend b o Ef. exact (enc_byte_ascii_retry _ _ _ _ _ _ Ef).
Qed.

Lemma dec_stream_ascii (e : Z) (src O : list byte) :
  stream (dec_byte e) UTF8_ACCEPT 0 [] src = S_done O ->
  filter is_ascii O = filter is_ascii src.
Proof.
  apply (stream_ascii (dec_byte e)); [| |apply dec_fresh_no_retry|apply pending_ok_nil].
  - intros st c pend b o st' c' pend' P Ef. split.
    + exact (dec_byte_out _ _ _ _ _ _ _ _ _ P Ef).
    + exact (dec_byte_ascii_out _ _ _ _ _ _ _ _ _ P Ef).
  - intros st c pend b o Ef. exact (dec_byte_ascii_retry _ _ _ _ _ _ Ef).
Qed.

(** Both directions of the transcoder leave the ASCII bytes of the
    input alone: a call that is not aborted stores them all, in their
    order, and stores no other ASCII byte.  This is what the warning in
    [xtf8_decode] asks for: no byte below 0x80 comes out of a reserved
    codepoint, a replaced sequence or a dropped tail. *)
Theorem ascii_bytes_preserved
    (decode : bool) (a : Z) (src : list byte) (error ret : Z) (w : list byte) :
  f_xtf8 decode (Some a) src error = Some (Returned ret w) ->
  ret <> XTF8_ABORTED ->
  filter is_ascii w = filter is_ascii src.
Proof.
  destruct decode; cbn [f_xtf8].
  - rewrite xtf8_decode_stream.
    destruct (stream _ _ _ _ _) as [o|o] eqn:Es; cbn [view visible is_null];
      intros [= <- <-] Hr; [exfalso; apply Hr; reflexivity|].
    exact (dec_stream_ascii _ _ _ Es).
  - rewrite xtf8_encode_stream.
    destruct (stream _ _ _ _ _) as [o|o] eqn:Es; cbn [view visible is_null];
      intros [= <- <-] Hr; [exfalso; apply Hr; reflexivity|].
    exact (enc_stream_ascii _ _ _ Es).
Qed.

Lemma ascii_bytes_preserved_witness :
  f_xtf8 true (Some 4096) [x41; xff; x42; xc2] XTF8_ERR_REPLACE
    = Some (Returned (4096 + 5) [x41; xef; xbf; xbd; x42]) /\
  filter is_ascii [x41; xef; xbf; xbd; x42] = filter is_ascii [x41; xff; x42; xc2].
Proof.
  assert (H : f_xtf8 true (Some 4096) [x41; xff; x42; xc2] XTF8_ERR_REPLACE
              = Some (Returned (4096 + 5) [x41; xef; xbf; xbd; x42]))
    by (vm_compute; reflexivity).
  split; [exact H|].
  apply (ascii_bytes_preserved true 4096 [x41; xff; x42; xc2] XTF8_ERR_REPLACE
           (4096 + 5) [x41; xef; xbf; xbd; x42] H).
  unfold XTF8_ABORTED. lia.
Defined.

(** ** When the decoder aborts *)

Lemma aborted_push (o : list byte) (r : stream_result) : aborted (s_push o r) = aborted r.
Proof. destruct r; reflexivity. Qed.

Lemma scan_state_cons (st : Z) (b : byte) (l : list byte) :
  scan_state st (b :: l) = scan_state (utf8_next st (byte_val b)) l.
Proof. reflexivity. Qed.

(** With the ABORT policy the decoder is the scanner: it is aborted when
    the scanner rejects a byte, and only then. *)
Lemma dec_abort_scan (rest : list byte) :
  forall st c pend,
    st <> UTF8_REJECT ->
    aborted (stream (dec_byte XTF8_ERR_ABORT) st c pend rest)
    = (scan_state st rest =? UTF8_REJECT).
Proof.
  induction rest as [|b rest IH]; intros st c pend Hst.
  - cbn [stream aborted scan_state fold_left]. symmetry. apply Z.eqb_neq, Hst.
  - rewrite scan_state_cons. cbn [stream].
    set (S := stream (dec_byte XTF8_ERR_ABORT)) in *.
    unfold dec_byte. emit_cases st c b.
    + rewrite <- Est, Ha.
      destruct (in_pua cp'); rewrite aborted_push; apply IH; discriminate.
    + rewrite <- Est, Hr, scan_state_reject. reflexivity.
    + rewrite <- Est, aborted_push. apply IH, Hr.
Qed.

Lemma view_returned_aborted (dst : option Z) (src : list byte) (r : stream_result) :
  fits dst src ->
  (length (s_bytes r) <= 3 * length src)%nat ->
  (returned (Some (view dst r)) = Some XTF8_ABORTED <-> aborted r = true).
Proof.
  intros [F0 F1] Hl. destruct r as [o|o]; cbn [view returned aborted s_bytes] in *.
  - split; reflexivity.
  - split; [|discriminate]. intros [= E]. exfalso.
    destruct dst as [a|]; cbn [uintptr] in *; lia.
Qed.

(** [xtf8_decode] with the ABORT policy returns the error value exactly
    for the inputs in which the scanner of [utf8.h], run from the
    start, rejects a byte.  An input that only ends inside a multi-byte
    sequence is not among them. *)
Theorem decode_abort_iff_rejected (dst : option Z) (src : list byte) :
  fits dst src ->
  (returned (xtf8_decode dst src XTF8_ERR_ABORT) = Some XTF8_ABORTED <->
   fst (utf8_scan UTF8_ACCEPT 0 src) = UTF8_REJECT).
Proof.
  intros F. rewrite xtf8_decode_stream.
  rewrite (view_returned_aborted dst src _ F (dec_stream_length _ src)).
  rewrite dec_abort_scan by discriminate.
  rewrite utf8_scan_state. apply Z.eqb_eq.
Qed.

Lemma decode_abort_iff_rejected_witness :
  fits (Some 4096) [x61; xc2; x62] /\
  returned (xtf8_decode (Some 4096) [x61; xc2; x62] XTF8_ERR_ABORT) = Some XTF8_ABORTED /\
  fst (utf8_scan UTF8_ACCEPT 0 [x61; xc2; x62]) = UTF8_REJECT.
Proof.
  assert (F : fits (Some 4096) [x61; xc2; x62]) by (vm_compute; split; [discriminate|reflexivity]).
  split; [exact F|].
  assert (R : fst (utf8_scan UTF8_ACCEPT 0 [x61; xc2; x62]) = UTF8_REJECT)
    by (vm_compute; reflexivity).
  split; [|exact R].
  exact (proj2 (decode_abort_iff_rejected (Some 4096) [x61; xc2; x62] F) R).
Defined.

(** ** The policy matters only when the call is aborted *)

Lemma dec_byte_policy (e st c : Z) (pend : list byte) (b : byte) :
  dec_byte XTF8_ERR_ABORT st c pend b = E_abort \/
  dec_byte XTF8_ERR_ABORT st c pend b = dec_byte e st c pend b.
Proof.
  unfold dec_byte. emit_cases st c b.
  - right. reflexivity.
  - left. reflexivity.
  - right. reflexivity.
Qed.

Section Policy.

Variable f : Z -> Z -> Z -> list byte -> byte -> emit.

Hypothesis f_policy : forall e st c pend b,
  f XTF8_ERR_ABORT st c pend b = E_abort \/
  f XTF8_ERR_ABORT st c pend b = f e st c pend b.

Lemma step_policy (e st c : Z) (pend : list byte) (b : byte)
    (o : list byte) (st' c' : Z) (pend' : list byte) :
  stream_step (f XTF8_ERR_ABORT) st c pend b = Step_go o st' c' pend' ->
  stream_step (f e) st c pend b = Step_go o st' c' pend'.
Proof.
  unfold stream_step.
  destruct (f_policy e st c pend b) as [-> | <-]; [discriminate|].
  destruct (f XTF8_ERR_ABORT st c pend b) as [|o1 st1 c1 pend1|o1]; [discriminate|auto|].
  destruct (f_policy e UTF8_ACCEPT 0 [] b) as [-> | <-]; [discriminate|].
  auto.
Qed.

Lemma stream_policy (e : Z) (rest : list byte) :
  forall st c pend O,
    stream (f XTF8_ERR_ABORT) st c pend rest = S_done O ->
    stream (f e) st c pend rest = S_done O.
Proof.
  induction rest as [|b rest IH]; intros st c pend O; [exact (fun H => H)|].
  rewrite !stream_cons.
  destruct (stream_step (f XTF8_ERR_ABORT) st c pend b) as [o|o st' c' pend'] eqn:Es;
    [discriminate|].
  rewrite (step_policy e _ _ _ _ _ _ _ _ Es).
  intros H. apply s_push_done_inv in H. destruct H as (O' & HO' & ->).
  rewrite (IH _ _ _ _ HO'). reflexivity.
Qed.

End Policy.

(** A call with the ABORT policy that is not aborted has met nothing
    for the policy to decide: every other value of [error] gives the
    same return value and the same bytes, for both functions. *)
Theorem policy_matters_only_on_abort
    (decode : bool) (dst : option Z) (src : list byte) (error ret : Z) (w : list byte) :
  f_xtf8 decode dst src XTF8_ERR_ABORT = Some (Returned ret w) ->
  ret <> XTF8_ABORTED ->
  f_xtf8 decode dst src error = Some (Returned ret w).
Proof.
  destruct decode; cbn [f_xtf8].
  - rewrite !xtf8_decode_stream.
    destruct (stream (dec_byte XTF8_ERR_ABORT) _ _ _ _) as [o|o] eqn:Es; cbn [view];
      intros [= <- <-] Hr; [exfalso; apply Hr; reflexivity|].
    rewrite (stream_policy dec_byte dec_byte_policy error _ _ _ _ _ Es). reflexivity.
  - rewrite !xtf8_encode_stream.
    destruct (stream (enc_byte XTF8_ERR_ABORT) _ _ _ _) as [o|o] eqn:Es; cbn [view];
      intros [= <- <-] Hr; [exfalso; apply Hr; reflexivity|].
    rewrite (stream_policy enc_byte enc_byte_policy error _ _ _ _ _ Es). reflexivity.
Qed.

Lemma policy_matters_only_on_abort_witness :
  f_xtf8 false (Some 4096) [x61; xff] XTF8_ERR_ABORT
    = Some (Returned (4096 + 4) [x61; xee; xbf; xbf]) /\
  f_xtf8 false (Some 4096) [x61; xff] XTF8_ERR_REPLACE
    = Some (Returned (4096 + 4) [x61; xee; xbf; xbf]).
Proof.
  assert (H : f_xtf8 false (Some 4096) [x61; xff] XTF8_ERR_ABORT
              = Some (Returned (4096 + 4) [x61; xee; xbf; xbf]))
    by (vm_compute; reflexivity).
  split; [exact H|].
  apply (policy_matters_only_on_abort false (Some 4096) [x61; xff] XTF8_ERR_REPLACE
           (4096 + 4) [x61; xee; xbf; xbf] H).
  unfold XTF8_ABORTED. lia.
Defined.

(** ** The decoder does not grow its input unless it replaces *)

Lemma dec_abort_length (rest : list byte) :
  forall st c pend,
    (length (s_bytes (stream (dec_byte XTF8_ERR_ABORT) st c pend rest))
     <= length pend + length rest)%nat.
Proof.
  induction rest as [|b rest IH]; intros st c pend; cbn [stream].
  - cbn [s_bytes length]. lia.
  - set (S := stream (dec_byte XTF8_ERR_ABORT)) in *.
    unfold dec_byte. emit_cases st c b.
    + destruct (in_pua cp'); rewrite length_s_push;
        specialize (IH UTF8_ACCEPT 0 []); fold S in IH;
        rewrite ?length_app; cbn [length] in *; lia.
    + change (XTF8_ERR_ABORT =? XTF8_ERR_ABORT) with true. cbn [s_bytes length]. lia.
    + rewrite length_s_push. specialize (IH st' cp' (pend ++ [b])). fold S in IH.
      rewrite length_app in IH. cbn [length] in *. lia.
Qed.

(** With the ABORT policy, or for an input in which the scanner rejects
    nothing, [xtf8_decode] stores at most as many bytes as it has read:
    a destination of the size of the input is enough, as the header says.
    (With the REPLACE policy and a rejected byte it is not.) *)
Theorem decode_without_replacement_fits_input
    (dst : option Z) (src : list byte) (error : Z) :
  error = XTF8_ERR_ABORT \/ fst (utf8_scan UTF8_ACCEPT 0 src) <> UTF8_REJECT ->
  exists ret w,
    xtf8_decode dst src error = Some (Returned ret w) /\
    (length w <= length src)%nat /\
    (ret = XTF8_ABORTED \/
     uintptr dst <= ret <= uintptr dst + Z.of_nat (length src)).
Proof.
  intros H.
  assert (A : exists r, stream (dec_byte error) UTF8_ACCEPT 0 [] src = r /\
                        (length (s_bytes r) <= length src)%nat).
  { pose proof (dec_abort_length src UTF8_ACCEPT 0 []) as L. cbn [length] in L.
    destruct H as [->|H]; [eauto|].
    destruct (stream (dec_byte XTF8_ERR_ABORT) UTF8_ACCEPT 0 [] src) as [o|o] eqn:Es.
    - exfalso. apply H. rewrite utf8_scan_state. apply Z.eqb_eq.
      rewrite <- (dec_abort_scan src UTF8_ACCEPT 0 []) by discriminate.
      rewrite Es. reflexivity.
    - rewrite (stream_policy dec_byte dec_byte_policy error _ _ _ _ _ Es). eauto. }
  destruct A as (r & Er & L). rewrite xtf8_decode_stream, Er.
  destruct r as [o|o]; cbn [view s_bytes] in *.
  - eexists _, _. split; [reflexivity|]. split; [|left; reflexivity].
    destruct dst; cbn [visible is_null length]; lia.
  - eexists _, _. split; [reflexivity|]. split.
    + destruct dst; cbn [visible is_null length]; lia.
    + right. destruct dst; cbn [uintptr]; lia.
Qed.

Lemma decode_without_replacement_fits_input_witness :
  exists ret w,
    xtf8_decode (Some 4096) [x61; xee; xbe; x80; xc3] XTF8_ERR_REPLACE
      = Some (Returned ret w) /\
    (length w <= length [x61; xee; xbe; x80; xc3])%nat /\
    (ret = XTF8_ABORTED \/
     uintptr (Some 4096) <= ret
       <= uintptr (Some 4096) + Z.of_nat (length [x61; xee; xbe; x80; xc3])).
Proof.
  apply (decode_without_replacement_fits_input (Some 4096) [x61; xee; xbe; x80; xc3]
           XTF8_ERR_REPLACE).
  right. vm_compute. discriminate.
Defined.

(** ** When the encoder aborts *)

Lemma forall_byte_pairs (P : Z -> Z -> bool) :
  forallb (fun z1 => forallb (P z1) byte_values) byte_values = true ->
  forall b1 b2, P (byte_val b1) (byte_val b2) = true.
Proof.
  intros H b1 b2.
  apply (forall_bytes (P (byte_val b1))).
  apply (forall_bytes (fun z1 => forallb (P z1) byte_values) H).
Qed.

Lemma pair_check_all (b1 b2 : byte) : pair_check (byte_val b1) (byte_val b2) = true.
Proof. apply forall_byte_pairs. vm_compute. reflexivity. Qed.

Lemma byte_val_inj (a b : byte) : byte_val a = byte_val b -> a = b.
Proof. intros H. rewrite <- (u8_byte_val a), <- (u8_byte_val b), H. reflexivity. Qed.

Lemma is_pending_spec (st : Z) :
  is_pending st = true <-> st <> UTF8_ACCEPT /\ st <> UTF8_REJECT.
Proof.
  unfold is_pending. rewrite andb_true_iff, !negb_true_iff, !Z.eqb_neq. reflexivity.
Qed.

(** A byte read in state 24 ends the character or is rejected. *)
Lemma last_byte_ends (b : byte) : is_pending (utf8_next 24 (byte_val b)) = false.
Proof.
  apply negb_true_iff.
  apply (forall_bytes (fun z => negb (is_pending (utf8_next 24 z)))).
  vm_compute. reflexivity.
Qed.

(** A byte read in state 36 leads to state 24 or is rejected. *)
Lemma middle_byte_next (b : byte) :
  utf8_next 36 (byte_val b) = 24 \/ utf8_next 36 (byte_val b) = UTF8_REJECT.
Proof.
  pose proof (forall_bytes
    (fun z => (utf8_next 36 z =? 24) || (utf8_next 36 z =? UTF8_REJECT))
    ltac:(vm_compute; reflexivity) b) as A.
  apply orb_true_iff in A. destruct A as [A|A]; apply Z.eqb_eq in A; auto.
Qed.

(** The codepoint after a continuation byte holds the codepoint before
    it, six bits up. *)
Lemma continuation_codepoint (st c : Z) (b : byte) :
  st <> UTF8_ACCEPT -> 0 <= c < 2 ^ 26 ->
  Z.shiftr (snd (utf8_decode st c (byte_val b))) 6 = c.
Proof.
  intros Hst Hc. unfold utf8_decode. cbn [snd].
  apply Z.eqb_neq in Hst. rewrite Hst. cbn [negb].
  rewrite Z.shiftr_lor.
  assert (H1 : Z.shiftr (Z.land (byte_val b) 63) 6 = 0).
  { pose proof (land_ones_range (byte_val b) 6 ltac:(lia)) as R.
    change (Z.ones 6) with 63 in R.
    rewrite Z.shiftr_div_pow2 by lia. apply Z.div_small. exact R. }
  rewrite H1, Z.lor_0_l. unfold u32.
  rewrite Z.shiftl_mul_pow2 by lia.
  rewrite Z.mod_small by (change (2 ^ 32) with (2 ^ 26 * 2 ^ 6); nia).
  rewrite Z.shiftr_div_pow2 by lia. apply Z.div_mul. lia.
Qed.

Lemma in_pua_shift (cp : Z) : in_pua cp = true -> Z.shiftr cp 6 = 0x3BE \/ Z.shiftr cp 6 = 0x3BF.
Proof.
  intros H.
  pose proof (forall_pua (fun c => (Z.shiftr c 6 =? 0x3BE) || (Z.shiftr c 6 =? 0x3BF))
                ltac:(vm_compute; reflexivity) cp H) as A.
  apply orb_true_iff in A. destruct A as [A|A]; apply Z.eqb_eq in A; auto.
Qed.

Lemma in_pua_range' (cp : Z) : in_pua cp = true -> 0xEF80 <= cp <= 0xEFFF.
Proof.
  unfold in_pua, XTF8_PUA_START, XTF8_PUA_END. intros H.
  apply andb_true_iff in H. destruct H as [H1 H2].
  apply Z.leb_le in H1, H2. lia.
Qed.

(** The bytes of one character whose codepoint is in the reserved range
    are the three bytes [xtf8_encode] itself writes for that codepoint. *)
Lemma pua_char_bytes (pend : list byte) (b : byte) (cp : Z) :
  pending_run UTF8_ACCEPT pend = true ->
  utf8_scan UTF8_ACCEPT 0 (pend ++ [b]) = (UTF8_ACCEPT, cp) ->
  in_pua cp = true ->
  pend ++ [b] = utf8_3 cp.
Proof.
  intros Hrun Hscan Hpua.
  destruct pend as [|b1 pend].
  { (* one byte *)
    exfalso. cbn [app utf8_scan] in Hscan.
    pose proof (forall_bytes
      (fun z => implb (fst (utf8_decode UTF8_ACCEPT 0 z) =? UTF8_ACCEPT)
                      (negb (in_pua (snd (utf8_decode UTF8_ACCEPT 0 z)))))
      ltac:(vm_compute; reflexivity) b) as A.
    cbv beta in A. destruct (utf8_decode UTF8_ACCEPT 0 (byte_val b)) as [s1 c1].
    injection Hscan as -> ->. cbn [fst snd] in A.
    rewrite Z.eqb_refl, Hpua in A. discriminate. }
  destruct pend as [|b2 pend].
  { (* two bytes *)
    exfalso. cbn [app utf8_scan] in Hscan.
    pose proof (pair_check_all b1 b) as A. unfold pair_check in A.
    destruct (utf8_decode UTF8_ACCEPT 0 (byte_val b1)) as [s1 c1].
    destruct (utf8_decode s1 c1 (byte_val b)) as [s2 c2].
    injection Hscan as -> ->.
    apply andb_true_iff in A. destruct A as [A _].
    rewrite Z.eqb_refl, Hpua in A. discriminate. }
  (* three bytes and more *)
  cbn [pending_run] in Hrun.
  pose proof (pair_check_all b1 b2) as A. unfold pair_check in A.
  cbn [app utf8_scan] in Hscan.
  destruct (utf8_decode UTF8_ACCEPT 0 (byte_val b1)) as [s1 c1] eqn:E1.
  assert (N1 : utf8_next UTF8_ACCEPT (byte_val b1) = s1)
    by (rewrite <- (utf8_decode_state UTF8_ACCEPT 0), E1; reflexivity).
  destruct (utf8_decode s1 c1 (byte_val b2)) as [s2 c2] eqn:E2.
  assert (N2 : utf8_next s1 (byte_val b2) = s2)
    by (rewrite <- (utf8_decode_state s1 c1), E2; reflexivity).
  rewrite N1, N2 in Hrun.
  fold (is_pending s1) in Hrun.
  rewrite andb_true_iff in Hrun. destruct Hrun as [P1 Hrun].
  fold (is_pending s2) in Hrun.
  rewrite andb_true_iff in Hrun. destruct Hrun as [P2 Hrun].
  apply andb_true_iff in A. destruct A as [_ A].
  rewrite P1, P2 in A. cbn [andb implb] in A.
  apply orb_true_iff in A. destruct A as [A|A].
  - (* a three-byte character *)
    apply andb_true_iff in A. destruct A as [A A4].
    apply andb_true_iff in A. destruct A as [A A3].
    apply andb_true_iff in A. destruct A as [A1 A2].
    apply Z.eqb_eq in A1. apply Z.leb_le in A2. apply Z.ltb_lt in A3. subst s2.
    destruct pend as [|b3 pend].
    + cbn [app utf8_scan] in Hscan.
      destruct (utf8_decode 24 c2 (byte_val b)) as [s3 c3] eqn:E3.
      injection Hscan as -> ->.
      pose proof (continuation_codepoint 24 c2 b ltac:(discriminate) ltac:(lia)) as Hc.
      rewrite E3 in Hc. cbn [snd] in Hc.
      assert (Hc2 : (c2 =? 0x3BE) || (c2 =? 0x3BF) = true).
      { apply orb_true_iff. rewrite !Z.eqb_eq, <- Hc. apply in_pua_shift, Hpua. }
      rewrite Hc2 in A4. cbn [implb] in A4.
      apply andb_true_iff in A4. destruct A4 as [B1 B2]. apply Z.eqb_eq in B1, B2.
      assert (L : last_check c2 (byte_val b) = true).
      { apply orb_true_iff in Hc2. destruct Hc2 as [Hc2|Hc2]; apply Z.eqb_eq in Hc2;
          rewrite Hc2;
          [ apply (forall_bytes (last_check 0x3BE)) | apply (forall_bytes (last_check 0x3BF)) ];
          vm_compute; reflexivity. }
      unfold last_check in L. rewrite E3, Z.eqb_refl, Hpua in L. cbn [andb implb] in L.
      destruct (utf8_3 cp) as [|a1 [|a2 [|a3 [|a4 l]]]]; try discriminate.
      apply andb_true_iff in L. destruct L as [L L3].
      apply andb_true_iff in L. destruct L as [L1 L2].
      apply Z.eqb_eq in L1, L2, L3.
      rewrite (byte_val_inj b1 a1), (byte_val_inj b2 a2), (byte_val_inj b a3)
        by congruence.
      reflexivity.
    + (* a byte read in state 24 is not pending *)
      exfalso. cbn [pending_run] in Hrun.
      fold (is_pending (utf8_next 24 (byte_val b3))) in Hrun.
      rewrite last_byte_ends in Hrun. discriminate.
  - (* a four-byte character *)
    exfalso.
    apply andb_true_iff in A. destruct A as [A A3].
    apply andb_true_iff in A. destruct A as [A1 A2].
    apply Z.eqb_eq in A1. apply Z.leb_le in A2. apply Z.ltb_lt in A3. subst s2.
    destruct pend as [|b3 pend].
    + cbn [app utf8_scan] in Hscan.
      destruct (utf8_decode 36 c2 (byte_val b)) as [s3 c3] eqn:E3.
      injection Hscan as -> ->.
      assert (N3 : utf8_next 36 (byte_val b) = UTF8_ACCEPT)
        by (rewrite <- (utf8_decode_state 36 c2), E3; reflexivity).
      destruct (middle_byte_next b) as [H|H]; rewrite N3 in H; discriminate.
    + cbn [pending_run] in Hrun. cbn [app utf8_scan] in Hscan.
      destruct (utf8_decode 36 c2 (byte_val b3)) as [s3 c3] eqn:E3.
      assert (N3 : utf8_next 36 (byte_val b3) = s3)
        by (rewrite <- (utf8_decode_state 36 c2), E3; reflexivity).
      rewrite N3 in Hrun. fold (is_pending s3) in Hrun.
      rewrite andb_true_iff in Hrun. destruct Hrun as [P3 Hrun].
      apply is_pending_spec in P3.
      destruct (middle_byte_next b3) as [H|H]; rewrite N3 in H; [|tauto].
      clear N3 P3. subst s3.
      pose proof (continuation_codepoint 36 c2 b3 ltac:(discriminate) ltac:(lia)) as Hc3.
      rewrite E3 in Hc3. cbn [snd] in Hc3.
      destruct pend as [|b4 pend].
      * cbn [app utf8_scan] in Hscan.
        destruct (utf8_decode 24 c3 (byte_val b)) as [s4 c4] eqn:E4.
        injection Hscan as -> ->.
        assert (R3 : 0 <= c3 < 2 ^ 26).
        { rewrite Z.shiftr_div_pow2 in Hc3 by lia.
          change (2 ^ 6) with 64 in Hc3. change (2 ^ 26) with 67108864.
          pose proof (Z.div_mod c3 64 ltac:(lia)) as D.
          pose proof (Z.mod_pos_bound c3 64 ltac:(lia)). lia. }
        pose proof (continuation_codepoint 24 c3 b ltac:(discriminate) R3) as Hc4.
        rewrite E4 in Hc4. cbn [snd] in Hc4.
        apply in_pua_range' in Hpua.
        rewrite Z.shiftr_div_pow2 in Hc3, Hc4 by lia. change (2 ^ 6) with 64 in Hc3, Hc4.
        pose proof (Z.div_mod c3 64 ltac:(lia)).
        pose proof (Z.mod_pos_bound c3 64 ltac:(lia)).
        pose proof (Z.div_mod cp 64 ltac:(lia)).
        pose proof (Z.mod_pos_bound cp 64 ltac:(lia)).
        lia.
      * cbn [pending_run] in Hrun.
        fold (is_pending (utf8_next 24 (byte_val b4))) in Hrun.
        rewrite last_byte_ends in Hrun. discriminate.
Qed.

Lemma utf8_scan_app (l1 l2 : list byte) :
  forall st c,
    utf8_scan st c (l1 ++ l2)
    = utf8_scan (fst (utf8_scan st c l1)) (snd (utf8_scan st c l1)) l2.
Proof.
  induction l1 as [|b l1 IH]; intros st c; [reflexivity|].
  cbn [app utf8_scan]. destruct (utf8_decode st c (byte_val b)) as [s1 c1]. apply IH.
Qed.

Lemma scanned_nil (c : Z) : scanned UTF8_ACCEPT c [].
Proof.
  split; [apply pending_ok_nil|]. split; [reflexivity|]. intros H. contradiction.
Qed.

Lemma scanned_decode (st cp : Z) (pend : list byte) (b : byte) :
  scanned st cp pend ->
  utf8_scan UTF8_ACCEPT 0 (pend ++ [b]) = utf8_decode st cp (byte_val b).
Proof.
  intros (P & _ & H). destruct pend as [|a pend].
  - destruct P as [P _]. cbn in P. subst st. cbn [app utf8_scan].
    rewrite (utf8_decode_accept cp).
    destruct (utf8_decode UTF8_ACCEPT 0 (byte_val b)). reflexivity.
  - rewrite utf8_scan_app, H by discriminate. cbn [fst snd utf8_scan].
    destruct (utf8_decode st cp (byte_val b)). reflexivity.
Qed.

Lemma enc_byte_scanned_out (e st cp : Z) (pend : list byte) (b : byte)
    (o : list byte) (st' cp' : Z) (pend' : list byte) :
  scanned st cp pend ->
  enc_byte e st cp pend b = E_out o st' cp' pend' ->
  scanned st' cp' pend' /\ exists done, pend ++ [b] = done ++ pend'.
Proof.
  intros S Ef. pose proof (scanned_decode _ _ _ b S) as Hd.
  destruct S as (P & R & H).
  pose proof (proj2 (enc_byte_out _ _ _ _ _ _ _ _ _ P Ef)) as P'.
  revert Ef. unfold enc_byte. emit_cases st cp b.
  - destruct (in_pua cp'0); [destruct (e =? XTF8_ERR_ABORT); [discriminate|]|];
      intros [= <- <- <- <-]; (split; [apply scanned_nil|]);
      exists (pend ++ [b]); rewrite app_nil_r; reflexivity.
  - destruct (st =? UTF8_ACCEPT); [|discriminate].
    intros [= <- <- <- <-]. split; [apply scanned_nil|].
    exists (pend ++ [b]). rewrite app_nil_r. reflexivity.
  - intros [= <- <- <- <-]. split; [|exists []; reflexivity].
    split; [exact P'|]. split.
    + apply pending_run_app; [exact R| |]; rewrite (proj1 P), <- Est; assumption.
    + intros _. exact Hd.
Qed.

Lemma enc_byte_scanned_abort (e st cp : Z) (pend : list byte) (b : byte) :
  scanned st cp pend ->
  enc_byte e st cp pend b = E_abort ->
  exists cp', in_pua cp' = true /\ pend ++ [b] = utf8_3 cp'.
Proof.
  intros S Ef. pose proof (scanned_decode _ _ _ b S) as Hd.
  destruct S as (P & R & H).
  revert Ef. unfold enc_byte. emit_cases st cp b.
  - destruct (in_pua cp') eqn:Hpua; [|discriminate]. intros _.
    exists cp'. split; [exact Hpua|].
    apply pua_char_bytes; [exact R| |exact Hpua]. rewrite Hd, Ha. reflexivity.
  - destruct (st =? UTF8_ACCEPT); discriminate.
  - discriminate.
Qed.

(** An aborted stream has read the three bytes of a reserved
    codepoint. *)
Lemma enc_aborted_reserved (e : Z) (rest : list byte) :
  forall st cp pend,
    scanned st cp pend ->
    aborted (stream (enc_byte e) st cp pend rest) = true ->
    exists pre cp' post,
      in_pua cp' = true /\ pend ++ rest = pre ++ utf8_3 cp' ++ post.
Proof.
  induction rest as [|b rest IH]; intros st cp pend S; cbn [stream].
  - discriminate.
  - destruct (enc_byte e st cp pend b) as [|o st' c' pend'|o] eqn:Ef.
    + intros _. destruct (enc_byte_scanned_abort _ _ _ _ _ S Ef) as (cp' & Hp & Hb).
      exists [], cp', rest. split; [exact Hp|].
      cbn [app]. rewrite <- Hb, <- app_assoc. reflexivity.
    + rewrite aborted_push. intros Hab.
      destruct (enc_byte_scanned_out _ _ _ _ _ _ _ _ _ S Ef) as (S' & done & Hd).
      destruct (IH _ _ _ S' Hab) as (pre & cp' & post & Hp & Hr).
      exists (done ++ pre), cp', post. split; [exact Hp|].
      change (b :: rest) with ([b] ++ rest).
      rewrite app_assoc, Hd, <- !app_assoc, Hr. reflexivity.
    + rewrite aborted_push.
      destruct (enc_byte e UTF8_ACCEPT 0 [] b) as [|o2 st2 c2 pend2|o2] eqn:Ef2.
      * intros _.
        destruct (enc_byte_scanned_abort _ _ _ _ _ (scanned_nil 0) Ef2) as (cp' & Hp & Hb).
        exists pend, cp', rest. split; [exact Hp|].
        rewrite <- Hb. reflexivity.
      * rewrite aborted_push. intros Hab.
        destruct (enc_byte_scanned_out _ _ _ _ _ _ _ _ _ (scanned_nil 0) Ef2)
          as (S' & done & Hd).
        destruct (IH _ _ _ S' Hab) as (pre & cp' & post & Hp & Hr).
        exists (pend ++ done ++ pre), cp', post. split; [exact Hp|].
        change (b :: rest) with (([] ++ [b]) ++ rest).
        rewrite Hd, <- !app_assoc, Hr. reflexivity.
      * exfalso. exact (enc_fresh_no_retry _ _ _ _ Ef2).
Qed.

(** [xtf8_encode] with the ABORT policy returns the error value exactly
    for the inputs that hold, anywhere, the three bytes the encoder
    itself writes for a codepoint U+EF80..U+EFFF (0xEE, then 0xBE or
    0xBF, then a byte 0x80..0xBF). *)
Theorem encode_abort_iff_reserved (dst : option Z) (src : list byte) :
  fits dst src ->
  (returned (xtf8_encode dst src XTF8_ERR_ABORT) = Some XTF8_ABORTED <->
   exists pre cp post, in_pua cp = true /\ src = pre ++ utf8_3 cp ++ post).
Proof.
  intros F. rewrite xtf8_encode_stream.
  rewrite (view_returned_aborted dst src _ F (enc_stream_length _ src)).
  split.
  - intros H. exact (enc_aborted_reserved _ src _ _ _ (scanned_nil 0) H).
  - intros (pre & cp & post & Hp & ->).
    destruct (enc_abort_prefix cp post Hp XTF8_ERR_ABORT pre _ 0 _ pending_ok_nil)
      as (w & t & -> & _).
    reflexivity.
Qed.

Lemma encode_abort_iff_reserved_witness :
  fits None ([x61] ++ utf8_3 0xEF90 ++ [x62]) /\
  returned (xtf8_encode None ([x61] ++ utf8_3 0xEF90 ++ [x62]) XTF8_ERR_ABORT)
  = Some XTF8_ABORTED.
Proof.
  assert (F : fits None ([x61] ++ utf8_3 0xEF90 ++ [x62]))
    by (vm_compute; split; [discriminate|reflexivity]).
  split; [exact F|].
  apply (proj2 (encode_abort_iff_reserved None _ F)).
  exists [x61], 0xEF90, [x62]. split; reflexivity.
Defined.

(** ** Only the ABORT policy aborts *)

Lemma dec_byte_no_abort (e st c : Z) (pend : list byte) (b : byte) :
  (e =? XTF8_ERR_ABORT) = false -> dec_byte e st c pend b <> E_abort.
Proof.
  intros He. unfold dec_byte. emit_cases st c b.
  - destruct (in_pua cp'); discriminate.
  - rewrite He. destruct (st =? UTF8_ACCEPT); discriminate.
  - discriminate.
Qed.

Lemma dec_no_abort (e : Z) (rest : list byte) :
  (e =? XTF8_ERR_ABORT) = false ->
  forall st c pend, exists o, stream (dec_byte e) st c pend rest = S_done o.
Proof.
  intros He. induction rest as [|b rest IH]; intros st c pend; cbn [stream].
  - eauto.
  - destruct (dec_byte e st c pend b) as [|o st' c' pend'|o] eqn:Ef.
    + exfalso. exact (dec_byte_no_abort _ _ _ _ _ He Ef).
    + destruct (IH st' c' pend') as [o' ->]. cbn [s_push]. eauto.
    + destruct (dec_byte e UTF8_ACCEPT 0 [] b) as [|o2 st2 c2 pend2|o2] eqn:Ef2.
      * exfalso. exact (dec_byte_no_abort _ _ _ _ _ He Ef2).
      * destruct (IH st2 c2 pend2) as [o' ->]. cbn [s_push]. eauto.
      * destruct (IH UTF8_ACCEPT 0 []) as [o' ->]. cbn [s_push]. eauto.
Qed.

(** With any value of [error] other than [XTF8_ERR_ABORT], neither
    function returns the error value: the sizing pass returns the
    number of bytes of the output, the writing pass the address after
    the output.  The assertion [outlen != XTF8_ABORTED] of the
    command-line tool, which always passes [XTF8_ERR_REPLACE], holds. *)
Theorem only_abort_policy_aborts
    (decode : bool) (dst : option Z) (src : list byte) (error : Z) :
  error <> XTF8_ERR_ABORT ->
  fits dst src ->
  exists o,
    f_xtf8 decode dst src error
    = Some (Returned (uintptr dst + Z.of_nat (length o)) (visible dst o)) /\
    uintptr dst + Z.of_nat (length o) <> XTF8_ABORTED.
Proof.
  intros He [F0 F1]. apply Z.eqb_neq in He.
  assert (A : exists o, (if decode then stream (dec_byte error) else stream (enc_byte error))
                          UTF8_ACCEPT 0 [] src = S_done o /\
                        (length o <= 3 * length src)%nat).
  { destruct decode.
    - destruct (dec_no_abort error src He UTF8_ACCEPT 0 []) as [o Ho].
      exists o. split; [exact Ho|].
      pose proof (dec_stream_length error src) as L. rewrite Ho in L. exact L.
    - destruct (enc_no_abort error src He UTF8_ACCEPT 0 []) as [o Ho].
      exists o. split; [exact Ho|].
      pose proof (enc_stream_length error src) as L. rewrite Ho in L. exact L. }
  destruct A as (o & Ho & L). exists o.
  split; [|lia].
  destruct decode; cbn [f_xtf8];
    rewrite ?xtf8_decode_stream, ?xtf8_encode_stream, Ho;
    destruct dst; cbn [view uintptr]; reflexivity.
Qed.

Lemma only_abort_policy_aborts_witness :
  exists o : list byte,
    xtf8_encode None (utf8_3 0xEF90) XTF8_ERR_REPLACE
    = Some (Returned (0 + Z.of_nat (length o)) []) /\
    0 + Z.of_nat (length o) <> XTF8_ABORTED.
Proof.
  apply (only_abort_policy_aborts false None (utf8_3 0xEF90) XTF8_ERR_REPLACE).
  - discriminate.
  - vm_compute. split; [discriminate|reflexivity].
Defined.

(** ** Text that needs no transcoding *)

Lemma scan_state_not_rejected (st : Z) (l : list byte) :
  scan_state st l = UTF8_ACCEPT -> st <> UTF8_REJECT.
Proof.
  intros H E. subst st. rewrite scan_state_reject in H. discriminate.
Qed.

Lemma enc_clean_unchanged (rest : list byte) :
  forall st c pend O,
    pending_ok st pend ->
    scan_state st rest = UTF8_ACCEPT ->
    stream (enc_byte XTF8_ERR_ABORT) st c pend rest = S_done O ->
    O = pend ++ rest.
Proof.
  induction rest as [|b rest IH]; intros st c pend O P Hs.
  - cbn in Hs. subst st. cbn [stream]. intros [= <-].
    rewrite (proj1 (proj2 (proj2 P)) eq_refl). reflexivity.
  - rewrite scan_state_cons in Hs. pose proof (scan_state_not_rejected _ _ Hs) as Hn.
    cbn [stream]. set (S := stream (enc_byte XTF8_ERR_ABORT)) in *.
    unfold enc_byte. emit_cases st c b.
    + destruct (in_pua cp'); [discriminate|].
      intros H. apply s_push_done_inv in H. destruct H as (O' & HO' & ->).
      rewrite <- Est, Ha in Hs.
      rewrite (IH _ _ _ _ pending_ok_nil Hs HO'), <- app_assoc. reflexivity.
    + exfalso. apply Hn. rewrite <- Est. exact Hr.
    + intros H. apply s_push_done_inv in H. destruct H as (O' & HO' & ->).
      rewrite <- Est in Hs.
      assert (P' : pending_ok st' (pend ++ [b]))
        by (rewrite Est; apply pending_ok_more; congruence).
      rewrite (IH _ _ _ _ P' Hs HO'), <- app_assoc. reflexivity.
Qed.

Lemma dec_clean_unchanged (e : Z) (rest : list byte) :
  forall st c pend O,
    pending_ok st pend ->
    scan_state st rest = UTF8_ACCEPT ->
    stream (enc_byte XTF8_ERR_ABORT) st c pend rest = S_done O ->
    stream (dec_byte e) st c pend rest = S_done (pend ++ rest).
Proof.
  induction rest as [|b rest IH]; intros st c pend O P Hs.
  - cbn in Hs. subst st. cbn [stream]. intros _.
    rewrite (proj1 (proj2 (proj2 P)) eq_refl). reflexivity.
  - rewrite scan_state_cons in Hs. pose proof (scan_state_not_rejected _ _ Hs) as Hn.
    cbn [stream]. set (S := stream (enc_byte XTF8_ERR_ABORT)) in *.
    set (D := stream (dec_byte e)) in *.
    unfold enc_byte, dec_byte. emit_cases st c b.
    + destruct (in_pua cp'); [discriminate|].
      intros H. apply s_push_done_inv in H. destruct H as (O' & HO' & ->).
      rewrite <- Est, Ha in Hs.
      rewrite (IH _ _ _ _ pending_ok_nil Hs HO'). cbn [s_push app].
      rewrite <- app_assoc. reflexivity.
    + exfalso. apply Hn. rewrite <- Est. exact Hr.
    + intros H. apply s_push_done_inv in H. destruct H as (O' & HO' & ->).
      rewrite <- Est in Hs.
      assert (P' : pending_ok st' (pend ++ [b]))
        by (rewrite Est; apply pending_ok_more; congruence).
      rewrite (IH _ _ _ _ P' Hs HO'). cbn [s_push app].
      rewrite <- app_assoc. reflexivity.
Qed.

(** Valid UTF-8 text that holds no reserved codepoint (the sizing pass
    of the encoder with the ABORT policy does not return the error
    value) comes out of [xtf8_encode] and of [xtf8_decode] as it went
    in, with either policy. *)
Theorem clean_utf8_is_unchanged
    (decode : bool) (a : Z) (B : list byte) (error : Z) :
  is_utf8 B = true ->
  returned (xtf8_encode None B XTF8_ERR_ABORT) <> Some XTF8_ABORTED ->
  f_xtf8 decode (Some a) B error = Some (Returned (a + Z.of_nat (length B)) B).
Proof.
  intros HB. apply is_utf8_scan in HB. rewrite xtf8_encode_stream.
  destruct (stream (enc_byte XTF8_ERR_ABORT) UTF8_ACCEPT 0 [] B) as [O|O] eqn:Es;
    cbn [view returned]; intros Hno; [exfalso; apply Hno; reflexivity|].
  destruct decode; cbn [f_xtf8].
  - rewrite xtf8_decode_stream,
      (dec_clean_unchanged error B _ _ _ _ pending_ok_nil HB Es). reflexivity.
  - rewrite xtf8_encode_stream, (stream_policy enc_byte enc_byte_policy error _ _ _ _ _ Es).
    rewrite (enc_clean_unchanged B _ _ _ _ pending_ok_nil HB Es). reflexivity.
Qed.

Lemma clean_utf8_is_unchanged_witness :
  is_utf8 [x61; xc3; xa9; xe2; x82; xac] = true /\
  f_xtf8 true (Some 4096) [x61; xc3; xa9; xe2; x82; xac] XTF8_ERR_REPLACE
  = Some (Returned (4096 + Z.of_nat (length [x61; xc3; xa9; xe2; x82; xac]))
                   [x61; xc3; xa9; xe2; x82; xac]).
Proof.
  assert (H : is_utf8 [x61; xc3; xa9; xe2; x82; xac] = true) by (vm_compute; reflexivity).
  split; [exact H|].
  apply (clean_utf8_is_unchanged true 4096 [x61; xc3; xa9; xe2; x82; xac]
           XTF8_ERR_REPLACE H).
  vm_compute. discriminate.
Defined.

(** ** Transcoding in pieces *)

Lemma s_then_push (o : list byte) (r k : stream_result) :
  s_then (s_push o r) k = s_push o (s_then r k).
Proof. destruct r; cbn [s_push s_then]; [reflexivity|]. apply eq_sym, s_push_push. Qed.

Section Pieces.

Variable f : Z -> Z -> list byte -> byte -> emit.
Variable B : list byte.

(** Between two characters [f] does not read the codepoint, and it
    follows the scanner as long as no byte is rejected. *)
Hypothesis f_fresh_cp : forall c b, f UTF8_ACCEPT c [] b = f UTF8_ACCEPT 0 [] b.

Hypothesis f_out : forall st c pend b o st' c' pend',
  pending_ok st pend ->
  f st c pend b = E_out o st' c' pend' ->
  pending_ok st' pend' /\
  (utf8_next st (byte_val b) = UTF8_REJECT \/ st' = utf8_next st (byte_val b)).

Hypothesis f_retry : forall st c pend b o,
  f st c pend b = E_retry o -> utf8_next st (byte_val b) = UTF8_REJECT.

Lemma stream_fresh_cp (c : Z) (l : list byte) :
  stream f UTF8_ACCEPT c [] l = stream f UTF8_ACCEPT 0 [] l.
Proof.
  destruct l as [|b l]; [reflexivity|]. cbn [stream]. rewrite f_fresh_cp. reflexivity.
Qed.

Lemma stream_pieces (A : list byte) :
  forall st c pend,
    pending_ok st pend ->
    scan_state st A = UTF8_ACCEPT ->
    stream f st c pend (A ++ B)
    = s_then (stream f st c pend A) (stream f UTF8_ACCEPT 0 [] B).
Proof.
  induction A as [|b A IH]; intros st c pend P Hs.
  - cbn in Hs. subst st. rewrite (proj1 (proj2 (proj2 P)) eq_refl).
    cbn [app stream s_then]. rewrite s_push_nil. apply stream_fresh_cp.
  - rewrite scan_state_cons in Hs. pose proof (scan_state_not_rejected _ _ Hs) as Hn.
    cbn [app stream].
    destruct (f st c pend b) as [|o st' c' pend'|o] eqn:Ef.
    + reflexivity.
    + destruct (f_out _ _ _ _ _ _ _ _ P Ef) as (P' & [Hr|Hst]); [contradiction|].
      rewrite s_then_push, IH; [reflexivity | exact P' | rewrite Hst; exact Hs].
    + exfalso. exact (Hn (f_retry _ _ _ _ _ Ef)).
Qed.

End Pieces.

Lemma enc_byte_follows (e st c : Z) (pend : list byte) (b : byte)
    (o : list byte) (st' c' : Z) (pend' : list byte) :
  enc_byte e st c pend b = E_out o st' c' pend' ->
  utf8_next st (byte_val b) = UTF8_REJECT \/ st' = utf8_next st (byte_val b).
Proof.
  unfold enc_byte. emit_cases st c b.
  - destruct (in_pua cp'); [destruct (e =? XTF8_ERR_ABORT); [discriminate|]|];
      intros [= <- <- <- <-]; right; congruence.
  - intros _. left. congruence.
  - intros [= <- <- <- <-]. right. exact Est.
Qed.

Lemma dec_byte_follows (e st c : Z) (pend : list byte) (b : byte)
    (o : list byte) (st' c' : Z) (pend' : list byte) :
  dec_byte e st c pend b = E_out o st' c' pend' ->
  utf8_next st (byte_val b) = UTF8_REJECT \/ st' = utf8_next st (byte_val b).
Proof.
  unfold dec_byte. emit_cases st c b.
  - destruct (in_pua cp'); intros [= <- <- <- <-]; right; congruence.
  - intros _. left. congruence.
  - intros [= <- <- <- <-]. right. exact Est.
Qed.

Lemma enc_byte_retry_rejected (e st c : Z) (pend : list byte) (b : byte) (o : list byte) :
  enc_byte e st c pend b = E_retry o -> utf8_next st (byte_val b) = UTF8_REJECT.
Proof.
  unfold enc_byte. emit_cases st c b.
  - destruct (in_pua cp'); [destruct (e =? XTF8_ERR_ABORT)|]; discriminate.
  - intros _. congruence.
  - discriminate.
Qed.

Lemma dec_byte_retry_rejected (e st c : Z) (pend : list byte) (b : byte) (o : list byte) :
  dec_byte e st c pend b = E_retry o -> utf8_next st (byte_val b) = UTF8_REJECT.
Proof.
  unfold dec_byte. emit_cases st c b.
  - destruct (in_pua cp'); discriminate.
  - intros _. congruence.
  - discriminate.
Qed.

Lemma enc_pieces (e : Z) (A B : list byte) :
  is_utf8 A = true ->
  stream (enc_byte e) UTF8_ACCEPT 0 [] (A ++ B)
  = s_then (stream (enc_byte e) UTF8_ACCEPT 0 [] A) (stream (enc_byte e) UTF8_ACCEPT 0 [] B).
Proof.
  intros HA. apply (stream_pieces (enc_byte e) B).
  - intros c b. unfold enc_byte. rewrite (utf8_decode_accept c). reflexivity.
  - intros st c pend b o st' c' pend' P Ef. split.
    + exact (proj2 (enc_byte_out _ _ _ _ _ _ _ _ _ P Ef)).
    + exact (enc_byte_follows _ _ _ _ _ _ _ _ _ Ef).
  - intros st c pend b o Ef. exact (enc_byte_retry_rejected _ _ _ _ _ _ Ef).
  - apply pending_ok_nil.
  - apply is_utf8_scan, HA.
Qed.

Lemma dec_pieces (e : Z) (A B : list byte) :
  is_utf8 A = true ->
  stream (dec_byte e) UTF8_ACCEPT 0 [] (A ++ B)
  = s_then (stream (dec_byte e) UTF8_ACCEPT 0 [] A) (stream (dec_byte e) UTF8_ACCEPT 0 [] B).
Proof.
  intros HA. apply (stream_pieces (dec_byte e) B).
  - intros c b. unfold dec_byte. rewrite (utf8_decode_accept c). reflexivity.
  - intros st c pend b o st' c' pend' P Ef. split.
    + exact (dec_byte_out _ _ _ _ _ _ _ _ _ P Ef).
    + exact (dec_byte_follows _ _ _ _ _ _ _ _ _ Ef).
  - intros st c pend b o Ef. exact (dec_byte_retry_rejected _ _ _ _ _ _ Ef).
  - apply pending_ok_nil.
  - apply is_utf8_scan, HA.
Qed.

(** An input may be transcoded in pieces when it is cut where valid
    UTF-8 ends: if [A] is valid UTF-8 and neither call is aborted, the
    output for [A ++ B] is the output for [A] followed by the output
    for [B], for both functions. *)
Theorem transcoding_in_pieces
    (decode : bool) (a : Z) (A B : list byte) (error : Z)
    (ra rb : Z) (OA OB : list byte) :
  is_utf8 A = true ->
  f_xtf8 decode (Some a) A error = Some (Returned ra OA) -> ra <> XTF8_ABORTED ->
  f_xtf8 decode (Some a) B error = Some (Returned rb OB) -> rb <> XTF8_ABORTED ->
  f_xtf8 decode (Some a) (A ++ B) error
  = Some (Returned (a + Z.of_nat (length (OA ++ OB))) (OA ++ OB)).
Proof.
  intros HA. destruct decode; cbn [f_xtf8].
  - rewrite !xtf8_decode_stream, (dec_pieces error A B HA).
    destruct (stream (dec_byte error) UTF8_ACCEPT 0 [] A) as [oa|oa]; cbn [view];
      intros [= <- <-] Hra; [exfalso; apply Hra; reflexivity|].
    destruct (stream (dec_byte error) UTF8_ACCEPT 0 [] B) as [ob|ob]; cbn [view];
      intros [= <- <-] Hrb; [exfalso; apply Hrb; reflexivity|].
    reflexivity.
  - rewrite !xtf8_encode_stream, (enc_pieces error A B HA).
    destruct (stream (enc_byte error) UTF8_ACCEPT 0 [] A) as [oa|oa]; cbn [view];
      intros [= <- <-] Hra; [exfalso; apply Hra; reflexivity|].
    destruct (stream (enc_byte error) UTF8_ACCEPT 0 [] B) as [ob|ob]; cbn [view];
      intros [= <- <-] Hrb; [exfalso; apply Hrb; reflexivity|].
    reflexivity.
Qed.

Lemma transcoding_in_pieces_witness :
  is_utf8 [x61; xc3; xa9] = true /\
  f_xtf8 false (Some 4096) ([x61; xc3; xa9] ++ [xff; x62]) XTF8_ERR_REPLACE
  = Some (Returned (4096 + Z.of_nat (length ([x61; xc3; xa9] ++ [xee; xbf; xbf; x62])))
                   ([x61; xc3; xa9] ++ [xee; xbf; xbf; x62])).
Proof.
  assert (H : is_utf8 [x61; xc3; xa9] = true) by (vm_compute; reflexivity).
  split; [exact H|].
  apply (transcoding_in_pieces false 4096 [x61; xc3; xa9] [xff; x62] XTF8_ERR_REPLACE
           (4096 + 3) (4096 + 4) [x61; xc3; xa9] [xee; xbf; xbf; x62] H).
  - vm_compute. reflexivity.
  - unfold XTF8_ABORTED. lia.
  - vm_compute. reflexivity.
  - unfold XTF8_ABORTED. lia.
Defined.

(** ** The reads of the main loops stay inside the buffers *)

Lemma decode_loop_state_rel (dst : option Z) (src : list byte) (e : Z) (n : nat) :
  forall x0 x st cp pend M rest,
    rel any_out dst src x0 st cp pend M rest ->
    xtf8_loop_state (decode_turn src e) (Z.of_nat (length src)) n x0 = Some x ->
    exists st' cp' pend' M' rest', rel any_out dst src x st' cp' pend' M' rest'.
Proof.
  induction n as [|n IH]; intros x0 x st cp pend M rest R H; cbn [xtf8_loop_state] in H.
  - injection H as <-. eauto 6.
  - rewrite (rel_more _ _ _ _ _ _ _ _ _ R) in H.
    destruct rest as [|b rest]; [discriminate|]. cbn [length Nat.eqb negb] in H.
    pose proof (decode_turn_stream _ _ e _ _ _ _ _ _ _ R) as T.
    destruct (dec_byte e st cp pend b) as [|o st' cp' pend'|o].
    + rewrite T in H. discriminate.
    + destruct T as (x' & Hx' & R'). rewrite Hx' in H. exact (IH _ _ _ _ _ _ _ R' H).
    + destruct T as (x' & Hx' & R'). rewrite Hx' in H. exact (IH _ _ _ _ _ _ _ R' H).
Qed.

(** From each of the nine states and for each byte, the index that
    [utf8_decode] computes is inside the table. *)
Lemma utf8d_index (st : Z) (b : byte) :
  In st utf8_states ->
  0 <= 256 + st + utf8d_at (byte_val b) < Z.of_nat (length utf8d).
Proof.
  intros H.
  pose proof (forall_states_bytes
    (fun st z => (0 <=? 256 + st + utf8d_at z)
                 && (256 + st + utf8d_at z <? Z.of_nat (length utf8d)))
    ltac:(vm_compute; reflexivity) st b H) as A.
  apply andb_true_iff in A. destruct A as [A1 A2].
  apply Z.leb_le in A1. apply Z.ltb_lt in A2. lia.
Qed.

Lemma rel_bounds good dst src x st cp pend M rest :
  rel good dst src x st cp pend M rest ->
  0 <= pos x <= s x /\ s x <= Z.of_nat (length src) /\
  In (s_cur x) utf8_states /\
  (s x < Z.of_nat (length src) ->
   0 <= deref src (s x) < 256 /\
   0 <= 256 + s_cur x + utf8d_at (deref src (s x)) < Z.of_nat (length utf8d)).
Proof.
  intros (_ & Hc & _ & _ & _ & _ & (done & Hsrc & Hpos & Hs) & P & _).
  pose proof (pending_ok_state _ _ P) as Hst. rewrite Hc.
  split; [lia|]. split; [rewrite Hsrc, !length_app; lia|]. split; [exact Hst|].
  intros _. unfold deref.
  split; [apply byte_val_range | apply utf8d_index, Hst].
Qed.

(** Memory safety of the reads.  At the head of every turn of the main
    loop of [xtf8_encode] and of [xtf8_decode], [pos] and [s] are
    offsets into the source with [pos <= s <= len]: the byte [*s] that
    the turn reads, and the bytes from [pos] to [s] that its inner
    loops read, are inside the buffer.  The scanner state is one of the
    nine states of the automaton, and the two indices that
    [utf8_decode] uses are inside the 364 entries of [utf8d]. *)
Theorem reads_stay_in_bounds
    (decode : bool) (dst : option Z) (src : list byte) (error : Z)
    (n : nat) (x : xtf8_state) :
  xtf8_loop_state ((if decode then decode_turn else encode_turn) src error)
    (Z.of_nat (length src)) n (init_state dst) = Some x ->
  0 <= pos x <= s x /\ s x <= Z.of_nat (length src) /\
  In (s_cur x) utf8_states /\
  (s x < Z.of_nat (length src) ->
   0 <= deref src (s x) < 256 /\
   0 <= 256 + s_cur x + utf8d_at (deref src (s x)) < Z.of_nat (length utf8d)).
Proof.
  destruct decode; intros H.
  - destruct (decode_loop_state_rel dst src error n _ _ _ _ _ _ _
                (rel_init any_out dst src I) H) as (st & cp & pend & M & rest & R).
    exact (rel_bounds _ _ _ _ _ _ _ _ _ R).
  - destruct (encode_loop_state_rel dst src error n _ _ _ _ _ _ _
                (rel_init valid_out dst src eq_refl) H) as (st & cp & pend & M & rest & R).
    exact (rel_bounds _ _ _ _ _ _ _ _ _ R).
Qed.

Lemma reads_stay_in_bounds_witness :
  xtf8_loop_state (encode_turn [xc2; x41] XTF8_ERR_REPLACE)
    (Z.of_nat (length [xc2; x41])) 1 (init_state None)
    = Some (mk_state 24 24 2 None [] 1 0 0) /\
  0 <= 0 <= 1 /\ 1 <= Z.of_nat (length [xc2; x41]).
Proof.
  assert (H : xtf8_loop_state ((if false then decode_turn else encode_turn)
                                 [xc2; x41] XTF8_ERR_REPLACE)
                (Z.of_nat (length [xc2; x41])) 1 (init_state None)
              = Some (mk_state 24 24 2 None [] 1 0 0)) by (vm_compute; reflexivity).
  split; [exact H|].
  pose proof (reads_stay_in_bounds false None [xc2; x41] XTF8_ERR_REPLACE 1
                (mk_state 24 24 2 None [] 1 0 0) H) as (B1 & B2 & _).
  split; [exact B1 | exact B2].
Defined.

(** ** The scanner accepts the well-formed UTF-8 of the Unicode Standard *)

Lemma well_formed_lead (b : byte) (l : list byte) :
  well_formed_utf8 (b :: l) = well_formed_from (utf8_next 0 (byte_val b)) l.
Proof.
  destruct b; try reflexivity; destruct l as [|? [|? [|? ?]]]; reflexivity.
Qed.

Lemma utf8_next_continuation (st : Z) (b : byte) :
  In st utf8_states -> st <> 0 ->
  utf8_next st (byte_val b)
  = (if in_range (fst (fst (continuation st))) (snd (fst (continuation st))) b
     then snd (continuation st) else 12).
Proof.
  intros H Hn.
  pose proof (forall_states_bytes
    (fun st z =>
       (st =? 0) ||
       (utf8_next st z
        =? (if (fst (fst (continuation st)) <=? z) && (z <=? snd (fst (continuation st)))
            then snd (continuation st) else 12)))
    ltac:(vm_compute; reflexivity) st b H) as A.
  apply orb_true_iff in A. destruct A as [A|A]; apply Z.eqb_eq in A; [contradiction|].
  exact A.
Qed.

Lemma well_formed_from_rejected (l : list byte) : well_formed_from 12 l = false.
Proof. destruct l as [|? [|? [|? ?]]]; reflexivity. Qed.

Lemma well_formed_step (st : Z) (b : byte) (l : list byte) :
  In st utf8_states ->
  well_formed_from st (b :: l) = well_formed_from (utf8_next st (byte_val b)) l.
Proof.
  intros H. destruct (Z.eq_dec st 0) as [->|Hn]; [apply well_formed_lead|].
  rewrite (utf8_next_continuation st b H Hn).
  unfold utf8_states in H. cbn [In] in H.
  destruct H as [<-|H]; [contradiction|].
  repeat (destruct H as [<-|H];
          [ cbn [continuation Z.eqb Pos.eqb fst snd];
            destruct (in_range _ _ b) eqn:Eb;
            [ unfold well_formed_from; cbn [Z.eqb Pos.eqb]; rewrite ?Eb;
              destruct l as [|? [|? [|? ?]]]; reflexivity
            | rewrite well_formed_from_rejected;
              unfold well_formed_from; cbn [Z.eqb Pos.eqb]; rewrite ?Eb;
              destruct l as [|? [|? [|? ?]]]; reflexivity ]
          |]).
  contradiction.
Qed.

Lemma well_formed_scan (l : list byte) :
  forall st, In st utf8_states ->
    (scan_state st l =? UTF8_ACCEPT) = well_formed_from st l.
Proof.
  induction l as [|b l IH]; intros st H.
  - unfold utf8_states in H. cbn [In] in H.
    repeat (destruct H as [<-|H]; [reflexivity|]). contradiction.
  - rewrite scan_state_cons, (well_formed_step st b l H).
    apply IH, utf8_next_states, H.
Qed.

(** [is_utf8] accepts a buffer exactly when it is well-formed UTF-8 in
    the sense of the Unicode Standard: no overlong form (lead bytes C0
    and C1, E0 before a byte below A0, F0 before a byte below 90), no
    surrogate (ED before a byte from A0), nothing above U+10FFFF, no
    stray continuation byte and no character cut short. *)
Theorem is_utf8_well_formed (l : list byte) : is_utf8 l = well_formed_utf8 l.
Proof.
  unfold is_utf8. rewrite utf8_scan_state.
  apply (well_formed_scan l UTF8_ACCEPT accept_is_state).
Qed.

(** * Further properties of the JSON helpers *)

(** ** [json_escape] *)

Lemma json_escape_byte_bounds (b : byte) :
  (1 <= length (json_escape_byte (byte_val b)) <= 6)%nat.
Proof.
  pose proof (forall_bytes
    (fun z => (1 <=? length (json_escape_byte z))%nat
              && (length (json_escape_byte z) <=? 6)%nat)
    ltac:(vm_compute; reflexivity) b) as A.
  apply andb_true_iff in A. destruct A as [A1 A2].
  apply Nat.leb_le in A1, A2. lia.
Qed.

Lemma json_escaped_length (B : list byte) :
  (length B <= length (json_escaped B) <= 6 * length B)%nat.
Proof.
  induction B as [|b B IH]; [cbn; lia|].
  rewrite json_escaped_cons, length_app. cbn [length].
  pose proof (json_escape_byte_bounds b). lia.
Qed.

(** The two passes of [json_escape] agree: the size that a call with
    [dst = NULL] returns is the number of bytes that a call with a
    destination stores, and the returned pointer is the end of these
    bytes.  The output has at least one byte and at most six bytes for
    each byte of the input. *)
Theorem json_escape_passes_agree (a : Z) (B : list byte) :
  exists out,
    json_escape None B = (Z.of_nat (length out), []) /\
    json_escape (Some a) B = (a + Z.of_nat (length out), out) /\
    (length B <= length out <= 6 * length B)%nat.
Proof.
  exists (json_escaped B). rewrite !json_escape_escaped.
  split; [reflexivity|]. split; [reflexivity|]. apply json_escaped_length.
Qed.

Lemma json_escape_byte_printable (b : byte) :
  Forall (fun c => 0x20 <= byte_val c) (json_escape_byte (byte_val b)).
Proof.
  pose proof (forall_bytes
    (fun z => forallb (fun c => 0x20 <=? byte_val c) (json_escape_byte z))
    ltac:(vm_compute; reflexivity) b) as A.
  cbv beta in A. rewrite forallb_forall in A. apply Forall_forall.
  intros c Hc. apply Z.leb_le, A, Hc.
Qed.

(** The output of [json_escape] holds no control byte: every byte
    below 0x20 of the input has been replaced by an escape. *)
Theorem json_escape_no_control_byte (a : Z) (B : list byte) :
  Forall (fun c => 0x20 <= byte_val c) (snd (json_escape (Some a) B)).
Proof.
  rewrite json_escape_escaped. cbn [snd visible is_null].
  induction B as [|b B IH]; [constructor|].
  rewrite json_escaped_cons. apply Forall_app.
  split; [apply json_escape_byte_printable | exact IH].
Qed.

Lemma json_escape_byte_scan (st : Z) (b : byte) :
  In st utf8_states ->
  scan_state st (json_escape_byte (byte_val b)) = utf8_next st (byte_val b).
Proof.
  intros H. apply Z.eqb_eq.
  apply (forall_states_bytes
           (fun st z => scan_state st (json_escape_byte z) =? utf8_next st z)
           ltac:(vm_compute; reflexivity) st b H).
Qed.

Lemma json_escaped_scan (B : list byte) :
  forall st, In st utf8_states -> scan_state st (json_escaped B) = scan_state st B.
Proof.
  induction B as [|b B IH]; intros st H; [reflexivity|].
  rewrite json_escaped_cons, scan_state_app, json_escape_byte_scan by exact H.
  rewrite scan_state_cons. apply IH, utf8_next_states, H.
Qed.

(** Escaping does not touch the encoding: the output of [json_escape]
    is valid UTF-8 exactly when the input is.  With [xtf8_encode]
    before it, as in the command-line tool, the escaped output is
    valid UTF-8. *)
Theorem json_escape_keeps_utf8 (a : Z) (B : list byte) :
  is_utf8 (snd (json_escape (Some a) B)) = is_utf8 B.
Proof.
  rewrite json_escape_escaped. cbn [snd visible is_null].
  unfold is_utf8. rewrite !utf8_scan_state.
  rewrite (json_escaped_scan B UTF8_ACCEPT accept_is_state). reflexivity.
Qed.

(** ** [json_unescape] *)

(** Induction over the input of [unescape_list], one token at a time. *)
Lemma unescape_list_cases (P : list byte -> stream_result -> Prop) :
  P [] (S_done []) ->
  (forall c l,
      (byte_val c =? chr_backslash) = false ->
      P l (unescape_list l) ->
      P (c :: l) (s_push [c] (unescape_list l))) ->
  (forall e v l,
      short_escape (byte_val e) = Some v ->
      P l (unescape_list l) ->
      P (x5c :: e :: l) (s_push [u8 v] (unescape_list l))) ->
  (forall h1 h2 h3 h4 r0 l cp,
      hex_list [h1; h2; h3; h4] 0 = Some cp ->
      (0x1F <? cp) = false ->
      P (r0 :: l) (unescape_list (r0 :: l)) ->
      P (x5c :: x75 :: h1 :: h2 :: h3 :: h4 :: r0 :: l)
        (s_push [u8 cp] (unescape_list (r0 :: l)))) ->
  (forall l, l <> [] -> P l (S_aborted [])) ->
  forall l, P l (unescape_list l).
Proof.
  intros H0 Hplain Hshort Hlong Hfail l.
  remember (length l) as n eqn:Hn. revert l Hn.
  induction n as [n IH] using (well_founded_induction lt_wf). intros l Hn.
  destruct l as [|c l1]; [exact H0|].
  destruct (byte_val c =? chr_backslash) eqn:Hc.
  - apply Z.eqb_eq in Hc.
    assert (c = x5c) by (apply byte_val_inj; exact Hc). subst c.
    destruct l1 as [|e l2]; [apply Hfail; discriminate|].
    destruct (short_escape (byte_val e)) as [v|] eqn:He.
    + rewrite (unescape_list_short e v l2 He).
      apply Hshort; [exact He|].
      apply (IH (length l2)); [cbn [length] in Hn; lia | reflexivity].
    + destruct (byte_val e =? chr_u) eqn:Hu.
      * apply Z.eqb_eq in Hu.
        assert (e = x75) by (apply byte_val_inj; exact Hu). subst e.
        destruct l2 as [|h1 [|h2 [|h3 [|h4 [|r0 l3]]]]];
          try (apply Hfail; discriminate).
        destruct (hex_list [h1; h2; h3; h4] 0) as [cp|] eqn:Hh.
        -- destruct (0x1F <? cp) eqn:Hr.
           ++ replace (unescape_list _) with (S_aborted [])
                by (cbn [unescape_list];
                    change (byte_val x5c =? chr_backslash) with true; cbv iota;
                    change (short_escape (byte_val x75)) with (@None Z); cbv iota;
                    change (byte_val x75 =? chr_u) with true; cbv iota;
                    rewrite Hh, Hr; reflexivity).
              apply Hfail. discriminate.
           ++ rewrite (unescape_list_long h1 h2 h3 h4 r0 cp l3 Hh Hr).
              apply Hlong; [exact Hh | exact Hr|].
              apply (IH (length (r0 :: l3))); [cbn [length] in *; lia | reflexivity].
        -- replace (unescape_list _) with (S_aborted [])
             by (cbn [unescape_list];
                 change (byte_val x5c =? chr_backslash) with true; cbv iota;
                 change (short_escape (byte_val x75)) with (@None Z); cbv iota;
                 change (byte_val x75 =? chr_u) with true; cbv iota;
                 rewrite Hh; reflexivity).
           apply Hfail. discriminate.
      * replace (unescape_list _) with (S_aborted [])
          by (cbn [unescape_list];
              change (byte_val x5c =? chr_backslash) with true; cbv iota;
              rewrite He, Hu; reflexivity).
        apply Hfail. discriminate.
  - rewrite (unescape_list_plain c l1 Hc).
    apply Hplain; [exact Hc|].
    apply (IH (length l1)); [cbn [length] in Hn; lia | reflexivity].
Qed.

Lemma unescape_list_length :
  forall l,
    (length (s_bytes (unescape_list l)) <= length l)%nat /\
    (forall O, unescape_list l = S_done O -> l <> [] -> O <> []).
Proof.
  apply (unescape_list_cases
           (fun l r => (length (s_bytes r) <= length l)%nat /\
                       (forall O, r = S_done O -> l <> [] -> O <> []))).
  - split; [cbn; lia|]. intros O _ H. contradiction.
  - intros c l _ [IH _]. split.
    + rewrite length_s_push. cbn [length]. lia.
    + intros O H _. apply s_push_done_inv in H. destruct H as (O' & _ & ->). discriminate.
  - intros e v l _ [IH _]. split.
    + rewrite length_s_push. cbn [length]. lia.
    + intros O H _. apply s_push_done_inv in H. destruct H as (O' & _ & ->). discriminate.
  - intros h1 h2 h3 h4 r0 l cp _ _ [IH _]. split.
    + rewrite length_s_push. cbn [length] in *. lia.
    + intros O H _. apply s_push_done_inv in H. destruct H as (O' & _ & ->). discriminate.
  - intros l _. split; [cbn; lia|]. discriminate.
Qed.

(** The two passes of [json_unescape] agree.  Either both return
    [JSON_ERR_UNESCAPE], or the call with [dst = NULL] returns the
    number of bytes that the call with a destination stores, and the
    returned pointer is the end of these bytes.  The output is not
    longer than the input, and it is not empty unless the input is:
    the command-line tool does not ask [calloc] for zero bytes here. *)
Theorem json_unescape_passes_agree (a : Z) (src : list byte) :
  (exists w,
     json_unescape None src = Some (JSON_ERR_UNESCAPE, []) /\
     json_unescape (Some a) src = Some (JSON_ERR_UNESCAPE, w)) \/
  (exists out,
     json_unescape None src = Some (Z.of_nat (length out), []) /\
     json_unescape (Some a) src = Some (a + Z.of_nat (length out), out) /\
     (length out <= length src)%nat /\
     (src <> [] -> out <> [])).
Proof.
  rewrite !json_unescape_list. destruct (unescape_list_length src) as [L N].
  destruct (unescape_list src) as [o|o]; cbn [json_view visible is_null s_bytes] in *.
  - left. eauto.
  - right. exists o. repeat split; [exact L|]. apply N. reflexivity.
Qed.

(** ** [json_unescape] in pieces, and what it rejects *)

Lemma unescape_list_app (R : list byte) :
  forall l O, unescape_list l = S_done O ->
              unescape_list (l ++ R) = s_push O (unescape_list R).
Proof.
  apply (unescape_list_cases
           (fun l r => forall O, r = S_done O ->
                                 unescape_list (l ++ R) = s_push O (unescape_list R))).
  - intros O [= <-]. rewrite s_push_nil. reflexivity.
  - intros c l Hc IH O H. apply s_push_done_inv in H. destruct H as (O' & HO' & ->).
    cbn [app]. rewrite (unescape_list_plain c _ Hc), (IH _ HO'), s_push_push. reflexivity.
  - intros e v l He IH O H. apply s_push_done_inv in H. destruct H as (O' & HO' & ->).
    cbn [app]. rewrite (unescape_list_short e v _ He), (IH _ HO'), s_push_push. reflexivity.
  - intros h1 h2 h3 h4 r0 l cp Hh Hr IH O H.
    apply s_push_done_inv in H. destruct H as (O' & HO' & ->).
    cbn [app]. rewrite (unescape_list_long h1 h2 h3 h4 r0 cp _ Hh Hr).
    change (r0 :: l ++ R) with ((r0 :: l) ++ R).
    rewrite (IH _ HO'), s_push_push. reflexivity.
  - discriminate.
Qed.

Lemma json_view_done (dst : option Z) (r : stream_result) (ret : Z) (w : list byte) :
  json_view dst r = (ret, w) -> ret <> JSON_ERR_UNESCAPE ->
  exists O, r = S_done O.
Proof.
  destruct r as [o|o]; cbn [json_view]; [|eauto].
  intros [= <- _] H. exfalso. apply H. reflexivity.
Qed.

(** When a first piece [P] of the input is unescaped without an error,
    the output for [P ++ R] is the output for [P] followed by the
    output for [R], and an error in [R] is the error of the whole. *)
Theorem json_unescape_in_pieces (a : Z) (P R : list byte) (ret : Z) (OP : list byte) :
  json_unescape (Some a) P = Some (ret, OP) ->
  ret <> JSON_ERR_UNESCAPE ->
  exists r OR,
    json_unescape (Some ret) R = Some (r, OR) /\
    json_unescape (Some a) (P ++ R) = Some (r, OP ++ OR).
Proof.
  rewrite !json_unescape_list. intros [= H] Hr.
  destruct (json_view_done _ _ _ _ H Hr) as [O HO].
  rewrite HO in H. cbn [json_view visible is_null] in H. injection H as <- <-.
  rewrite (unescape_list_app R P O HO).
  destruct (unescape_list R) as [o|o]; cbn [s_push json_view visible is_null].
  - eexists _, _. split; reflexivity.
  - eexists _, _. split; [reflexivity|]. rewrite length_app, Nat2Z.inj_add, Z.add_assoc.
    reflexivity.
Qed.

Lemma json_unescape_in_pieces_witness :
  exists r OR,
    json_unescape (Some (4096 + 1)) [x62] = Some (r, OR) /\
    json_unescape (Some 4096) ([x5c; x6e] ++ [x62]) = Some (r, [x0a] ++ OR).
Proof.
  apply (json_unescape_in_pieces 4096 [x5c; x6e] [x62] (4096 + 1) [x0a]).
  - vm_compute. reflexivity.
  - unfold JSON_ERR_UNESCAPE. lia.
Defined.





(** * Instances of the theorems above *)

Lemma roundtrip_up_to_truncated_tail_witness :
  returned (xtf8_encode None [x61; xff; xc2] XTF8_ERR_ABORT) <> Some XTF8_ABORTED /\
  exists B' t E,
    [x61; xff; xc2] = B' ++ t /\
    truncated t = true /\
    xtf8_encode (Some 4096) [x61; xff; xc2] XTF8_ERR_REPLACE
      = Some (Returned (4096 + Z.of_nat (length E)) E) /\
    xtf8_decode (Some 8192) E XTF8_ERR_REPLACE
      = Some (Returned (8192 + Z.of_nat (length B')) B').
Proof.
  assert (H : returned (xtf8_encode None [x61; xff; xc2] XTF8_ERR_ABORT)
              <> Some XTF8_ABORTED) by (vm_compute; discriminate).
  split; [exact H|].
  exact (roundtrip_up_to_truncated_tail 4096 8192 [x61; xff; xc2]
           XTF8_ERR_REPLACE XTF8_ERR_REPLACE H).
Defined.

Lemma json_roundtrip_witness :
  ends_in_long_escape [x61; x0a; x22; x01; x5c] = false /\
  json_unescape (Some 8192) (snd (json_escape (Some 4096) [x61; x0a; x22; x01; x5c]))
  = Some (8192 + Z.of_nat (length [x61; x0a; x22; x01; x5c]), [x61; x0a; x22; x01; x5c]).
Proof.
  assert (H : ends_in_long_escape [x61; x0a; x22; x01; x5c] = false) by reflexivity.
  split; [exact H|].
  exact (proj2 (json_roundtrip 4096 8192 [x61; x0a; x22; x01; x5c] H)).
Defined.

Lemma json_roundtrip_fails_witness :
  ends_in_long_escape [x61; x1f] = true /\
  exists w,
    json_unescape None (snd (json_escape (Some 4096) [x61; x1f]))
    = Some (JSON_ERR_UNESCAPE, w).
Proof.
  assert (H : ends_in_long_escape [x61; x1f] = true) by reflexivity.
  split; [exact H|].
  exact (json_roundtrip_fails 4096 None [x61; x1f] H).
Defined.

(** * The command-line tool *)

(** ** [hexdump] *)

Lemma fmt_02x_length (b : byte) : length (fmt_02x (byte_val b)) = 2%nat.
Proof.
  apply Nat.eqb_eq.
  apply (forall_bytes (fun z => (length (fmt_02x z) =? 2)%nat)).
  vm_compute. reflexivity.
Qed.

Lemma hex_column_app (c1 c2 : list byte) :
  forall k, hex_column k (c1 ++ c2)
            = hex_column k c1 ++ hex_column (k + Z.of_nat (length c1)) c2.
Proof.
  induction c1 as [|b c1 IH]; intros k.
  - cbn [app hex_column length]. rewrite Z.add_0_r. reflexivity.
  - cbn [app hex_column length]. rewrite IH, <- !app_assoc.
    replace (k + 1 + Z.of_nat (length c1)) with (k + Z.of_nat (S (length c1))) by lia.
    reflexivity.
Qed.

Lemma hex_column_length (chunk : list byte) :
  forall k, 0 <= k ->
    hex_width k + Z.of_nat (length (hex_column k chunk))
    = hex_width (k + Z.of_nat (length chunk)).
Proof.
  induction chunk as [|b chunk IH]; intros k Hk.
  - cbn [hex_column length]. rewrite !Z.add_0_r. reflexivity.
  - cbn [hex_column length]. rewrite !length_app, fmt_02x_length.
    specialize (IH (k + 1) ltac:(lia)).
    replace (k + Z.of_nat (S (length chunk))) with (k + 1 + Z.of_nat (length chunk)) by lia.
    rewrite <- IH. unfold hex_width.
    destruct (k =? 7) eqn:E7; [apply Z.eqb_eq in E7 | apply Z.eqb_neq in E7];
      destruct (8 <=? k) eqn:E8; [apply Z.leb_le in E8 | apply Z.leb_gt in E8
                                 | apply Z.leb_le in E8 | apply Z.leb_gt in E8];
      destruct (8 <=? k + 1) eqn:E9; [apply Z.leb_le in E9 | apply Z.leb_gt in E9
                                     | apply Z.leb_le in E9 | apply Z.leb_gt in E9
                                     | apply Z.leb_le in E9 | apply Z.leb_gt in E9
                                     | apply Z.leb_le in E9 | apply Z.leb_gt in E9];
      cbn [length app]; lia.
Qed.

Lemma line_index (i0 k : Z) : i0 mod 16 = 0 -> 0 <= k < 16 -> (i0 + k) mod 16 = k.
Proof.
  intros H Hk. rewrite Z.add_mod, H, Z.add_0_l, Z.mod_mod by lia.
  apply Z.mod_small. exact Hk.
Qed.

Lemma hexdump_loop_cons (b : byte) (p : list byte) (i len : Z) (x : hexdump_state) :
  hexdump_loop (b :: p) i len x
  = match hexdump_turn b i len x with
    | None => None
    | Some x' => hexdump_loop p (i + 1) len x'
    end.
Proof. reflexivity. Qed.

(** The turns of the loop over the rest [chunk] of one line, from the
    position [k] of the line on.  The two [sprintf] stay inside the
    static buffers, and the line is printed at its last byte. *)
Lemma hexdump_line (len i0 off : Z) (out rest : list byte) (chunk : list byte) :
  forall k H T Hx Tx,
    i0 mod 16 = 0 -> 0 <= k -> k + Z.of_nat (length chunk) <= 16 ->
    chunk <> [] ->
    Z.of_nat (length H) = hex_width k -> Z.of_nat (length T) = k ->
    (if k =? 0 then H = [] /\ T = [] else Hx = H /\ Tx = T) ->
    (k + Z.of_nat (length chunk) = 16 \/ i0 + k + Z.of_nat (length chunk) = len) ->
    i0 + k + Z.of_nat (length chunk) <= len ->
    hexdump_loop (chunk ++ rest) (i0 + k) len (mk_hexdump Hx Tx off out)
    = hexdump_loop rest (i0 + k + Z.of_nat (length chunk)) len
        (mk_hexdump (H ++ hex_column k chunk) (T ++ text_column chunk)
           (i0 + k + Z.of_nat (length chunk))
           (out ++ fmt_08zx off ++ [x20; x20] ++ fmt_s_49 (H ++ hex_column k chunk)
            ++ [x20; x7c] ++ (T ++ text_column chunk) ++ [x7c; x0a])).
Proof.
  induction chunk as [|b chunk IH]; intros k H T Hx Tx Hi Hk Hlen Hne HH HT Hst Hend Hle;
    [contradiction|].
  rewrite <- app_comm_cons, hexdump_loop_cons. cbn [length] in *. unfold hexdump_turn.
  rewrite (line_index i0 k Hi) by lia.
  cbv zeta. cbn [hd_hex hd_text hd_off hd_out].
  assert (Est : (if k =? 0 then mk_hexdump [] [] off out else mk_hexdump Hx Tx off out)
                = mk_hexdump H T off out).
  { destruct (k =? 0); destruct Hst as [-> ->]; reflexivity. }
  rewrite Est. clear Est. cbn [hd_hex hd_text hd_off hd_out].
  assert (W : hex_width k <= 46).
  { unfold hex_width. destruct (8 <=? k); lia. }
  unfold sprintf_at, sizeof_hex, sizeof_text.
  rewrite !length_app, fmt_02x_length. cbn [length].
  match goal with
  | |- context [if ?c then Some (H ++ _) else None] =>
      replace c with true
        by (symmetry; apply Z.leb_le; rewrite HH; unfold hex_width in *;
            destruct (k =? 7) eqn:E7; [apply Z.eqb_eq in E7 | apply Z.eqb_neq in E7];
            destruct (8 <=? k) eqn:E8; [apply Z.leb_le in E8 | apply Z.leb_gt in E8
                                       | apply Z.leb_le in E8 | apply Z.leb_gt in E8];
            cbn [length]; lia)
  end.
  match goal with
  | |- context [if ?c then Some (T ++ _) else None] =>
      replace c with true by (symmetry; apply Z.leb_le; lia)
  end.
  destruct chunk as [|b' chunk'].
  - (* the last byte of the line *)
    cbn [length] in *.
    replace ((k =? 15) || (i0 + k + 1 =? len)) with true
      by (symmetry; apply orb_true_iff; rewrite !Z.eqb_eq; lia).
    cbn [hex_column text_column map app]. rewrite !app_nil_r.
    replace (i0 + k + Z.of_nat 1) with (i0 + k + 1) by lia. reflexivity.
  - replace ((k =? 15) || (i0 + k + 1 =? len)) with false
      by (symmetry; apply orb_false_iff; rewrite !Z.eqb_neq; cbn [length] in *; lia).
    set (piece := fmt_02x (byte_val b) ++ [x20] ++ (if k =? 7 then [x20] else [])).
    set (c := if isprint (byte_val b) then b else x2e).
    assert (A1 : 0 <= k + 1) by lia.
    assert (A2 : k + 1 + Z.of_nat (length (b' :: chunk')) <= 16) by lia.
    assert (A3 : b' :: chunk' <> []) by discriminate.
    assert (A4 : Z.of_nat (length (H ++ piece)) = hex_width (k + 1)).
    { rewrite length_app, Nat2Z.inj_add, HH.
      pose proof (hex_column_length [b] k Hk) as L. cbn [hex_column length] in L.
      rewrite app_nil_r in L. fold piece in L. change (Z.of_nat 1) with 1 in L. lia. }
    assert (A5 : Z.of_nat (length (T ++ [c])) = k + 1)
      by (rewrite length_app, Nat2Z.inj_add, HT; reflexivity).
    assert (A6 : if k + 1 =? 0 then H ++ piece = [] /\ T ++ [c] = []
                 else H ++ piece = H ++ piece /\ T ++ [c] = T ++ [c]).
    { replace (k + 1 =? 0) with false by (symmetry; apply Z.eqb_neq; lia).
      split; reflexivity. }
    assert (A7 : k + 1 + Z.of_nat (length (b' :: chunk')) = 16 \/
                 i0 + (k + 1) + Z.of_nat (length (b' :: chunk')) = len) by lia.
    assert (A8 : i0 + (k + 1) + Z.of_nat (length (b' :: chunk')) <= len) by lia.
    replace (i0 + k + 1) with (i0 + (k + 1)) by lia.
    rewrite (IH (k + 1) (H ++ piece) (T ++ [c]) (H ++ piece) (T ++ [c])
               Hi A1 A2 A3 A4 A5 A6 A7 A8).
    cbn [hex_column text_column map]. fold piece. fold c.
    rewrite <- !app_assoc. cbn [app].
    replace (i0 + (k + 1) + Z.of_nat (length (b' :: chunk')))
      with (i0 + k + Z.of_nat (S (length (b' :: chunk')))) by lia.
    reflexivity.
Qed.

Lemma hex_column_fits (chunk : list byte) :
  (length chunk <= 16)%nat -> (length (hex_column 0 chunk) <= 49)%nat.
Proof.
  intros H. pose proof (hex_column_length chunk 0 ltac:(lia)) as L.
  unfold hex_width in L. cbn [Z.leb Z.compare] in L.
  destruct (8 <=? 0 + Z.of_nat (length chunk)); lia.
Qed.

Lemma fmt_s_49_fits (str : list byte) :
  (length str <= 49)%nat -> fmt_s_49 str = str ++ repeat x20 (49 - length str).
Proof.
  intros H. unfold fmt_s_49. rewrite firstn_all2 by exact H. reflexivity.
Qed.

Lemma dump_lines_nil (n : nat) (off : Z) : dump_lines n off [] = [].
Proof. destruct n; reflexivity. Qed.

Lemma hexdump_chunks (len : Z) (n : nat) :
  forall data i0 Hx Tx out,
    (length data <= n)%nat ->
    i0 mod 16 = 0 -> i0 + Z.of_nat (length data) = len ->
    exists x,
      hexdump_loop data i0 len (mk_hexdump Hx Tx i0 out) = Some x /\
      hd_out x = out ++ dump_lines n i0 data.
Proof.
  induction n as [|n IH]; intros data i0 Hx Tx out Hn Hi Hlen.
  - destruct data; [|cbn [length] in Hn; lia].
    eexists. split; [reflexivity|]. cbn [hd_out dump_lines]. rewrite app_nil_r. reflexivity.
  - destruct data as [|b data'].
    { eexists. split; [reflexivity|]. cbn [hd_out dump_lines]. rewrite app_nil_r. reflexivity. }
    change (dump_lines (S n) i0 (b :: data'))
      with (dump_line i0 (firstn 16 (b :: data'))
            ++ dump_lines n (i0 + 16) (skipn 16 (b :: data'))).
    assert (Hsplit : b :: data' = firstn 16 (b :: data') ++ skipn 16 (b :: data'))
      by (symmetry; apply firstn_skipn).
    assert (Hc : (length (firstn 16 (b :: data')) <= 16)%nat) by apply firstn_le_length.
    assert (Hcl : length (firstn 16 (b :: data')) = Nat.min 16 (length (b :: data')))
      by apply length_firstn.
    assert (Hrl : length (skipn 16 (b :: data')) = (length (b :: data') - 16)%nat)
      by apply length_skipn.
    remember (firstn 16 (b :: data')) as chunk eqn:Echunk.
    remember (skipn 16 (b :: data')) as rest eqn:Erest.
    clear Echunk Erest.
    assert (Hne : chunk <> []).
    { intros E. rewrite E in Hcl. cbn [length] in Hcl. lia. }
    pose proof (hexdump_line len i0 i0 out rest chunk 0 [] [] Hx Tx Hi
                  ltac:(lia) ltac:(lia) Hne eq_refl eq_refl (conj eq_refl eq_refl)) as L.
    rewrite Z.add_0_r in L. rewrite Hsplit, L; clear L.
    2: { cbn [length] in *. lia. }
    2: { cbn [length] in *. lia. }
    cbn [app].
    assert (Eline : fmt_08zx i0 ++ [x20; x20] ++ fmt_s_49 (hex_column 0 chunk)
                    ++ [x20; x7c] ++ text_column chunk ++ [x7c; x0a]
                    = dump_line i0 chunk).
    { unfold dump_line. rewrite (fmt_s_49_fits _ (hex_column_fits chunk Hc)). reflexivity. }
    destruct rest as [|r rest'].
    + eexists. split; [reflexivity|]. cbn [hd_out].
      rewrite dump_lines_nil, app_nil_r, <- Eline. reflexivity.
    + assert (H16 : length chunk = 16%nat) by (cbn [length] in *; lia).
      rewrite H16. change (Z.of_nat 16) with 16.
      destruct (IH (r :: rest') (i0 + 16) (hex_column 0 chunk) (text_column chunk)
                  (out ++ fmt_08zx i0 ++ [x20; x20] ++ fmt_s_49 (hex_column 0 chunk)
                   ++ [x20; x7c] ++ text_column chunk ++ [x7c; x0a]))
        as (x & Hx' & Hout).
      * cbn [length] in *. lia.
      * rewrite Z.add_mod, Hi by lia. reflexivity.
      * cbn [length] in *. lia.
      * exists x. split; [exact Hx'|].
        rewrite Hout, Eline, <- app_assoc. reflexivity.
Qed.

Lemma hexdump_dump (hex0 text0 out data : list byte) :
  exists hex text,
    hexdump hex0 text0 out data
    = Some (out ++ dump_lines (length data) 0 data
            ++ fmt_08zx (Z.of_nat (length data)) ++ [x0a], hex, text).
Proof.
  unfold hexdump.
  destruct (hexdump_chunks (Z.of_nat (length data)) (length data) data 0 hex0 text0 out
              (le_n _) eq_refl eq_refl) as (x & -> & Hout).
  rewrite Hout, <- app_assoc. eauto.
Qed.

(** [hexdump] never writes past its static buffers [hex] (50 bytes)
    and [text] (17 bytes), whatever they hold from an earlier call, and
    the precision of [%-49.49s] cuts nothing off.  It prints a line for
    every sixteen bytes of the data and one for what is left, each with
    the offset of its first byte in eight hex digits, the bytes in hex,
    in a column of 49 characters, and the bytes as text between two
    bars; the last line is the length of the data in hex. *)
Theorem hexdump_prints_lines (hex0 text0 out data : list byte) :
  exists hex text,
    hexdump hex0 text0 out data
    = Some (out ++ dump_lines (length data) 0 data
            ++ fmt_08zx (Z.of_nat (length data)) ++ [x0a], hex, text).
Proof. exact (hexdump_dump hex0 text0 out data). Qed.

(** ** [read_file] and [write_file] *)

Lemma read_loop_spec (m : allocator) (broken : bool) :
  (forall size, calloc_ok m size = true) ->
  forall fuel remaining consumed buf buf_size sz,
    (length remaining / 1024 + 2 <= fuel)%nat ->
    read_inv buf buf_size sz consumed ->
    exists fp,
      in_bytes fp = [] /\
      if broken then
        read_loop m fuel (mk_in remaining true false false) buf buf_size sz
        = Some (Read_null, fp)
      else
        exists bytes,
          read_loop m fuel (mk_in remaining false false false) buf buf_size sz
          = Some (Read_buffer bytes (Z.of_nat (length (consumed ++ remaining))), fp) /\
          firstn (length (consumed ++ remaining)) bytes = consumed ++ remaining /\
          (length (consumed ++ remaining) <= length bytes)%nat /\
          in_eof fp = true.
Proof.
  intros Hm fuel. induction fuel as [|fuel IH];
    intros remaining consumed buf buf_size sz Hf (Hsz & Hbuf); [lia|].
  cbn [read_loop]. rewrite !Hm.
  (* the buffer after the allocation *)
  set (grown :=
         if buf_size <? sz + block_size
         then Some (Some match buf with
                         | Some old =>
                             old ++ skipn (length old)
                                      (repeat x00 (Z.to_nat (if buf_size =? 0 then block_size
                                                             else buf_size * 2)))
                         | None => repeat x00 (Z.to_nat (if buf_size =? 0 then block_size
                                                         else buf_size * 2))
                         end,
                    if buf_size =? 0 then block_size else buf_size * 2)
         else Some (buf, buf_size)).
  assert (G : exists bytes size,
             grown = Some (Some bytes, size) /\
             Z.of_nat (length bytes) = size /\ sz + block_size <= size /\
             firstn (length consumed) bytes = consumed).
  { unfold grown, block_size in *.
    destruct (buf_size <? sz + 1024) eqn:E;
      [apply Z.ltb_lt in E | apply Z.ltb_ge in E].
    - destruct buf as [old|].
      + destruct Hbuf as (Hl & Hb & Hs & Hfirst).
        replace (buf_size =? 0) with false by (symmetry; apply Z.eqb_neq; lia).
        eexists _, _. split; [reflexivity|]. split; [|split; [lia|]].
        * rewrite length_app, length_skipn, repeat_length. lia.
        * rewrite firstn_app, Hfirst.
          replace (length consumed - length old)%nat with O by lia.
          cbn [firstn]. apply app_nil_r.
      + destruct Hbuf as (-> & ->). cbn [length] in Hsz. subst sz.
        replace (0 =? 0) with true by reflexivity.
        eexists _, _. split; [reflexivity|]. split; [|split; [lia|reflexivity]].
        rewrite repeat_length. lia.
    - destruct buf as [old|].
      + destruct Hbuf as (Hl & Hb & Hs & Hfirst).
        eexists _, _. split; [reflexivity|]. split; [exact Hl|]. split; [lia|exact Hfirst].
      + destruct Hbuf as (-> & ->). cbn [length] in Hsz. lia. }
  fold grown. destruct G as (bytes & size & -> & Hl & Hroom & Hfirst).
  replace (size <? sz + block_size) with false by (symmetry; apply Z.ltb_ge; lia).
  unfold fread. cbn [in_bytes in_broken in_eof in_error].
  change (Z.to_nat block_size) with 1024%nat.
  destruct (1024 <=? length remaining)%nat eqn:E;
    [apply Nat.leb_le in E | apply Nat.leb_gt in E].
  - (* a full block *)
    cbn [in_eof]. rewrite length_firstn, Nat.min_l by exact E.
    change (Z.of_nat 1024 =? block_size) with true. cbn [negb].
    destruct (IH (skipn 1024 remaining) (consumed ++ firstn 1024 remaining)
                (Some (firstn (Z.to_nat sz) bytes ++ firstn 1024 remaining
                       ++ skipn (Z.to_nat (sz + Z.of_nat 1024)) bytes))
                size (sz + Z.of_nat 1024)) as (fp & Hfp & R).
    + rewrite length_skipn.
      assert (D : (length remaining / 1024 = S ((length remaining - 1024) / 1024))%nat).
      { replace (length remaining) with ((length remaining - 1024) + 1 * 1024)%nat at 1 by lia.
        rewrite Nat.div_add by lia. lia. }
      lia.
    + split; [rewrite length_app, length_firstn, Nat.min_l by exact E; lia|].
      unfold block_size in *.
      split; [|split; [lia|split; [lia|]]].
      * rewrite !length_app, length_firstn, length_firstn, length_skipn. lia.
      * rewrite Hsz, Nat2Z.id, Hfirst.
        rewrite firstn_app, length_app.
        replace (length consumed + length (firstn 1024 remaining) - length consumed)%nat
          with (length (firstn 1024 remaining)) by lia.
        rewrite firstn_all2 by lia.
        rewrite firstn_app, Nat.sub_diag. cbn [firstn].
        rewrite firstn_all, app_nil_r. reflexivity.
    + exists fp. split; [exact Hfp|].
      rewrite <- app_assoc, firstn_skipn in R. exact R.
  - (* the last block *)
    exists (mk_in [] broken (if broken then false else true)
              (if broken then true else false)).
    split; [reflexivity|].
    replace (Z.of_nat (length remaining) =? block_size) with false
      by (symmetry; apply Z.eqb_neq; unfold block_size; lia).
    cbn [negb]. destruct broken; cbn [in_eof]; [reflexivity|].
    eexists. split; [|split; [|split; [|reflexivity]]].
    + rewrite Hsz, length_app, Nat2Z.inj_add. reflexivity.
    + rewrite ?Hsz, Nat2Z.id, Hfirst. unfold block_size in *.
      rewrite firstn_app, length_app.
      replace (length consumed + length remaining - length consumed)%nat
        with (length remaining) by lia.
      rewrite firstn_all2 by lia.
      rewrite firstn_app, Nat.sub_diag. cbn [firstn].
      rewrite firstn_all, app_nil_r. reflexivity.
    + unfold block_size in *.
      rewrite !length_app, length_firstn, length_skipn. lia.
Qed.

(** [read_file] on a stream with the bytes [content], when every
    [calloc] succeeds.  When the stream ends without an error, the
    result is the whole content: [*size] is the number of its bytes and
    the buffer begins with them.  When it ends in a read error, the
    result is [NULL], whatever was read before.  Every [fread] has
    [block_size] bytes of room at [buf + sz]: doubling the buffer is
    always enough. *)
Theorem read_file_reads_all (m : allocator) (content : list byte) (broken : bool) :
  (forall size, calloc_ok m size = true) ->
  exists fp,
    in_bytes fp = [] /\
    if broken then
      read_file m (mk_in content true false false) = Some (Read_null, fp)
    else
      exists buf,
        read_file m (mk_in content false false false)
        = Some (Read_buffer buf (Z.of_nat (length content)), fp) /\
        firstn (length content) buf = content /\
        (length content <= length buf)%nat /\
        in_eof fp = true.
Proof.
  intros Hm. unfold read_file. cbn [in_bytes].
  change (Z.to_nat block_size) with 1024%nat.
  destruct (read_loop_spec m broken Hm (length content / 1024 + 2) content [] None 0 0
              (le_n _)) as (fp & Hfp & R).
  { split; [reflexivity|]. split; reflexivity. }
  cbn [app] in R. exists fp. split; [exact Hfp | exact R].
Qed.

Lemma read_file_reads_all_witness :
  exists fp,
    in_bytes fp = [] /\
    exists buf,
      read_file (mk_allocator (fun _ => true) (fun _ => 4096))
        (mk_in [x61; x62] false false false)
      = Some (Read_buffer buf (Z.of_nat (length [x61; x62])), fp) /\
      firstn (length [x61; x62]) buf = [x61; x62] /\
      (length [x61; x62] <= length buf)%nat /\
      in_eof fp = true.
Proof.
  apply (read_file_reads_all (mk_allocator (fun _ => true) (fun _ => 4096)) [x61; x62]
           false).
  intros size. reflexivity.
Defined.

Lemma write_loop_step (stream : Type) (fwrite : list byte -> stream -> nat * stream)
    (fflush : stream -> stream) (fuel : nat) (d : list byte) (n len : Z) (fp : stream) :
  write_loop fwrite fflush (S fuel) d n len fp
  = if 0 <? len then
      let sz := if block_size <? len then block_size else len in
      let '(nw, fp) := fwrite (firstn (Z.to_nat sz) (skipn (Z.to_nat n) d)) fp in
      if negb (Z.of_nat nw =? sz) then Some (-1, fp)
      else write_loop fwrite fflush fuel d (n + Z.of_nat nw) (len - Z.of_nat nw) fp
    else Some (0, fflush fp).
Proof. reflexivity. Qed.

Lemma fwrite_eq (data : list byte) (fp : out_stream) :
  fwrite data fp
  = match out_room fp with
    | None => (length data, mk_out (out_bytes fp ++ data) None)
    | Some room =>
        if (length data <=? room)%nat
        then (length data, mk_out (out_bytes fp ++ data) (Some (room - length data)%nat))
        else (room, mk_out (out_bytes fp ++ firstn room data) (Some O))
    end.
Proof. reflexivity. Qed.

Lemma write_loop_spec (d : list byte) :
  forall fuel n len fp,
    0 <= n -> 0 <= len -> n + len = Z.of_nat (length d) ->
    (Z.to_nat len + 1 <= fuel)%nat ->
    exists fp',
      write_loop fwrite fflush fuel d n len fp
      = Some (if (length (taken fp (skipn (Z.to_nat n) d)) =? Z.to_nat len)%nat
              then 0 else -1, fp') /\
      out_bytes fp' = out_bytes fp ++ taken fp (skipn (Z.to_nat n) d).
Proof.
  induction fuel as [|fuel IH]; intros n len fp Hn Hlen Hd Hf; [lia|].
  assert (Hrest : length (skipn (Z.to_nat n) d) = Z.to_nat len)
    by (rewrite length_skipn; lia).
  rewrite write_loop_step. cbv zeta.
  destruct (0 <? len) eqn:E; [apply Z.ltb_lt in E | apply Z.ltb_ge in E].
  - set (sz := if block_size <? len then block_size else len).
    assert (Hsz : 0 < sz <= len /\ sz <= block_size).
    { unfold sz, block_size. destruct (1024 <? len) eqn:E2;
        [apply Z.ltb_lt in E2 | apply Z.ltb_ge in E2]; lia. }
    set (rest := skipn (Z.to_nat n) d) in *.
    assert (Hblock : length (firstn (Z.to_nat sz) rest) = Z.to_nat sz)
      by (rewrite length_firstn; lia).
    rewrite fwrite_eq. unfold taken. destruct (out_room fp) as [room|] eqn:Hroom.
    + rewrite Hblock.
      destruct (Z.to_nat sz <=? room)%nat eqn:E3;
        [apply Nat.leb_le in E3 | apply Nat.leb_gt in E3].
      * replace (Z.of_nat (Z.to_nat sz) =? sz) with true
          by (symmetry; apply Z.eqb_eq; lia).
        cbn [negb].
        destruct (IH (n + Z.of_nat (Z.to_nat sz)) (len - Z.of_nat (Z.to_nat sz))
                    (mk_out (out_bytes fp ++ firstn (Z.to_nat sz) rest)
                       (Some (room - Z.to_nat sz)%nat)))
          as (fp' & R & Hout); try lia.
        exists fp'. rewrite R, Hout. unfold taken. cbn [out_room out_bytes].
        replace (skipn (Z.to_nat (n + Z.of_nat (Z.to_nat sz))) d)
          with (skipn (Z.to_nat sz) rest)
          by (unfold rest; rewrite skipn_skipn; f_equal; lia).
        split.
        -- f_equal. f_equal.
           rewrite !length_firstn, length_skipn, Hrest.
           destruct (Nat.min (room - Z.to_nat sz) (Z.to_nat len - Z.to_nat sz)
                     =? Z.to_nat (len - Z.of_nat (Z.to_nat sz)))%nat eqn:E4;
             [apply Nat.eqb_eq in E4 | apply Nat.eqb_neq in E4];
             destruct (Nat.min room (Z.to_nat len) =? Z.to_nat len)%nat eqn:E5;
             [apply Nat.eqb_eq in E5 | apply Nat.eqb_neq in E5
             | apply Nat.eqb_eq in E5 | apply Nat.eqb_neq in E5];
             try reflexivity; lia.
        -- rewrite <- app_assoc. f_equal.
           rewrite <- (firstn_skipn (Z.to_nat sz) (firstn room rest)).
           rewrite firstn_firstn, Nat.min_l by exact E3.
           f_equal. rewrite skipn_firstn_comm. reflexivity.
      * replace (Z.of_nat room =? sz) with false by (symmetry; apply Z.eqb_neq; lia).
        cbn [negb].
        exists (mk_out (out_bytes fp ++ firstn room (firstn (Z.to_nat sz) rest)) (Some O)).
        cbn [out_bytes]. rewrite firstn_firstn, Nat.min_l by lia.
        split; [|reflexivity].
        rewrite length_firstn, Hrest.
        replace (Nat.min room (Z.to_nat len) =? Z.to_nat len)%nat with false
          by (symmetry; apply Nat.eqb_neq; lia).
        reflexivity.
    + rewrite Hblock.
      replace (Z.of_nat (Z.to_nat sz) =? sz) with true by (symmetry; apply Z.eqb_eq; lia).
      cbn [negb].
      destruct (IH (n + Z.of_nat (Z.to_nat sz)) (len - Z.of_nat (Z.to_nat sz))
                  (mk_out (out_bytes fp ++ firstn (Z.to_nat sz) rest) None))
        as (fp' & R & Hout); try lia.
      exists fp'. rewrite R, Hout. unfold taken. cbn [out_room out_bytes].
      replace (skipn (Z.to_nat (n + Z.of_nat (Z.to_nat sz))) d)
        with (skipn (Z.to_nat sz) rest)
        by (unfold rest; rewrite skipn_skipn; f_equal; lia).
      split.
      * f_equal. f_equal. rewrite length_skipn, Hrest.
        replace (Z.to_nat len - Z.to_nat sz =? Z.to_nat (len - Z.of_nat (Z.to_nat sz)))%nat
          with true by (symmetry; apply Nat.eqb_eq; lia).
        rewrite Nat.eqb_refl. reflexivity.
      * rewrite <- app_assoc, firstn_skipn. reflexivity.
  - assert (len = 0) by lia. subst len. unfold fflush.
    exists fp. split.
    + destruct (skipn (Z.to_nat n) d); [|cbn [length] in Hrest; lia].
      unfold taken. destruct (out_room fp); rewrite ?firstn_nil; reflexivity.
    + destruct (skipn (Z.to_nat n) d); [|cbn [length] in Hrest; lia].
      unfold taken. destruct (out_room fp); rewrite ?firstn_nil, app_nil_r; reflexivity.
Qed.

(** On a stream of the model the destination has taken what it has
    room for, whatever [write_file] returns. *)
Lemma write_file_taken (fp : out_stream) (data : list byte) :
  exists ret fp',
    write_file fwrite fflush fp data = Some (ret, fp') /\
    out_bytes fp' = out_bytes fp ++ taken fp data.
Proof.
  unfold write_file.
  destruct (write_loop_spec data (length data + 1) 0 (Z.of_nat (length data)) fp)
    as (fp' & R & Hout); try lia.
  change (Z.to_nat 0) with O in *. cbn [skipn] in *. eauto.
Qed.

Lemma blocks_of_nil (fuel : nat) : blocks_of fuel [] = [].
Proof. destruct fuel; reflexivity. Qed.

Lemma blocks_of_concat (fuel : nat) :
  forall data, (length data <= fuel)%nat -> concat (blocks_of fuel data) = data.
Proof.
  induction fuel as [|fuel IH]; intros data H.
  - destruct data; [reflexivity | cbn [length] in H; lia].
  - destruct data as [|b data]; [reflexivity|].
    cbn [blocks_of concat]. rewrite IH.
    + apply firstn_skipn.
    + rewrite length_skipn. cbn [length] in *. lia.
Qed.

Lemma blocks_of_sizes (fuel : nat) :
  forall data,
    Forall (fun block => (0 < length block <= 1024)%nat) (blocks_of fuel data).
Proof.
  induction fuel as [|fuel IH]; intros data; [constructor|].
  destruct data as [|b data]; [constructor|].
  cbn [blocks_of]. constructor; [|apply IH].
  rewrite length_firstn. cbn [length]. lia.
Qed.

Section Write_file_proofs.

Variable stream : Type.
Variable fwrite : list byte -> stream -> nat * stream.
Variable fflush : stream -> stream.

Lemma write_loop_blocks (d : list byte) :
  forall fuel n len fp,
    0 <= n -> 0 <= len -> n + len = Z.of_nat (length d) ->
    (Z.to_nat len + 1 <= fuel)%nat ->
    forall k, (Z.to_nat len <= k)%nat ->
      write_loop fwrite fflush fuel d n len fp
      = Some (hand_over fwrite fflush (blocks_of k (skipn (Z.to_nat n) d)) fp).
Proof.
  induction fuel as [|fuel IH]; intros n len fp Hn Hlen Hd Hf k Hk; [lia|].
  assert (Hrest : length (skipn (Z.to_nat n) d) = Z.to_nat len)
    by (rewrite length_skipn; lia).
  rewrite write_loop_step. cbv zeta.
  destruct (0 <? len) eqn:E; [apply Z.ltb_lt in E | apply Z.ltb_ge in E].
  - set (sz := if block_size <? len then block_size else len).
    assert (Hsz : 0 < sz <= len /\ sz <= block_size /\
                  Z.to_nat sz = Nat.min 1024 (Z.to_nat len)).
    { unfold sz, block_size. destruct (1024 <? len) eqn:E2;
        [apply Z.ltb_lt in E2 | apply Z.ltb_ge in E2]; lia. }
    set (rest := skipn (Z.to_nat n) d) in *.
    assert (Hfirst : firstn (Z.to_nat sz) rest = firstn 1024 rest).
    { destruct Hsz as (_ & _ & ->).
      destruct (Nat.le_gt_cases 1024 (Z.to_nat len)) as [L|L].
      - rewrite Nat.min_l by exact L. reflexivity.
      - rewrite Nat.min_r by lia. rewrite !firstn_all2 by lia. reflexivity. }
    assert (Hskip : skipn (Z.to_nat sz) rest = skipn 1024 rest).
    { destruct Hsz as (_ & _ & ->).
      destruct (Nat.le_gt_cases 1024 (Z.to_nat len)) as [L|L].
      - rewrite Nat.min_l by exact L. reflexivity.
      - rewrite Nat.min_r by lia. rewrite !skipn_all2 by lia. reflexivity. }
    destruct k as [|k]; [lia|].
    destruct rest as [|b rest'] eqn:Hr; [cbn [length] in Hrest; lia|].
    cbn [blocks_of hand_over]. rewrite <- Hr in *. rewrite Hfirst.
    assert (Hblock : length (firstn 1024 rest) = Z.to_nat sz)
      by (rewrite length_firstn, Hrest; lia).
    destruct (fwrite (firstn 1024 rest) fp) as [nw fp'].
    rewrite Hblock.
    destruct (Z.of_nat nw =? sz) eqn:E3;
      [apply Z.eqb_eq in E3 | apply Z.eqb_neq in E3]; cbn [negb].
    + replace (nw =? Z.to_nat sz)%nat with true by (symmetry; apply Nat.eqb_eq; lia).
      rewrite (IH (n + Z.of_nat nw) (len - Z.of_nat nw) fp'
                 ltac:(lia) ltac:(lia) ltac:(lia) ltac:(lia) k ltac:(lia)).
      do 3 f_equal. rewrite <- Hskip. unfold rest. rewrite skipn_skipn. f_equal. lia.
    + replace (nw =? Z.to_nat sz)%nat with false by (symmetry; apply Nat.eqb_neq; lia).
      reflexivity.
  - destruct (skipn (Z.to_nat n) d); [|cbn [length] in Hrest; lia].
    rewrite blocks_of_nil. reflexivity.
Qed.

End Write_file_proofs.

(** [write_file], on any stream and whatever [fwrite] and [fflush] do
    with it.  The data are given to [fwrite] in blocks, in their order:
    every block has at most 1024 bytes and none is empty, and the
    blocks together are the data.  When [fwrite] returns the length of
    its block for every block, the stream is flushed and the value is
    0.  The first other count ends the call with the value -1: no block
    is given to [fwrite] after it, and the stream is not flushed. *)
Theorem write_file_writes_all
    (stream : Type) (fwrite : list byte -> stream -> nat * stream)
    (fflush : stream -> stream) (fp : stream) (data : list byte) :
  write_file fwrite fflush fp data
  = Some (hand_over fwrite fflush (blocks_of (length data) data) fp) /\
  concat (blocks_of (length data) data) = data /\
  Forall (fun block => (0 < length block <= 1024)%nat) (blocks_of (length data) data).
Proof.
  split; [|split; [apply blocks_of_concat, le_n | apply blocks_of_sizes]].
  unfold write_file.
  rewrite (write_loop_blocks stream fwrite fflush data (length data + 1) 0
             (Z.of_nat (length data)) fp ltac:(lia) ltac:(lia) ltac:(lia) ltac:(lia)
             (length data) ltac:(lia)).
  reflexivity.
Qed.

(** Printing a text in pieces gives the stream that printing it at once
    gives: the text of [hexdump] is collected and printed at the end of
    the model. *)
Lemma fwrite_app (t1 t2 : list byte) (fp : out_stream) :
  snd (fwrite t2 (snd (fwrite t1 fp))) = snd (fwrite (t1 ++ t2) fp).
Proof.
  unfold fwrite. destruct fp as [out [room|]]; cbn [out_room out_bytes snd].
  - rewrite length_app.
    destruct (length t1 <=? room)%nat eqn:E1; cbn [out_room out_bytes snd].
    + apply Nat.leb_le in E1.
      destruct (length t2 <=? room - length t1)%nat eqn:E2; cbn [snd].
      * apply Nat.leb_le in E2.
        replace (length t1 + length t2 <=? room)%nat with true
          by (symmetry; apply Nat.leb_le; lia).
        cbn [snd]. rewrite <- app_assoc. do 2 f_equal. lia.
      * apply Nat.leb_gt in E2.
        replace (length t1 + length t2 <=? room)%nat with false
          by (symmetry; apply Nat.leb_gt; lia).
        cbn [snd]. rewrite <- app_assoc, firstn_app.
        rewrite (firstn_all2 t1) by exact E1. reflexivity.
    + apply Nat.leb_gt in E1.
      replace (length t1 + length t2 <=? room)%nat with false
        by (symmetry; apply Nat.leb_gt; lia).
      rewrite firstn_app. replace (room - length t1)%nat with O by lia.
      cbn [firstn]. rewrite app_nil_r.
      destruct (length t2 <=? 0)%nat eqn:E2; cbn [snd].
      * apply Nat.leb_le in E2. destruct t2; [|cbn [length] in E2; lia].
        cbn [length Nat.sub]. rewrite ?app_nil_r. reflexivity.
      * rewrite ?app_nil_r. reflexivity.
  - rewrite <- app_assoc. reflexivity.
Qed.

(** ** [main] *)

(** [main] refuses an empty input: when the input stream holds no byte,
    the run ends with the exit status 1 and nothing is written,
    whatever the options are and whether or not [calloc] succeeds. *)
Theorem main_rejects_empty_input
    (m : allocator) (opts : options) (stdout : out_stream) (outfile : option out_stream)
    (broken : bool) (hex0 text0 : list byte) :
  main_body m opts stdout outfile (mk_in [] broken false false) hex0 text0
  = Some (Exit 1 stdout outfile).
Proof.
  unfold main_body, main_steps, read_file. cbn [in_bytes length].
  change (0 / Z.to_nat block_size + 2)%nat with 2%nat. cbn [read_loop].
  change (0 <? 0 + block_size) with true. change (0 =? 0) with true. cbv iota.
  destruct (calloc_ok m block_size); [|reflexivity].
  change (block_size <? 0 + block_size) with false. cbv iota.
  unfold fread. cbn [in_bytes length in_broken in_eof in_error].
  change (Z.to_nat block_size <=? 0)%nat with false. cbv iota.
  change (Z.of_nat 0 =? block_size) with false. cbn [negb in_eof].
  destruct broken; reflexivity.
Qed.

Lemma buffer_after_exact (w : list byte) :
  buffer_after (Z.of_nat (length w)) w = Some w.
Proof.
  unfold buffer_after. rewrite Z.leb_refl, Nat2Z.id, Nat.sub_diag.
  cbn [repeat]. rewrite app_nil_r. reflexivity.
Qed.

Section MainProofs.

Variable m : allocator.
Variable opts : options.
Variable stdout : out_stream.
Variable outfile : option out_stream.

Hypothesis calloc_succeeds : forall size, calloc_ok m size = true.

Lemma calloc_step_ok (size : Z) :
  calloc_step m stdout outfile size = Go (calloc_addr m size).
Proof. unfold calloc_step. rewrite calloc_succeeds. reflexivity. Qed.

Lemma stored_exact (w : list byte) : stored (Z.of_nat (length w)) w = Go w.
Proof. unfold stored. rewrite buffer_after_exact. reflexivity. Qed.

(** The transcoding step gives the output of the stream. *)
Lemma transcode_ok (input : list byte) :
  3 * Z.of_nat (length input) < XTF8_ABORTED ->
  exists O,
    (if opt_decode opts then stream (dec_byte XTF8_ERR_REPLACE)
     else stream (enc_byte XTF8_ERR_REPLACE)) UTF8_ACCEPT 0 [] input = S_done O /\
    transcode m opts stdout outfile input = Go O.
Proof.
  intros Hfit. unfold transcode. destruct (opt_decode opts); cbn [f_xtf8].
  - destruct (dec_no_abort XTF8_ERR_REPLACE input eq_refl UTF8_ACCEPT 0 []) as [O HO].
    pose proof (dec_stream_length XTF8_ERR_REPLACE input) as L. rewrite HO in L.
    cbn [s_bytes] in L.
    exists O. split; [exact HO|].
    rewrite !xtf8_decode_stream, HO. cbn [view visible is_null].
    replace (Z.of_nat (length O) =? XTF8_ABORTED) with false
      by (symmetry; apply Z.eqb_neq; lia).
    rewrite calloc_step_ok. cbn [bind].
    rewrite xtf8_decode_stream, HO. cbn [view visible is_null]. apply stored_exact.
  - destruct (enc_no_abort XTF8_ERR_REPLACE input eq_refl UTF8_ACCEPT 0 []) as [O HO].
    pose proof (enc_stream_length XTF8_ERR_REPLACE input) as L. rewrite HO in L.
    cbn [s_bytes] in L.
    exists O. split; [exact HO|].
    rewrite !xtf8_encode_stream, HO. cbn [view visible is_null].
    replace (Z.of_nat (length O) =? XTF8_ABORTED) with false
      by (symmetry; apply Z.eqb_neq; lia).
    rewrite calloc_step_ok. cbn [bind].
    rewrite xtf8_encode_stream, HO. cbn [view visible is_null]. apply stored_exact.
Qed.

(** The unescaping step gives the output of [unescape_list], or ends
    the run. *)
Lemma unescape_input_ok (input : list byte) :
  Z.of_nat (length input) < JSON_ERR_UNESCAPE ->
  unescape_input m stdout outfile input
  = match unescape_list input with
    | S_done o => Go o
    | S_aborted _ => Done (Exit 1 stdout outfile)
    end.
Proof.
  intros Hfit. unfold unescape_input. rewrite !json_unescape_list.
  pose proof (proj1 (unescape_list_length input)) as L.
  destruct (unescape_list input) as [o|o] eqn:E;
    cbn [json_view visible is_null s_bytes] in *.
  - rewrite Z.eqb_refl. reflexivity.
  - replace (Z.of_nat (length o) =? JSON_ERR_UNESCAPE) with false
      by (symmetry; apply Z.eqb_neq; lia).
    rewrite calloc_step_ok. cbn [bind]. rewrite json_unescape_list, E.
    cbn [json_view visible is_null]. apply stored_exact.
Qed.

Lemma escape_output_ok (output : list byte) :
  escape_output m stdout outfile output = Go (json_escaped output).
Proof.
  unfold escape_output. rewrite !json_escape_escaped. cbn [fst snd visible is_null].
  rewrite calloc_step_ok. cbn [bind].
  rewrite json_escape_escaped. cbn [snd visible is_null]. apply stored_exact.
Qed.

Lemma read_step_ok (content : list byte) :
  content <> [] ->
  exists buf fp,
    read_file m (mk_in content false false false)
    = Some (Read_buffer buf (Z.of_nat (length content)), fp) /\
    (Z.of_nat (length content) =? 0) = false /\
    firstn (Z.to_nat (Z.of_nat (length content))) buf = content.
Proof.
  intros Hne.
  destruct (read_loop_spec m false calloc_succeeds (length content / 1024 + 2)
              content [] None 0 0 (le_n _)) as (fp & _ & bytes & R & Hfirst & _).
  { split; [reflexivity|]. split; reflexivity. }
  cbn [app] in *. exists bytes, fp. split; [exact R|]. split.
  - apply Z.eqb_neq. destruct content; [contradiction|cbn [length]; lia].
  - rewrite Nat2Z.id. exact Hfirst.
Qed.

(** A run on a stream that holds [content] and ends without an error,
    when every allocation succeeds. *)
Lemma main_steps_ok (content hex0 text0 : list byte) :
  content <> [] ->
  3 * Z.of_nat (length content) < XTF8_ABORTED ->
  main_steps m opts stdout outfile (mk_in content false false false) hex0 text0
  = (input <- (if opt_escape opts && opt_decode opts
               then match unescape_list content with
                    | S_done o => Go o
                    | S_aborted _ => Done (Exit 1 stdout outfile)
                    end
               else Go content) ;;
     output <- transcode m opts stdout outfile input ;;
     output <- (if opt_escape opts && negb (opt_decode opts)
                then Go (json_escaped output)
                else Go output) ;;
     write_output opts stdout outfile hex0 text0 output).
Proof.
  intros Hne Hfit. unfold main_steps.
  destruct (read_step_ok content Hne) as (buf & fp & -> & -> & ->).
  rewrite unescape_input_ok by (unfold JSON_ERR_UNESCAPE, XTF8_ABORTED in *; lia).
  assert (A : forall input,
             (output <- transcode m opts stdout outfile input ;;
              output <- (if opt_escape opts && negb (opt_decode opts)
                         then escape_output m stdout outfile output
                         else Go output) ;;
              write_output opts stdout outfile hex0 text0 output)
             = (output <- transcode m opts stdout outfile input ;;
                output <- (if opt_escape opts && negb (opt_decode opts)
                           then Go (json_escaped output)
                           else Go output) ;;
                write_output opts stdout outfile hex0 text0 output)).
  { intros input. destruct (transcode m opts stdout outfile input); cbn [bind];
      [|reflexivity..].
    rewrite escape_output_ok. reflexivity. }
  destruct (opt_escape opts && opt_decode opts); [|cbn [bind]; apply A].
  destruct (unescape_list content); cbn [bind]; [reflexivity|apply A].
Qed.

End MainProofs.

Lemma fputs_taken (text : list byte) (fp : out_stream) :
  out_bytes (fputs text fp) = out_bytes fp ++ taken fp text.
Proof.
  unfold fputs, fwrite, taken. destruct (out_room fp) as [room|]; [|reflexivity].
  destruct (length text <=? room)%nat eqn:E; cbn [snd out_bytes]; [|reflexivity].
  apply Nat.leb_le in E. rewrite firstn_all2 by exact E. reflexivity.
Qed.

Lemma written_stream (decode : bool) (a : Z) (input : list byte) (e : Z) (o : list byte) :
  (if decode then stream (dec_byte e) else stream (enc_byte e)) UTF8_ACCEPT 0 [] input
  = S_done o ->
  f_xtf8 decode (Some a) input e = Some (Returned (a + Z.of_nat (length o)) o).
Proof.
  destruct decode; cbn [f_xtf8]; intros H;
    rewrite ?xtf8_decode_stream, ?xtf8_encode_stream, H; reflexivity.
Qed.

(** A run of the tool without [-j], on an input that is not empty and
    ends without a read error, when every [calloc] succeeds: the run
    ends with the exit status 0 and no assertion fails.  What it writes
    are the bytes [w] that the writing pass of the transcoder stores
    with the REPLACE policy: to the file of [-o], or to the standard
    output when there is none.  With [-x] it writes the dump of [w] to
    the standard output instead, and nothing to the file of [-o]. *)
Theorem main_transcodes
    (m : allocator) (opts : options) (stdout : out_stream) (outfile : option out_stream)
    (content hex0 text0 : list byte) :
  (forall size, calloc_ok m size = true) ->
  opt_escape opts = false ->
  content <> [] ->
  3 * Z.of_nat (length content) < XTF8_ABORTED ->
  exists w stdout' outfile',
    (forall a, f_xtf8 (opt_decode opts) (Some a) content XTF8_ERR_REPLACE
               = Some (Returned (a + Z.of_nat (length w)) w)) /\
    main_body m opts stdout outfile (mk_in content false false false) hex0 text0
    = Some (Exit 0 stdout' outfile') /\
    if opt_hex opts then
      outfile' = outfile /\
      exists hex text,
        hexdump hex0 text0 [] w
        = Some (dump_lines (length w) 0 w ++ fmt_08zx (Z.of_nat (length w)) ++ [x0a],
                hex, text) /\
        out_bytes stdout'
        = out_bytes stdout
          ++ taken stdout (dump_lines (length w) 0 w ++ fmt_08zx (Z.of_nat (length w)) ++ [x0a])
    else
      match outfile with
      | Some fp =>
          stdout' = stdout /\
          exists fp', outfile' = Some fp' /\ out_bytes fp' = out_bytes fp ++ taken fp w
      | None =>
          outfile' = None /\ out_bytes stdout' = out_bytes stdout ++ taken stdout w
      end.
Proof.
  intros Hm Hj Hne Hfit. unfold main_body.
  rewrite (main_steps_ok m opts stdout outfile Hm content hex0 text0 Hne Hfit).
  rewrite Hj. cbn [andb bind].
  destruct (transcode_ok m opts stdout outfile Hm content Hfit) as (w & Hs & ->).
  cbn [bind]. unfold write_output.
  destruct (opt_hex opts).
  - destruct (hexdump_dump hex0 text0 [] w) as (hex & text & Hd).
    rewrite Hd. eexists w, _, _.
    split; [intros a; apply written_stream, Hs|]. split; [reflexivity|].
    split; [reflexivity|]. exists hex, text. split; [exact Hd|].
    apply fputs_taken.
  - destruct outfile as [fp|].
    + destruct (write_file_taken fp w) as (ret & fp' & -> & Hout).
      eexists w, _, _.
      split; [intros a; apply written_stream, Hs|]. split; [reflexivity|].
      split; [reflexivity|]. eauto.
    + destruct (write_file_taken stdout w) as (ret & fp' & -> & Hout).
      eexists w, _, _.
      split; [intros a; apply written_stream, Hs|]. split; [reflexivity|].
      split; [reflexivity|]. exact Hout.
Qed.

Lemma main_transcodes_witness :
  exists w stdout' outfile',
    (forall a, f_xtf8 true (Some a) [xef; xbe; x80; x61] XTF8_ERR_REPLACE
               = Some (Returned (a + Z.of_nat (length w)) w)) /\
    main_body (mk_allocator (fun _ => true) (fun _ => 4096)) (mk_options true false false)
      (mk_out [] None) (Some (mk_out [] (Some 1%nat)))
      (mk_in [xef; xbe; x80; x61] false false false) [] []
    = Some (Exit 0 stdout' outfile') /\
    stdout' = mk_out [] None /\
    exists fp',
      outfile' = Some fp' /\
      out_bytes fp' = [] ++ taken (mk_out [] (Some 1%nat)) w.
Proof.
  apply (main_transcodes (mk_allocator (fun _ => true) (fun _ => 4096))
           (mk_options true false false) (mk_out [] None) (Some (mk_out [] (Some 1%nat)))
           [xef; xbe; x80; x61] [] []).
  - reflexivity.
  - reflexivity.
  - discriminate.
  - vm_compute. reflexivity.
Defined.

(** ** The tool run twice *)

Lemma utf8_next_ascii (st : Z) (b : byte) :
  In st utf8_states -> is_ascii b = true ->
  utf8_next st (byte_val b) = if st =? UTF8_ACCEPT then UTF8_ACCEPT else UTF8_REJECT.
Proof.
  intros Hst Hb.
  pose proof (forall_states_bytes
    (fun st z => negb (z <? 0x80)
                 || (utf8_next st z =? (if st =? UTF8_ACCEPT then UTF8_ACCEPT else UTF8_REJECT)))
    ltac:(vm_compute; reflexivity) st b Hst) as A.
  cbv beta in A. unfold is_ascii in Hb. rewrite Hb in A. cbn [negb orb] in A.
  apply Z.eqb_eq, A.
Qed.

Lemma ascii_not_reserved (c : Z) (b : byte) :
  is_ascii b = true -> in_pua (snd (utf8_decode UTF8_ACCEPT c (byte_val b))) = false.
Proof.
  intros Hb. rewrite utf8_decode_accept.
  pose proof (forall_bytes
    (fun z => negb (z <? 0x80) || negb (in_pua (snd (utf8_decode UTF8_ACCEPT 0 z))))
    ltac:(vm_compute; reflexivity) b) as A.
  cbv beta in A. unfold is_ascii in Hb. rewrite Hb in A. cbn [negb orb] in A.
  apply negb_true_iff, A.
Qed.

(** What the decoder does with an ASCII byte. *)
Lemma dec_byte_ascii (e st cp : Z) (pend : list byte) (b : byte) :
  pending_ok st pend -> is_ascii b = true ->
  dec_byte e st cp pend b
  = if st =? UTF8_ACCEPT then E_out [b] UTF8_ACCEPT 0 []
    else if e =? XTF8_ERR_ABORT then E_abort else E_retry replacement.
Proof.
  intros P Hb. pose proof (utf8_next_ascii st b (pending_ok_state _ _ P) Hb) as Hn.
  unfold dec_byte.
  destruct (utf8_decode st cp (byte_val b)) as [st' cp'] eqn:E.
  assert (Est : st' = utf8_next st (byte_val b))
    by (rewrite <- (utf8_decode_state st cp), E; reflexivity).
  rewrite Hn in Est. destruct (st =? UTF8_ACCEPT) eqn:Hs.
  - apply Z.eqb_eq in Hs. subst st st'.
    rewrite (proj1 (proj2 (proj2 P)) eq_refl). cbn [app].
    pose proof (ascii_not_reserved cp b Hb) as Hp. rewrite E in Hp. cbn [snd] in Hp.
    rewrite Hp. reflexivity.
  - subst st'. reflexivity.
Qed.

(** The decoder's output ends with the ASCII byte its input ends
    with. *)
Lemma dec_stream_last_ascii (e : Z) (b : byte) :
  is_ascii b = true ->
  forall r st c pend o,
    pending_ok st pend ->
    stream (dec_byte e) st c pend (r ++ [b]) = S_done o ->
    exists o', o = o' ++ [b].
Proof.
  intros Hb. induction r as [|a r IH]; intros st c pend o P H; cbn [app stream] in H.
  - rewrite (dec_byte_ascii e st c pend b P Hb) in H.
    destruct (st =? UTF8_ACCEPT).
    + cbn [s_push] in H. injection H as <-. exists []. reflexivity.
    + destruct (e =? XTF8_ERR_ABORT); [discriminate|].
      rewrite (dec_byte_ascii e _ 0 [] b pending_ok_nil Hb) in H.
      cbn [Z.eqb s_push] in H. change (UTF8_ACCEPT =? UTF8_ACCEPT) with true in H.
      cbn [s_push] in H. injection H as <-. exists replacement. reflexivity.
  - destruct (dec_byte e st c pend a) as [|o1 st1 c1 pend1|o1] eqn:Ef; [discriminate| |].
    + apply s_push_done_inv in H. destruct H as (o2 & H & ->).
      destruct (IH _ _ _ _ (dec_byte_out _ _ _ _ _ _ _ _ _ P Ef) H) as [o' ->].
      exists (o1 ++ o'). apply app_assoc.
    + apply s_push_done_inv in H. destruct H as (o2 & H & ->).
      destruct (dec_byte e UTF8_ACCEPT 0 [] a) as [|o3 st3 c3 pend3|o3] eqn:Ef2;
        [discriminate| |].
      * apply s_push_done_inv in H. destruct H as (o4 & H & ->).
        destruct (IH _ _ _ _ (dec_byte_out _ _ _ _ _ _ _ _ _ pending_ok_nil Ef2) H)
          as [o' ->].
        exists (o1 ++ o3 ++ o'). rewrite !app_assoc. reflexivity.
      * apply s_push_done_inv in H. destruct H as (o4 & H & ->).
        destruct (IH _ _ _ _ pending_ok_nil H) as [o' ->].
        exists (o1 ++ o3 ++ o'). rewrite !app_assoc. reflexivity.
Qed.

Lemma ends_in_long_escape_last (l : list byte) (b : byte) :
  ends_in_long_escape (l ++ [b]) = long_escaped b.
Proof.
  induction l as [|a l IH]; [reflexivity|].
  cbn [app ends_in_long_escape]. rewrite <- IH.
  destruct (l ++ [b]) eqn:E; [destruct l; discriminate|reflexivity].
Qed.

Lemma ends_in_long_escape_inv (l : list byte) :
  ends_in_long_escape l = true -> exists l' b, l = l' ++ [b] /\ long_escaped b = true.
Proof.
  destruct l as [|a l] using rev_ind; [discriminate|].
  rewrite ends_in_long_escape_last. eauto.
Qed.

Lemma long_escaped_ascii (b : byte) : long_escaped b = true -> is_ascii b = true.
Proof.
  unfold long_escaped, is_ascii. intros H. apply andb_true_iff in H.
  destruct H as [H _]. apply Z.leb_le in H. apply Z.ltb_lt. lia.
Qed.

(** What is decoded to [B] ends as [B] does. *)
Lemma decoded_ends_in_long_escape (e : Z) (E B : list byte) :
  stream (dec_byte e) UTF8_ACCEPT 0 [] E = S_done B ->
  ends_in_long_escape B = false -> ends_in_long_escape E = false.
Proof.
  intros Hd HB. destruct (ends_in_long_escape E) eqn:HE; [|reflexivity].
  destruct (ends_in_long_escape_inv E HE) as (E' & b & -> & Hb).
  destruct (dec_stream_last_ascii e b (long_escaped_ascii b Hb) E' _ _ _ _
              pending_ok_nil Hd) as [o' ->].
  rewrite ends_in_long_escape_last in HB. congruence.
Qed.

(** The output of [xtf8 | xtf8 -d], and of [xtf8 -j | xtf8 -d -j], is
    the input [B]: the first run ends with the exit status 0 and what it
    has written to its standard output, given to a second run with [-d]
    as its input, makes that run end with the exit status 0 and [B] on
    its standard output.  This holds when every [calloc] succeeds and
    [B] is not empty, holds no character of the reserved range
    U+EF80..U+EFFF, does not end in a truncated multi-byte sequence and,
    with [-j], does not end in a control byte that is escaped in the
    six-character form.  The bound on the length keeps the sizes of
    both runs below [(uintptr_t)-1]. *)
Theorem tool_roundtrip
    (m : allocator) (j : bool) (B hex0 text0 hex1 text1 : list byte) :
  (forall size, calloc_ok m size = true) ->
  B <> [] ->
  54 * Z.of_nat (length B) < XTF8_ABORTED ->
  returned (xtf8_encode None B XTF8_ERR_ABORT) <> Some XTF8_ABORTED ->
  (forall B' t, B = B' ++ t -> truncated t = true -> t = []) ->
  (j = true -> ends_in_long_escape B = false) ->
  exists out1 out2,
    main_body m (mk_options false j false) (mk_out [] None) None
      (mk_in B false false false) hex0 text0
    = Some (Exit 0 out1 None) /\
    main_body m (mk_options true j false) (mk_out [] None) None
      (mk_in (out_bytes out1) false false false) hex1 text1
    = Some (Exit 0 out2 None) /\
    out_bytes out2 = B.
Proof.
  intros Hm Hne Hfit Hno Hend Hj.
  rewrite xtf8_encode_stream in Hno.
  destruct (stream (enc_byte XTF8_ERR_ABORT) UTF8_ACCEPT 0 [] B) as [o|E] eqn:HE;
    [exfalso; apply Hno; reflexivity|].
  destruct (enc_dec_stream XTF8_ERR_REPLACE B _ _ _ _ (enc_dec_inv_nil _) HE)
    as (B' & t & HB & Ht & Hdec).
  cbn [app] in HB. pose proof (Hend B' t HB Ht) as ->.
  rewrite app_nil_r in HB. subst B'.
  pose proof (enc_abort_done XTF8_ERR_REPLACE _ _ _ _ _ HE) as HR.
  assert (HEne : E <> []).
  { intros ->. cbn [stream] in Hdec. injection Hdec as <-. apply Hne. reflexivity. }
  pose proof (enc_stream_length XTF8_ERR_REPLACE B) as LE.
  rewrite HR in LE. cbn [s_bytes] in LE.
  pose proof (json_escaped_length E) as LJ.
  (* the first run *)
  assert (R1 : main_body m (mk_options false j false) (mk_out [] None) None
                 (mk_in B false false false) hex0 text0
               = match write_file fwrite fflush (mk_out [] None)
                         (if j then json_escaped E else E) with
                 | Some (_, fp') => Some (Exit 0 fp' None)
                 | None => None
                 end).
  { unfold main_body. rewrite (main_steps_ok m _ _ _ Hm B hex0 text0 Hne) by lia.
    cbn [opt_escape opt_decode opt_hex]. rewrite andb_false_r. cbn [bind negb].
    destruct (transcode_ok m (mk_options false j false) (mk_out [] None) None Hm B)
      as (o & Ho & ->); [lia|].
    cbn [opt_decode] in Ho. rewrite HR in Ho. injection Ho as <-.
    cbn [bind]. rewrite andb_true_r.
    destruct j; cbn [bind]; unfold write_output; cbn [opt_hex];
      match goal with
      | |- context [write_file fwrite fflush ?fp ?d] =>
          destruct (write_file fwrite fflush fp d) as [[? ?]|]
      end; reflexivity. }
  destruct (write_file_taken (mk_out [] None) (if j then json_escaped E else E))
    as (ret1 & out1 & W1 & Hout1).
  rewrite W1 in R1. cbn [out_bytes out_room taken app] in Hout1.
  exists out1. rewrite R1, Hout1. clear R1 W1 Hout1.
  (* the second run *)
  assert (R2 : main_body m (mk_options true j false) (mk_out [] None) None
                 (mk_in (if j then json_escaped E else E) false false false) hex1 text1
               = match write_file fwrite fflush (mk_out [] None) B with
                 | Some (_, fp') => Some (Exit 0 fp' None)
                 | None => None
                 end).
  { unfold main_body. rewrite main_steps_ok; [|exact Hm| |].
    - cbn [opt_escape opt_decode opt_hex]. rewrite andb_true_r, andb_false_r.
      assert (Hin : (if j
                     then match unescape_list (if j then json_escaped E else E) with
                          | S_done o => Go o
                          | S_aborted _ => Done (Exit 1 (mk_out [] None) None)
                          end
                     else Go (if j then json_escaped E else E)) = Go E).
      { destruct j; [|reflexivity].
        rewrite (unescape_escaped E); [reflexivity|].
        exact (decoded_ends_in_long_escape _ _ _ Hdec (Hj eq_refl)). }
      rewrite Hin. cbn [bind].
      destruct (transcode_ok m (mk_options true j false) (mk_out [] None) None Hm E)
        as (o & Ho & ->); [lia|].
      cbn [opt_decode] in Ho. rewrite Hdec in Ho. injection Ho as <-.
      cbn [bind]. unfold write_output. cbn [opt_hex].
      destruct (write_file fwrite fflush (mk_out [] None) B) as [[? ?]|]; reflexivity.
    - destruct j; [|exact HEne].
      destruct E as [|b E']; [contradiction|apply json_escaped_nonempty].
    - destruct j; lia. }
  destruct (write_file_taken (mk_out [] None) B) as (ret2 & out2 & W2 & Hout2).
  rewrite W2 in R2. cbn [out_bytes out_room taken app] in Hout2.
  exists out2. split; [reflexivity|]. split; [exact R2 | exact Hout2].
Qed.

Lemma tool_roundtrip_witness :
  exists out1 out2,
    main_body (mk_allocator (fun _ => true) (fun _ => 4096)) (mk_options false true false)
      (mk_out [] None) None (mk_in [x61; xff; x01; xc3; xa9; x0a] false false false) [] []
    = Some (Exit 0 out1 None) /\
    main_body (mk_allocator (fun _ => true) (fun _ => 4096)) (mk_options true true false)
      (mk_out [] None) None (mk_in (out_bytes out1) false false false) [] []
    = Some (Exit 0 out2 None) /\
    out_bytes out2 = [x61; xff; x01; xc3; xa9; x0a].
Proof.
  apply (tool_roundtrip (mk_allocator (fun _ => true) (fun _ => 4096)) true
           [x61; xff; x01; xc3; xa9; x0a] [] [] [] []).
  - reflexivity.
  - discriminate.
  - vm_compute. reflexivity.
  - vm_compute. discriminate.
  - intros B' t H Ht.
    destruct B' as [|? [|? [|? [|? [|? [|? [|? ?]]]]]]]; cbn [app] in H;
      try discriminate; try (injection H; intros); subst; try reflexivity;
      vm_compute in Ht; discriminate.
  - reflexivity.
Defined.

(** ** The Lua bindings *)

Lemma store_lstring (buf : buffer) (w : list byte) :
  (length w <= length (buf_bytes buf))%nat ->
  exists buf',
    store_at buf w = Some buf' /\
    lstring buf' (Z.of_nat (length w)) = Some w /\
    length (buf_bytes buf') = length (buf_bytes buf).
Proof.
  intros H. unfold store_at.
  replace (length w <=? length (buf_bytes buf))%nat with true
    by (symmetry; apply Nat.leb_le, H).
  eexists. split; [reflexivity|]. unfold lstring. cbn [buf_bytes].
  rewrite length_app, length_skipn.
  replace (Z.of_nat (length w) <=? Z.of_nat (length w + (length (buf_bytes buf) - length w)))
    with true by (symmetry; apply Z.leb_le; lia).
  rewrite Nat2Z.id, firstn_app, Nat.sub_diag, firstn_all. cbn [firstn].
  rewrite app_nil_r. split; [reflexivity | lia].
Qed.

(** The two passes of a call on the same input: what the sizing pass
    returns, and what the writing pass stores at any address. *)
Lemma two_passes (decode : bool) (a : Z) (data : list byte) (e : Z) :
  fits (Some a) data ->
  exists ret w,
    f_xtf8 decode (Some a) data e = Some (Returned ret w) /\
    ((ret =? XTF8_ABORTED) = true /\
     f_xtf8 decode None data e = Some (Returned XTF8_ABORTED [])
     \/
     (ret =? XTF8_ABORTED) = false /\
     (Z.of_nat (length w) =? XTF8_ABORTED) = false /\
     f_xtf8 decode None data e = Some (Returned (Z.of_nat (length w)) []) /\
     forall a', exists ret', f_xtf8 decode (Some a') data e = Some (Returned ret' w)).
Proof.
  intros [Ha Hfit]. cbn [uintptr] in *.
  assert (S : exists r,
             (length (s_bytes r) <= 3 * length data)%nat /\
             forall dst, f_xtf8 decode dst data e = Some (view dst r)).
  { destruct decode; cbn [f_xtf8].
    - exists (stream (dec_byte e) UTF8_ACCEPT 0 [] data).
      split; [apply dec_stream_length | intros dst; apply xtf8_decode_stream].
    - exists (stream (enc_byte e) UTF8_ACCEPT 0 [] data).
      split; [apply enc_stream_length | intros dst; apply xtf8_encode_stream]. }
  destruct S as (r & L & S). rewrite !S.
  destruct r as [o|o]; cbn [view visible is_null s_bytes] in *.
  - exists XTF8_ABORTED, o. split; [reflexivity|]. left. split; reflexivity.
  - exists (a + Z.of_nat (length o)), o. split; [reflexivity|]. right.
    split; [apply Z.eqb_neq; lia|]. split; [apply Z.eqb_neq; lia|].
    split; [reflexivity|]. intros a'. rewrite S. cbn [view visible is_null]. eauto.
Qed.

Lemma f_xtf8_select (is_encode : bool) :
  (if is_encode then xtf8_encode else xtf8_decode) = f_xtf8 (negb is_encode).
Proof. destruct is_encode; reflexivity. Qed.

(** [l_helper] returns the bytes [w] that the writing pass stores, for
    an output that fits [LUAL_BUFFERSIZE] and for a longer one alike,
    whatever the buffer held before; it raises an error when the
    transcoder has aborted, and when the output is longer than
    [LUAL_BUFFERSIZE] and [malloc] fails.  The policy of the call is
    the second argument as an [int]: every value that is
    [XTF8_ERR_ABORT] modulo 2^32 aborts.  The area of
    [luaL_prepbuffer] has [LUAL_BUFFERSIZE] bytes and a block of
    [malloc] the size asked for. *)
Theorem l_helper_returns_output
    (h : lua_host) (is_encode : bool) (data : list byte) (err : option Z) (a : Z) :
  length (buf_bytes (luaL_prepbuffer h)) = Z.to_nat (LUAL_BUFFERSIZE h) ->
  (forall n, length (buf_bytes (malloc h n)) = Z.to_nat n) ->
  fits (Some a) data ->
  exists ret w,
    (if is_encode then xtf8_encode else xtf8_decode) (Some a) data
      (to_int (luaL_optinteger err XTF8_ERR_REPLACE))
    = Some (Returned ret w) /\
    l_helper h is_encode data err
    = Some (if ret =? XTF8_ABORTED then Lua_error found_invalid_sequence
            else if (Z.of_nat (length w) <=? LUAL_BUFFERSIZE h)
                    || malloc_ok h (Z.of_nat (length w))
                 then Lua_return w
                 else Lua_error out_of_memory).
Proof.
  intros Hprep Hmalloc Hfit.
  destruct (two_passes (negb is_encode) a data
              (to_int (luaL_optinteger err XTF8_ERR_REPLACE)) Hfit)
    as (ret & w & Hw & [[Hret Hsize]|(Hret & Hlen & Hsize & Hany)]);
    exists ret, w; unfold l_helper;
    rewrite f_xtf8_select; (split; [exact Hw|]); rewrite Hsize, Hret.
  - reflexivity.
  - rewrite Hlen.
    destruct (Z.of_nat (length w) <=? LUAL_BUFFERSIZE h) eqn:Hsmall; cbn [orb].
    + destruct (Hany (buf_addr (luaL_prepbuffer h))) as [ret' ->].
      destruct (store_lstring (luaL_prepbuffer h) w) as (p & -> & -> & _);
        [|reflexivity].
      apply Z.leb_le in Hsmall. rewrite Hprep. lia.
    + destruct (malloc_ok h (Z.of_nat (length w))); [|reflexivity].
      destruct (Hany (buf_addr (malloc h (Z.of_nat (length w))))) as [ret' ->].
      destruct (store_lstring (malloc h (Z.of_nat (length w))) w) as (p & -> & -> & _);
        [|reflexivity].
      rewrite Hmalloc, Nat2Z.id. apply le_n.
Qed.

Lemma l_helper_returns_output_witness :
  exists ret w,
    xtf8_encode (Some 4096) [x61; xff] (to_int (luaL_optinteger None XTF8_ERR_REPLACE))
    = Some (Returned ret w) /\
    l_helper
      (mk_lua_host 4 (mk_buffer 8192 [x01; x02; x03; x04]) (fun _ => true)
         (fun n => mk_buffer 12288 (repeat xaa (Z.to_nat n))))
      true [x61; xff] None
    = Some (if ret =? XTF8_ABORTED then Lua_error found_invalid_sequence
            else if (Z.of_nat (length w) <=? 4) || true
                 then Lua_return w
                 else Lua_error out_of_memory).
Proof.
  apply (l_helper_returns_output
           (mk_lua_host 4 (mk_buffer 8192 [x01; x02; x03; x04]) (fun _ => true)
              (fun n => mk_buffer 12288 (repeat xaa (Z.to_nat n))))
           true [x61; xff] None 4096).
  - reflexivity.
  - intros n. apply repeat_length.
  - split; vm_compute; [discriminate | reflexivity].
Defined.

(** The second argument is narrowed to an [int]: 2^32 + 1 is
    [XTF8_ERR_ABORT], and decoding the byte FF with it raises the
    error. *)
Example l_helper_narrows_err (h : lua_host) :
  to_int (2 ^ 32 + 1) = XTF8_ERR_ABORT /\
  l_helper h false [xff] (Some (2 ^ 32 + 1)) = Some (Lua_error found_invalid_sequence).
Proof. split; reflexivity. Qed.

(** A call of the FFI binding returns the bytes [w] that the writing
    pass stores, or [nil] and a message when the transcoder has
    aborted.  What an earlier call has left in the shared buffer does
    not show in the result, and the shared buffer keeps its size. *)
Theorem ffi_returns_output
    (decode : bool) (st : ffi_state) (data : list byte) (err : option Z) (a : Z) :
  ffi_ok st ->
  fits (Some a) data ->
  exists ret w st',
    f_xtf8 decode (Some a) data (policy err) = Some (Returned ret w) /\
    ffi_xtf8 decode st data err
    = Some (if ret =? XTF8_ABORTED then Ffi_nil found_invalid_sequence else Ffi_string w,
            st') /\
    ffi_ok st'.
Proof.
  intros Hst Hfit.
  destruct (two_passes decode a data (policy err) Hfit)
    as (ret & w & Hw & [[Hret Hsize]|(Hret & Hlen & Hsize & Hany)]);
    exists ret, w; unfold ffi_xtf8; fold (policy err); rewrite Hsize, Hret.
  - exists st. split; [exact Hw|]. split; [reflexivity | exact Hst].
  - rewrite Hlen. unfold get_buffer.
    destruct (_buf_size <? Z.of_nat (length w)) eqn:Hbig.
    + destruct (Hany (buf_addr (new_array st (Z.of_nat (length w))))) as [ret' ->].
      destruct (store_lstring (new_array st (Z.of_nat (length w))) w) as (p & -> & -> & _).
      { cbn [new_array buf_bytes]. rewrite repeat_length, Nat2Z.id. apply le_n. }
      exists st. split; [exact Hw|]. split; [reflexivity | exact Hst].
    + apply Z.ltb_ge in Hbig. unfold ffi_ok in Hst.
      destruct (_buf st) as [b|] eqn:Hb.
      * destruct (Hany (buf_addr b)) as [ret' ->].
        destruct (store_lstring b w) as (p & -> & -> & Hp); [rewrite Hst; lia|].
        eexists. split; [exact Hw|]. split; [reflexivity|].
        unfold ffi_ok. cbn [_buf]. rewrite Hp. exact Hst.
      * destruct (Hany (buf_addr (new_array st _buf_size))) as [ret' ->].
        destruct (store_lstring (new_array st _buf_size) w) as (p & -> & -> & Hp).
        { cbn [new_array buf_bytes]. rewrite repeat_length. lia. }
        eexists. split; [exact Hw|]. split; [reflexivity|].
        unfold ffi_ok. cbn [_buf]. rewrite Hp. cbn [new_array buf_bytes].
        apply repeat_length.
Qed.

Lemma ffi_returns_output_witness :
  exists ret w st',
    f_xtf8 true (Some 4096) [xef; xbe; x80; xff] (policy (Some XTF8_ERR_REPLACE))
    = Some (Returned ret w) /\
    ffi_xtf8 true (mk_ffi_state (Some (mk_buffer 8192 (repeat xaa 4096))) (fun _ => 12288))
      [xef; xbe; x80; xff] (Some XTF8_ERR_REPLACE)
    = Some (if ret =? XTF8_ABORTED then Ffi_nil found_invalid_sequence else Ffi_string w,
            st') /\
    ffi_ok st'.
Proof.
  apply (ffi_returns_output true
           (mk_ffi_state (Some (mk_buffer 8192 (repeat xaa 4096))) (fun _ => 12288))
           [xef; xbe; x80; xff] (Some XTF8_ERR_REPLACE) 4096).
  - apply repeat_length.
  - split; vm_compute; [discriminate | reflexivity].
Defined.

(** ** What a truncated sequence leaves behind

    A truncated sequence begins with a lead byte.  When the encoder
    reads it while an earlier sequence is pending, the lead byte is
    rejected, the bytes of the earlier sequence are mapped to the
    reserved range, and the lead byte is read again. *)

Lemma lead_byte_rejected (st : Z) (b : byte) :
  In st utf8_states -> st <> UTF8_ACCEPT ->
  utf8_next UTF8_ACCEPT (byte_val b) <> UTF8_ACCEPT ->
  utf8_next UTF8_ACCEPT (byte_val b) <> UTF8_REJECT ->
  utf8_next st (byte_val b) = UTF8_REJECT.
Proof.
  intros Hst Hn Ha Hr.
  pose proof (forall_states_bytes
    (fun st z => (st =? UTF8_ACCEPT)
                 || (utf8_next UTF8_ACCEPT z =? UTF8_ACCEPT)
                 || (utf8_next UTF8_ACCEPT z =? UTF8_REJECT)
                 || (utf8_next st z =? UTF8_REJECT))
    ltac:(vm_compute; reflexivity) st b Hst) as A.
  cbv beta in A.
  rewrite (proj2 (Z.eqb_neq _ _) Hn), (proj2 (Z.eqb_neq _ _) Ha),
    (proj2 (Z.eqb_neq _ _) Hr) in A.
  apply Z.eqb_eq, A.
Qed.

(** The encoder on a truncated sequence [t] that the input ends in:
    what was pending before it is flushed, and [t] produces nothing. *)
Lemma enc_truncated_after (e st c : Z) (pend t : list byte) :
  pending_ok st pend ->
  t <> [] ->
  pending_run UTF8_ACCEPT t = true ->
  stream (enc_byte e) st c pend t = S_done (concat (map pua_map pend)).
Proof.
  intros P Hne Ht. destruct t as [|b t]; [contradiction|].
  destruct (Z.eq_dec st UTF8_ACCEPT) as [->|Hn].
  - assert (pend = []) by (apply P; reflexivity). subst pend.
    apply enc_pending_run, Ht.
  - pose proof Ht as Ht'. cbn [pending_run] in Ht'.
    apply andb_true_iff in Ht'. destruct Ht' as [H H3].
    apply andb_true_iff in H. destruct H as [H1 H2].
    apply negb_true_iff in H1, H2. apply Z.eqb_neq in H1, H2.
    pose proof (lead_byte_rejected st b (pending_ok_state _ _ P) Hn H1 H2) as Hrej.
    assert (Hb : enc_byte e st c pend b = E_retry (concat (map pua_map pend))).
    { unfold enc_byte.
      destruct (utf8_decode st c (byte_val b)) as [s1 c1] eqn:E.
      assert (Es : s1 = UTF8_REJECT)
        by (rewrite <- Hrej, <- (utf8_decode_state st c), E; reflexivity).
      subst s1. change (UTF8_REJECT =? UTF8_ACCEPT) with false. rewrite Z.eqb_refl.
      replace (st =? UTF8_ACCEPT) with false by (symmetry; apply Z.eqb_neq; exact Hn).
      reflexivity. }
    pose proof (enc_pending_run e (b :: t) UTF8_ACCEPT 0 [] Ht) as Hf.
    cbn [stream] in *. rewrite Hb.
    destruct (enc_byte e UTF8_ACCEPT 0 [] b) as [|o2 st2 c2 pend2|o2] eqn:Ef2.
    + discriminate.
    + rewrite Hf. apply s_push_done.
    + destruct (enc_byte_retry _ _ _ _ _ _ Ef2) as [_ Hx]. exfalso. apply Hx. reflexivity.
Qed.

(** One byte of the encoder keeps the pending region a truncated
    sequence, and moves bytes from it to the part that is done. *)
Lemma enc_byte_split (e st c : Z) (pend : list byte) (b : byte)
    (o : list byte) (st' c' : Z) (pend' : list byte) :
  pending_ok st pend ->
  pending_run UTF8_ACCEPT pend = true ->
  enc_byte e st c pend b = E_out o st' c' pend' ->
  pending_run UTF8_ACCEPT pend' = true /\ exists D, pend ++ [b] = D ++ pend'.
Proof.
  intros P Hrun. unfold enc_byte. emit_cases st c b.
  - destruct (in_pua cp'); [destruct (e =? XTF8_ERR_ABORT); [discriminate|]|];
      intros [= <- <- <- <-]; (split; [reflexivity|]);
      exists (pend ++ [b]); rewrite app_nil_r; reflexivity.
  - destruct (st =? UTF8_ACCEPT); [|discriminate].
    intros [= <- <- <- <-]. split; [reflexivity|].
    exists (pend ++ [b]). rewrite app_nil_r. reflexivity.
  - intros [= <- <- <- <-]. split; [|exists []; reflexivity].
    apply pending_run_app; [exact Hrun | |]; destruct P as [-> _]; congruence.
Qed.

Lemma enc_then_truncated (e : Z) (rest : list byte) :
  forall st c pend,
    pending_ok st pend ->
    pending_run UTF8_ACCEPT pend = true ->
    exists B0 p,
      pend ++ rest = B0 ++ p /\
      truncated p = true /\
      forall t,
        t <> [] ->
        pending_run UTF8_ACCEPT t = true ->
        stream (enc_byte e) st c pend (rest ++ t)
        = s_then (stream (enc_byte e) st c pend rest) (S_done (concat (map pua_map p))).
Proof.
  induction rest as [|b rest IH]; intros st c pend P Hrun.
  - exists [], pend. rewrite app_nil_r. split; [reflexivity|]. split; [exact Hrun|].
    intros t Hne Ht. cbn [app stream s_then]. rewrite s_push_nil.
    apply enc_truncated_after; assumption.
  - cbn [app stream].
    destruct (enc_byte e st c pend b) as [|o st' c' pend'|o] eqn:Ef.
    + exists (pend ++ b :: rest), []. rewrite app_nil_r.
      split; [reflexivity|]. split; reflexivity.
    + destruct (enc_byte_out _ _ _ _ _ _ _ _ _ P Ef) as [_ P'].
      destruct (enc_byte_split _ _ _ _ _ _ _ _ _ P Hrun Ef) as (Hrun' & D & HD).
      destruct (IH _ c' _ P' Hrun') as (B0 & p & Hsplit & Hp & Hall).
      exists (D ++ B0), p. split; [|split; [exact Hp|]].
      * change (b :: rest) with ([b] ++ rest).
        rewrite app_assoc, HD, <- !app_assoc, Hsplit. reflexivity.
      * intros t Hne Ht. rewrite (Hall t Hne Ht), s_then_push. reflexivity.
    + destruct (enc_byte e UTF8_ACCEPT 0 [] b) as [|o2 st2 c2 pend2|o2] eqn:Ef2.
      * exists (pend ++ b :: rest), []. rewrite app_nil_r.
        split; [reflexivity|]. split; reflexivity.
      * destruct (enc_byte_out _ _ _ _ _ _ _ _ _ pending_ok_nil Ef2) as [_ P2].
        destruct (enc_byte_split _ _ _ _ _ _ _ _ _ pending_ok_nil eq_refl Ef2)
          as (Hrun2 & D & HD).
        destruct (IH _ c2 _ P2 Hrun2) as (B0 & p & Hsplit & Hp & Hall).
        exists (pend ++ D ++ B0), p. split; [|split; [exact Hp|]].
        -- change (b :: rest) with (([] ++ [b]) ++ rest).
           rewrite HD, <- !app_assoc, Hsplit. reflexivity.
        -- intros t Hne Ht. rewrite (Hall t Hne Ht), !s_then_push. reflexivity.
      * destruct (enc_byte_retry _ _ _ _ _ _ Ef2) as [_ Hn]. exfalso. apply Hn. reflexivity.
Qed.

(** The same from the start of the input. *)
Lemma enc_truncated_tail (e : Z) (B : list byte) :
  exists B0 p,
    B = B0 ++ p /\
    truncated p = true /\
    forall t,
      t <> [] ->
      truncated t = true ->
      stream (enc_byte e) UTF8_ACCEPT 0 [] (B ++ t)
      = s_then (stream (enc_byte e) UTF8_ACCEPT 0 [] B) (S_done (concat (map pua_map p))).
Proof. exact (enc_then_truncated e B _ 0 [] pending_ok_nil eq_refl). Qed.

(** C9.  Let the input end in a truncated multi-byte sequence [t]: the
    scanner still needs bytes when the input ends.  The bytes of [t]
    produce no output: what [xtf8_encode] returns and stores for
    [B ++ t] is what it returns and stores for [B] alone, followed only,
    when [B] itself ends in a truncated sequence [p], by the three bytes
    for each byte of [p], which the lead byte of [t] makes the encoder
    map to the reserved range.  This is the same for every [t], in both
    passes and with either policy, so that inputs that differ in [t]
    have the same output; when [B] does not end in a truncated
    sequence, [p] is empty and the output is that of [B]. *)
Theorem encode_drops_truncated_tail (dst : option Z) (error : Z) (B : list byte) :
  exists B0 p ret w,
    B = B0 ++ p /\
    truncated p = true /\
    xtf8_encode dst B error = Some (Returned ret w) /\
    forall t,
      t <> [] ->
      truncated t = true ->
      xtf8_encode dst (B ++ t) error
      = Some (Returned (ret + 3 * Z.of_nat (length p))
                (w ++ visible dst (concat (map pua_map p)))).
Proof.
  destruct (enc_truncated_tail error B) as (B0 & p & HB & Hp & Hall).
  rewrite xtf8_encode_stream.
  destruct (stream (enc_byte error) UTF8_ACCEPT 0 [] B) as [o|o] eqn:HS.
  - exists B, [], XTF8_ABORTED, (visible dst o). rewrite app_nil_r.
    split; [reflexivity|]. split; [reflexivity|]. split; [reflexivity|].
    intros t Hne Ht. rewrite xtf8_encode_stream, (Hall t Hne Ht), ?HS.
    cbn [s_then view length map concat]. unfold visible. destruct (is_null dst);
      rewrite ?app_nil_r, Z.add_0_r; reflexivity.
  - eexists B0, p, _, _. split; [exact HB|]. split; [exact Hp|].
    split; [reflexivity|].
    intros t Hne Ht. rewrite xtf8_encode_stream, (Hall t Hne Ht), ?HS.
    cbn [s_then s_push view]. rewrite length_app, length_pua_maps.
    unfold visible. destruct dst as [a|]; cbn [is_null]; rewrite ?app_nil_r;
      do 2 f_equal; lia.
Qed.

(** The examples of C9: the single byte C2 is encoded to nothing under
    either policy, as the empty input is; and the byte C2 after the
    undecodable byte FF is dropped as well: FF C2 is encoded as FF
    alone is. *)
Lemma encode_drops_truncated_tail_witness :
  truncated [xc2] = true /\
  xtf8_encode None [xc2] XTF8_ERR_REPLACE = Some (Returned 0 []) /\
  xtf8_encode None [xc2] XTF8_ERR_ABORT = Some (Returned 0 []) /\
  xtf8_encode (Some 4096) [xc2] XTF8_ERR_REPLACE
    = xtf8_encode (Some 4096) [] XTF8_ERR_REPLACE /\
  xtf8_encode (Some 4096) [xff; xc2] XTF8_ERR_REPLACE
    = xtf8_encode (Some 4096) [xff] XTF8_ERR_REPLACE /\
  [xc2] <> [].
Proof.
  assert (Ht : truncated [xc2] = true) by (vm_compute; reflexivity).
  assert (Hne : [xc2] <> []) by discriminate.
  split; [exact Ht|].
  assert (Hnil : forall dst error,
             xtf8_encode dst ([] ++ [xc2]) error = xtf8_encode dst [] error).
  { intros dst error.
    destruct (encode_drops_truncated_tail dst error [])
      as (B0 & p & ret & w & HB & _ & HE & Hall).
    symmetry in HB. apply app_eq_nil in HB. destruct HB as [_ ->].
    rewrite (Hall [xc2] Hne Ht), HE. cbn [length map concat]. unfold visible.
    destruct (is_null dst); rewrite ?app_nil_r, Z.add_0_r; reflexivity. }
  split; [exact (Hnil None XTF8_ERR_REPLACE)|].
  split; [exact (Hnil None XTF8_ERR_ABORT)|].
  split; [exact (Hnil (Some 4096) XTF8_ERR_REPLACE)|].
  split; [|exact Hne].
  destruct (encode_drops_truncated_tail (Some 4096) XTF8_ERR_REPLACE [xff])
    as (B0 & p & ret & w & HB & Hp & HE & Hall).
  assert (p = []) as ->.
  { destruct B0 as [|b0 B0]; cbn [app] in HB.
    - subst p. vm_compute in Hp. discriminate.
    - injection HB as _ HB. symmetry in HB. apply app_eq_nil in HB. apply HB. }
  specialize (Hall [xc2] Hne Ht). cbn [app] in Hall.
  rewrite Hall, HE. cbn [length map concat visible is_null].
  rewrite app_nil_r, Z.add_0_r. reflexivity.
Defined.

(** Valid UTF-8 does not end in a truncated sequence: after valid
    UTF-8 text the truncated sequence is dropped without a trace. *)
Corollary encode_valid_then_truncated
    (dst : option Z) (error : Z) (B t : list byte) :
  is_utf8 B = true ->
  truncated t = true ->
  xtf8_encode dst (B ++ t) error = xtf8_encode dst B error.
Proof.
  intros HB Ht. rewrite !xtf8_encode_stream.
  rewrite enc_complete_then; [reflexivity | apply is_utf8_scan, HB | exact Ht].
Qed.

(** ** A reserved codepoint in the input, in general *)

(** A writing pass under the ABORT policy is not rolled back: for the
    input 61 EE BE 90 (the letter a, then U+EF90) it has stored 61 when
    it returns [XTF8_ABORTED].  The sizing pass, which a caller runs
    first, has told the caller not to make this call. *)
Lemma abort_writing_pass_has_stored :
  xtf8_encode (Some 4096) [x61; xee; xbe; x90] XTF8_ERR_ABORT
    = Some (Returned XTF8_ABORTED [x61]) /\
  written (xtf8_encode (Some 4096) [x61; xee; xbe; x90] XTF8_ERR_ABORT) <> Some [].
Proof.
  assert (H : xtf8_encode (Some 4096) [x61; xee; xbe; x90] XTF8_ERR_ABORT
              = Some (Returned XTF8_ABORTED [x61])) by (vm_compute; reflexivity).
  split; [exact H|]. rewrite H. cbn [written]. discriminate.
Qed.

(** C5.  Let the input hold the three bytes of a reserved codepoint
    after the bytes [pre] and before the bytes [post].

    With the ABORT policy the call returns [XTF8_ABORTED] and stores
    nothing: this is the sizing pass, with which a caller finds out
    about the collision.  (A writing pass that is called all the same
    returns [XTF8_ABORTED] too, and has stored nothing for the reserved
    codepoint or for what follows it: only bytes of the output for
    [pre].)

    With the REPLACE policy the output has EF BF BD at the position of
    the collision: it is the output [P] for [pre], then, when [pre]
    ends in a truncated sequence [p], the three bytes for each byte of
    [p] (the lead byte EE of the reserved codepoint makes the encoder
    map them to the reserved range), then EF BF BD, then the output [Y]
    for [post].  The sizing pass returns the length of this output and
    the writing pass the address after it; for an input that fits the
    address space neither is [XTF8_ABORTED]. *)
Theorem reserved_codepoint_abort_and_replace
    (a : Z) (pre post : list byte) (cp : Z) :
  XTF8_PUA_START <= cp <= XTF8_PUA_END ->
  exists B0 p P Y,
    pre = B0 ++ p /\
    truncated p = true /\
    written (xtf8_encode (Some a) pre XTF8_ERR_REPLACE) = Some P /\
    written (xtf8_encode (Some a) post XTF8_ERR_REPLACE) = Some Y /\
    xtf8_encode None (pre ++ utf8_3 cp ++ post) XTF8_ERR_ABORT
      = Some (Returned XTF8_ABORTED []) /\
    (exists w r,
        xtf8_encode (Some a) (pre ++ utf8_3 cp ++ post) XTF8_ERR_ABORT
          = Some (Returned XTF8_ABORTED w) /\
        P ++ concat (map pua_map p) = w ++ r) /\
    xtf8_encode None (pre ++ utf8_3 cp ++ post) XTF8_ERR_REPLACE
      = Some (Returned
                (Z.of_nat (length (P ++ concat (map pua_map p) ++ [xef; xbf; xbd] ++ Y)))
                []) /\
    xtf8_encode (Some a) (pre ++ utf8_3 cp ++ post) XTF8_ERR_REPLACE
      = Some (Returned
                (a + Z.of_nat (length (P ++ concat (map pua_map p)
                                         ++ [xef; xbf; xbd] ++ Y)))
                (P ++ concat (map pua_map p) ++ [xef; xbf; xbd] ++ Y)) /\
    (fits (Some a) (pre ++ utf8_3 cp ++ post) ->
     Z.of_nat (length (P ++ concat (map pua_map p) ++ [xef; xbf; xbd] ++ Y))
       <> XTF8_ABORTED /\
     a + Z.of_nat (length (P ++ concat (map pua_map p) ++ [xef; xbf; xbd] ++ Y))
       <> XTF8_ABORTED).
Proof.
  intros Hcp. apply in_pua_range in Hcp.
  pose proof (enc_stream_length XTF8_ERR_REPLACE (pre ++ utf8_3 cp ++ post)) as L.
  rewrite !xtf8_encode_stream.
  rewrite (enc_replace_prefix cp post Hcp XTF8_ERR_REPLACE pre eq_refl _ _ _ pending_ok_nil)
    in *.
  destruct (enc_abort_prefix cp post Hcp XTF8_ERR_REPLACE pre _ 0 _ pending_ok_nil)
    as (w & r & Hab & Hpre).
  rewrite Hab.
  destruct (enc_truncated_tail XTF8_ERR_REPLACE pre) as (B0 & p & HB & Hp & Hee).
  specialize (Hee [xee] ltac:(discriminate) eq_refl).
  rewrite Hee in *.
  destruct (enc_no_abort XTF8_ERR_REPLACE pre eq_refl UTF8_ACCEPT 0 []) as [P HP].
  destruct (enc_no_abort XTF8_ERR_REPLACE post eq_refl UTF8_ACCEPT 0 []) as [Y HY].
  rewrite HP, HY in *.
  cbn [s_then s_bytes s_push view visible is_null written] in *.
  rewrite replacement_bytes in *.
  exists B0, p, P, Y. rewrite <- ?app_assoc.
  split; [exact HB|]. split; [exact Hp|]. do 3 (split; [reflexivity|]).
  split; [exists w, r; split; [reflexivity | exact Hpre]|].
  do 2 (split; [reflexivity|]).
  intros [Ha Hfit]. cbn [uintptr] in *. rewrite <- ?app_assoc in L. lia.
Qed.

Lemma reserved_codepoint_abort_and_replace_witness :
  XTF8_PUA_START <= 0xEF90 <= XTF8_PUA_END /\
  exists B0 p P Y,
    [x61; xc2] = B0 ++ p /\
    truncated p = true /\
    written (xtf8_encode (Some 4096) [x61; xc2] XTF8_ERR_REPLACE) = Some P /\
    written (xtf8_encode (Some 4096) [x62] XTF8_ERR_REPLACE) = Some Y /\
    xtf8_encode None ([x61; xc2] ++ utf8_3 0xEF90 ++ [x62]) XTF8_ERR_ABORT
      = Some (Returned XTF8_ABORTED []) /\
    (exists w r,
        xtf8_encode (Some 4096) ([x61; xc2] ++ utf8_3 0xEF90 ++ [x62]) XTF8_ERR_ABORT
          = Some (Returned XTF8_ABORTED w) /\
        P ++ concat (map pua_map p) = w ++ r) /\
    xtf8_encode None ([x61; xc2] ++ utf8_3 0xEF90 ++ [x62]) XTF8_ERR_REPLACE
      = Some (Returned
                (Z.of_nat (length (P ++ concat (map pua_map p) ++ [xef; xbf; xbd] ++ Y)))
                []) /\
    xtf8_encode (Some 4096) ([x61; xc2] ++ utf8_3 0xEF90 ++ [x62]) XTF8_ERR_REPLACE
      = Some (Returned
                (4096 + Z.of_nat (length (P ++ concat (map pua_map p)
                                            ++ [xef; xbf; xbd] ++ Y)))
                (P ++ concat (map pua_map p) ++ [xef; xbf; xbd] ++ Y)) /\
    (fits (Some 4096) ([x61; xc2] ++ utf8_3 0xEF90 ++ [x62]) ->
     Z.of_nat (length (P ++ concat (map pua_map p) ++ [xef; xbf; xbd] ++ Y))
       <> XTF8_ABORTED /\
     4096 + Z.of_nat (length (P ++ concat (map pua_map p) ++ [xef; xbf; xbd] ++ Y))
       <> XTF8_ABORTED).
Proof.
  assert (H : XTF8_PUA_START <= 0xEF90 <= XTF8_PUA_END)
    by (unfold XTF8_PUA_START, XTF8_PUA_END; lia).
  split; [exact H|].
  exact (reserved_codepoint_abort_and_replace 4096 [x61; xc2] [x62] 0xEF90 H).
Defined.

(** The output of the example: for 61 C2, U+EF90, 62 the encoder
    stores 61, the three bytes EE BF 82 for the byte C2, EF BF BD for
    the reserved codepoint, and 62. *)
Example reserved_codepoint_after_truncated :
  xtf8_encode (Some 4096) ([x61; xc2] ++ utf8_3 0xEF90 ++ [x62]) XTF8_ERR_REPLACE
  = Some (Returned (4096 + 8) [x61; xee; xbf; x82; xef; xbf; xbd; x62]) /\
  xtf8_encode None ([x61; xc2] ++ utf8_3 0xEF90 ++ [x62]) XTF8_ERR_REPLACE
  = Some (Returned 8 []).
Proof. split; vm_compute; reflexivity. Qed.
